(** * GeoCachingEngine: invitation and notification dispatch

    A shallow embedding of the backend's invitation engine
    ([backend/src/email.ts] and the invitation, audit-log, join and
    event-deletion routes of [backend/src/index.ts], plus the retention
    cleanup script) together with the properties its specification states
    about it.

    Conventions of the embedding:
    - JavaScript strings are [string]; numbers that the code uses as
      integers (counts, ceilings, millisecond timestamps, HTTP status codes)
      are [Z];
    - [null]/[undefined] are [None];
    - the Prisma client is a set of primitives over an explicit [Store]
      (one list per table, rows in insertion order);
    - [async] functions are computations in a state-and-exception monad over
      a [World] that holds the store, the wall clock, the process
      environment, the behaviour of the outside world (SMTP transport, audit
      table availability, random sources), the console and a journal of the
      client calls that were issued. *)

From Stdlib Require Import ZArith List String Ascii Bool Lia.
From Stdlib Require Import DecimalString Sorting.Sorted Permutation.
Import ListNotations.

Local Open Scope string_scope.
Local Open Scope Z_scope.

(** ** JavaScript values *)

Module Js.

(** Truthiness of a [string | null | undefined]. *)
Definition truthy (o : option string) : bool :=
  match o with
  | Some s => negb (s =? "")%string
  | None => false
  end.

(** Truthiness of a [number | null | undefined] (integers only). *)
Definition truthyNum (o : option Z) : bool :=
  match o with
  | Some n => negb (n =? 0)
  | None => false
  end.

(** [a || b] on optional strings. *)
Definition or_else (a b : option string) : option string :=
  if truthy a then a else b.

(** [a || d] where [d] is a string literal. *)
Definition or_default (a : option string) (d : string) : string :=
  match a with
  | Some s => if (s =? "")%string then d else s
  | None => d
  end.

(** [a ?? d]. *)
Definition nullish {A : Type} (a : option A) (d : A) : A :=
  match a with
  | Some x => x
  | None => d
  end.

(** Template-literal rendering of an integer. *)
Definition decimal (n : Z) : string := NilZero.string_of_int (Z.to_int n).

(** [s.includes(needle)]. *)
Fixpoint includes (s needle : string) : bool :=
  String.prefix needle s ||
  match s with
  | EmptyString => false
  | String _ s' => includes s' needle
  end.

(** What a [throw] carries: an [Error] with its message, or any other
    value. *)
Inductive Thrown : Type :=
| JsError (message : string)
| NotAnError.

End Js.

(** ** Data model (rows of the Prisma schema) *)

Inductive PrismaEmailStatus : Type := SENT | FAILED | DISABLED | RATE_LIMITED.

Inductive DeliveryMethod : Type := LINK | EMAIL.

Definition PrismaEmailStatus_eqb (a b : PrismaEmailStatus) : bool :=
  match a, b with
  | SENT, SENT | FAILED, FAILED | DISABLED, DISABLED
  | RATE_LIMITED, RATE_LIMITED => true
  | _, _ => false
  end.

Record SystemSetting : Type := {
  maxEmailsPerHourPerAdmin : option Z;
  maxEmailsPerDayPerAdmin : option Z;
  smtpHost : option string;
  smtpPort : option Z;
  smtpUser : option string;
  smtpPassword : option string;
  smtpUseTls : option bool;
  smtpFromAddress : option string;
  smtpFromName : option string
}.

Record Event : Type := {
  event_id : string;
  name : string;
  description : option string;
  startsAt : Z;
  endsAt : Z;
  invitationEmailSubject : option string;
  invitationEmailBody : option string;
  senderEmail : option string;
  senderName : option string;
  archived : bool
}.

Record Invitation : Type := {
  inv_id : string;
  inv_eventId : string;
  token : string;
  deliveryMethod : DeliveryMethod;
  email : option string;
  isActive : bool;
  deactivatedAt : option Z;
  inv_createdAt : Z;
  usedAt : option Z
}.

Record EmailLog : Type := {
  log_id : string;
  log_eventId : option string;
  log_invitationId : option string;
  log_adminId : option string;
  recipient : string;
  subject : string;
  status : PrismaEmailStatus;
  errorMessage : option string;
  createdAt : Z
}.

Record Cache : Type := { cache_id : string; cache_eventId : string }.
Record CacheFind : Type := { find_cacheId : string; find_playerId : string }.
Record Player : Type := { player_id : string; player_eventId : string }.

(** The durable store. *)
Record Store : Type := {
  systemSetting : option SystemSetting;
  events : list Event;
  invitations : list Invitation;
  emailLogs : list EmailLog;
  caches : list Cache;
  cacheFinds : list CacheFind;
  players : list Player
}.

(** [process.env], restricted to the variables the engine reads.  A numeric
    variable is [None] when unset or empty and [Some n] when it holds the
    decimal integer [n]. *)
Record Env : Type := {
  BASE_URL : option string;
  MAX_EMAILS_PER_HOUR_PER_ADMIN : option Z;
  MAX_EMAILS_PER_DAY_PER_ADMIN : option Z;
  DATA_RETENTION_DAYS : option Z
}.

(** An outgoing message handed to the transport. *)
Record Mail : Type := {
  mail_from : option string;
  mail_to : string;
  mail_subject : string;
  mail_text : string
}.

(** One entry per client call that reaches the outside world. *)
Inductive Op : Type :=
| OpSettingsFind
| OpEventFind (id : string)
| OpEmailLogCount (adminId : string) (since : Z)
| OpEmailLogCreate (st : PrismaEmailStatus)
| OpEmailLogFindMany (eventId : string)
| OpInvitationCreate (id : string)
| OpInvitationDelete (id : string)
| OpInvitationFind (key : string)
| OpInvitationUpdate (id : string)
| OpSendMail (m : Mail).

Record World : Type := {
  db : Store;
  now : Z;
  env : Env;
  (** outcome of [transporter.sendMail]: [None] delivers, [Some e] throws *)
  smtpFault : option Js.Thrown;
  (** [Some e] when [prisma.emailLog.create] throws [e] *)
  emailLogFault : option Js.Thrown;
  (** [crypto.randomBytes(24).toString('hex')] for the n-th row created *)
  randomHex : nat -> string;
  (** the cuid the store assigns to the n-th row created *)
  cuid : nat -> string;
  created : nat;
  console : list string;
  journal : list Op
}.

Definition set_db (w : World) (s : Store) : World :=
  {| db := s; now := now w; env := env w; smtpFault := smtpFault w;
     emailLogFault := emailLogFault w; randomHex := randomHex w;
     cuid := cuid w; created := created w; console := console w;
     journal := journal w |}.

Definition log_op (o : Op) (w : World) : World :=
  {| db := db w; now := now w; env := env w; smtpFault := smtpFault w;
     emailLogFault := emailLogFault w; randomHex := randomHex w;
     cuid := cuid w; created := created w; console := console w;
     journal := journal w ++ [o] |}.

Definition bump (w : World) : World :=
  {| db := db w; now := now w; env := env w; smtpFault := smtpFault w;
     emailLogFault := emailLogFault w; randomHex := randomHex w;
     cuid := cuid w; created := S (created w); console := console w;
     journal := journal w |}.

Definition print (line : string) (w : World) : World :=
  {| db := db w; now := now w; env := env w; smtpFault := smtpFault w;
     emailLogFault := emailLogFault w; randomHex := randomHex w;
     cuid := cuid w; created := created w; console := console w ++ [line];
     journal := journal w |}.

(** ** The monad of [async] code

    A computation runs from a world to a result and the world after it.
    [Throw] is a rejected promise; when a route handler ends that way,
    [asyncHandler] passes the error on and the caller gets an error
    response instead of the handler's own. *)

Inductive Result (A : Type) : Type :=
| Ok (a : A)
| Throw (e : Js.Thrown).
Arguments Ok {A} a.
Arguments Throw {A} e.

Definition Async (A : Type) : Type := World -> Result A * World.

Definition ret {A} (a : A) : Async A := fun w => (Ok a, w).

Definition bind {A B} (m : Async A) (k : A -> Async B) : Async B :=
  fun w =>
    match m w with
    | (Ok a, w') => k a w'
    | (Throw e, w') => (Throw e, w')
    end.

Definition throw {A} (e : Js.Thrown) : Async A := fun w => (Throw e, w).

(** [try { m } catch (e) { h e }] *)
Definition try_catch {A} (m : Async A) (h : Js.Thrown -> Async A) : Async A :=
  fun w =>
    match m w with
    | (Ok a, w') => (Ok a, w')
    | (Throw e, w') => h e w'
    end.

Definition gets {A} (f : World -> A) : Async A := fun w => (Ok (f w), w).
Definition modify (f : World -> World) : Async unit := fun w => (Ok tt, f w).

Declare Scope async_scope.
Delimit Scope async_scope with async.
Notation "x <- m ;; k" := (bind m (fun x => k))
  (at level 100, m at next level, right associativity) : async_scope.
Notation "m ;; k" := (bind m (fun _ => k))
  (at level 100, right associativity) : async_scope.
Local Open Scope async_scope.

(** ** Prisma client primitives *)

Module Prisma.

(** [prisma.systemSetting.findUnique({ where: { id: 1 } })] *)
Definition systemSetting_findUnique : Async (option SystemSetting) :=
  fun w => (Ok (systemSetting (db w)), log_op OpSettingsFind w).

(** [prisma.event.findUnique({ where: { id } })] *)
Definition event_lookup (id : string) (s : Store) : option Event :=
  find (fun e => (event_id e =? id)%string) (events s).

Definition event_findUnique (id : string) : Async (option Event) :=
  fun w => (Ok (event_lookup id (db w)), log_op (OpEventFind id) w).

(** The [where] clause of [countEmails]:
    [{ adminId, createdAt: { gte: since }, NOT: { status: RATE_LIMITED } }] *)
Definition countsTowardsQuota (adminId : string) (since : Z) (l : EmailLog) : bool :=
  match log_adminId l with
  | Some a => (a =? adminId)%string
  | None => false
  end
  && (since <=? createdAt l)
  && negb (PrismaEmailStatus_eqb (status l) RATE_LIMITED).

(** [prisma.emailLog.count({ where })] *)
Definition emailLog_count_in (adminId : string) (since : Z) (logs : list EmailLog) : Z :=
  Z.of_nat (List.length (filter (countsTowardsQuota adminId since) logs)).

Definition emailLog_count (adminId : string) (since : Z) : Async Z :=
  fun w => (Ok (emailLog_count_in adminId since (emailLogs (db w))),
            log_op (OpEmailLogCount adminId since) w).

(** Column values handed to [prisma.emailLog.create]. *)
Record EmailLogData : Type := {
  d_recipient : string;
  d_subject : string;
  d_status : PrismaEmailStatus;
  d_errorMessage : option string;
  d_eventId : option string;
  d_invitationId : option string;
  d_adminId : option string
}.

Definition add_emailLog (l : EmailLog) (s : Store) : Store :=
  {| systemSetting := systemSetting s; events := events s;
     invitations := invitations s; emailLogs := emailLogs s ++ [l];
     caches := caches s; cacheFinds := cacheFinds s; players := players s |}.

Definition set_invitations (l : list Invitation) (s : Store) : Store :=
  {| systemSetting := systemSetting s; events := events s;
     invitations := l; emailLogs := emailLogs s;
     caches := caches s; cacheFinds := cacheFinds s; players := players s |}.

(** [prisma.emailLog.create({ data })]: the row gets a fresh id and the
    current time; the call throws when the audit table cannot be written. *)
Definition emailLog_create (d : EmailLogData) : Async EmailLog :=
  fun w =>
    let w1 := log_op (OpEmailLogCreate (d_status d)) w in
    match emailLogFault w with
    | Some e => (Throw e, w1)
    | None =>
      let row :=
        {| log_id := cuid w (created w);
           log_eventId := d_eventId d;
           log_invitationId := d_invitationId d;
           log_adminId := d_adminId d;
           recipient := d_recipient d;
           subject := d_subject d;
           status := d_status d;
           errorMessage := d_errorMessage d;
           createdAt := now w |} in
      (Ok row, bump (set_db w1 (add_emailLog row (db w1))))
    end.

(** [prisma.invitation.create({ data: { eventId, token, deliveryMethod,
    email } })].  The columns not given take the schema defaults, which the
    issuing contract fixes as: active, never deactivated, never used.  The
    random token is taken to be new (a clash with the unique index on
    tokens is not modelled). *)
Definition invitation_create (eventId tok : string) (m : DeliveryMethod)
    (mail : option string) : Async Invitation :=
  fun w =>
    let row :=
      {| inv_id := cuid w (created w);
         inv_eventId := eventId;
         token := tok;
         deliveryMethod := m;
         email := mail;
         isActive := true;
         deactivatedAt := None;
         inv_createdAt := now w;
         usedAt := None |} in
    let w1 := log_op (OpInvitationCreate (inv_id row)) w in
    (Ok row, bump (set_db w1 (set_invitations (invitations (db w1) ++ [row]) (db w1)))).

Fixpoint remove_invitation (id : string) (l : list Invitation) : option (list Invitation) :=
  match l with
  | [] => None
  | i :: rest =>
    if (inv_id i =? id)%string then Some rest
    else match remove_invitation id rest with
         | Some rest' => Some (i :: rest')
         | None => None
         end
  end.

(** [prisma.invitation.delete({ where: { id } })]: throws when there is no
    such row. *)
Definition invitation_delete (id : string) : Async unit :=
  fun w =>
    let w1 := log_op (OpInvitationDelete id) w in
    match remove_invitation id (invitations (db w1)) with
    | Some rest => (Ok tt, set_db w1 (set_invitations rest (db w1)))
    | None => (Throw (Js.JsError "Record to delete does not exist."), w1)
    end.

(** [prisma.invitation.findFirst({ where: { id, eventId } })] *)
Definition invitation_findFirst (id eventId : string) : Async (option Invitation) :=
  fun w =>
    (Ok (find (fun i => (inv_id i =? id)%string && (inv_eventId i =? eventId)%string)
              (invitations (db w))),
     log_op (OpInvitationFind id) w).

Fixpoint update_invitation (id : string) (f : Invitation -> Invitation)
    (l : list Invitation) : option (Invitation * list Invitation) :=
  match l with
  | [] => None
  | i :: rest =>
    if (inv_id i =? id)%string then Some (f i, f i :: rest)
    else match update_invitation id f rest with
         | Some (u, rest') => Some (u, i :: rest')
         | None => None
         end
  end.

(** [prisma.invitation.update({ where: { id }, data: { isActive,
    deactivatedAt } })]: throws when there is no such row. *)
Definition invitation_update (id : string) (active : bool) (deactivated : option Z)
  : Async Invitation :=
  fun w =>
    let w1 := log_op (OpInvitationUpdate id) w in
    let f i :=
      {| inv_id := inv_id i; inv_eventId := inv_eventId i; token := token i;
         deliveryMethod := deliveryMethod i; email := email i;
         isActive := active; deactivatedAt := deactivated;
         inv_createdAt := inv_createdAt i; usedAt := usedAt i |} in
    match update_invitation id f (invitations (db w1)) with
    | Some (u, l) => (Ok u, set_db w1 (set_invitations l (db w1)))
    | None => (Throw (Js.JsError "Record to update not found."), w1)
    end.

(** [prisma.invitation.findUnique({ where: { token }, include: { event:
    true } })]: the row together with the event it belongs to.  The foreign
    key makes the event exist; a store that breaks it yields a rejected
    promise here. *)
Definition invitation_findUnique_token (tok : string)
  : Async (option (Invitation * Event)) :=
  fun w =>
    let w1 := log_op (OpInvitationFind tok) w in
    match find (fun i => (token i =? tok)%string) (invitations (db w)) with
    | None => (Ok None, w1)
    | Some i =>
      match event_lookup (inv_eventId i) (db w) with
      | Some e => (Ok (Some (i, e)), w1)
      | None => (Throw (Js.JsError "Inconsistent query result"), w1)
      end
    end.

(** Insertion of a row into a list kept newest first; rows with equal
    timestamps keep their insertion order. *)
Fixpoint insert_desc (x : EmailLog) (l : list EmailLog) : list EmailLog :=
  match l with
  | [] => [x]
  | y :: rest =>
    if createdAt y <? createdAt x then x :: y :: rest
    else y :: insert_desc x rest
  end.

(** [orderBy: { createdAt: 'desc' }] *)
Definition order_desc (l : list EmailLog) : list EmailLog :=
  fold_right insert_desc [] l.

(** The [where] object of the audit listing: the event, and the status when
    one was set. *)
Definition log_matches (eventId : string) (st : option PrismaEmailStatus)
    (l : EmailLog) : bool :=
  match log_eventId l with
  | Some e => (e =? eventId)%string
  | None => false
  end
  && match st with
     | Some s => PrismaEmailStatus_eqb (status l) s
     | None => true
     end.

(** [prisma.emailLog.findMany({ where, orderBy: { createdAt: 'desc' },
    take })] *)
Definition emailLog_findMany_in (eventId : string) (st : option PrismaEmailStatus)
    (take : nat) (logs : list EmailLog) : list EmailLog :=
  firstn take (order_desc (filter (log_matches eventId st) logs)).

Definition emailLog_findMany (eventId : string) (st : option PrismaEmailStatus)
    (take : nat) : Async (list EmailLog) :=
  fun w => (Ok (emailLog_findMany_in eventId st take (emailLogs (db w))),
            log_op (OpEmailLogFindMany eventId) w).

(** *** Bulk deletes, as operations on the store *)

Definition StoreOp : Type := Store -> Result unit * Store.

Definition strb_neq (a b : string) : bool := negb (a =? b)%string.

(** [prisma.emailLog.deleteMany({ where: { eventId: id } })] *)
Definition emailLog_deleteMany (id : string) : StoreOp :=
  fun s =>
    (Ok tt,
     {| systemSetting := systemSetting s; events := events s;
        invitations := invitations s;
        emailLogs :=
          filter (fun l => match log_eventId l with
                           | Some e => strb_neq e id
                           | None => true
                           end) (emailLogs s);
        caches := caches s; cacheFinds := cacheFinds s; players := players s |}).

(** [prisma.cacheFind.deleteMany({ where: { cache: { eventId: id } } })] *)
Definition cacheFind_deleteMany (id : string) : StoreOp :=
  fun s =>
    (Ok tt,
     {| systemSetting := systemSetting s; events := events s;
        invitations := invitations s; emailLogs := emailLogs s;
        caches := caches s;
        cacheFinds :=
          filter (fun f =>
                    negb (existsb (fun c => (cache_id c =? find_cacheId f)%string
                                            && (cache_eventId c =? id)%string)
                                  (caches s)))
                 (cacheFinds s);
        players := players s |}).

(** [prisma.invitation.deleteMany({ where: { eventId: id } })] *)
Definition invitation_deleteMany (id : string) : StoreOp :=
  fun s =>
    (Ok tt,
     set_invitations (filter (fun i => strb_neq (inv_eventId i) id) (invitations s)) s).

(** [prisma.cache.deleteMany({ where: { eventId: id } })] *)
Definition cache_deleteMany (id : string) : StoreOp :=
  fun s =>
    (Ok tt,
     {| systemSetting := systemSetting s; events := events s;
        invitations := invitations s; emailLogs := emailLogs s;
        caches := filter (fun c => strb_neq (cache_eventId c) id) (caches s);
        cacheFinds := cacheFinds s; players := players s |}).

(** [prisma.player.deleteMany({ where: { eventId: id } })] *)
Definition player_deleteMany (id : string) : StoreOp :=
  fun s =>
    (Ok tt,
     {| systemSetting := systemSetting s; events := events s;
        invitations := invitations s; emailLogs := emailLogs s;
        caches := caches s; cacheFinds := cacheFinds s;
        players := filter (fun p => strb_neq (player_eventId p) id) (players s) |}).

(** [prisma.event.delete({ where: { id } })]: throws when there is no such
    event. *)
Definition event_delete (id : string) : StoreOp :=
  fun s =>
    if existsb (fun e => (event_id e =? id)%string) (events s) then
      (Ok tt,
       {| systemSetting := systemSetting s;
          events := filter (fun e => strb_neq (event_id e) id) (events s);
          invitations := invitations s; emailLogs := emailLogs s;
          caches := caches s; cacheFinds := cacheFinds s; players := players s |})
    else (Throw (Js.JsError "Record to delete does not exist."), s).

Fixpoint run_ops (ops : list StoreOp) (s : Store) : Result unit * Store :=
  match ops with
  | [] => (Ok tt, s)
  | op :: rest =>
    match op s with
    | (Ok _, s') => run_ops rest s'
    | (Throw e, s') => (Throw e, s')
    end
  end.

(** [prisma.$transaction([...])]: the operations run in order; when one
    throws, none of them takes effect. *)
Definition transaction (ops : list StoreOp) : Async unit :=
  fun w =>
    match run_ops ops (db w) with
    | (Ok _, s') => (Ok tt, set_db w s')
    | (Throw e, _) => (Throw e, w)
    end.

(** [prisma.event.findMany({ where: { endsAt: { lt: cutoff } }, select: {
    id: true } })] *)
Definition event_findMany_endedBefore (cutoff : Z) : Async (list string) :=
  fun w =>
    (Ok (map event_id (filter (fun e => endsAt e <? cutoff) (events (db w)))), w).

End Prisma.

(** ** Quota ledger ([email.ts]) *)

Record RateLimitConfig : Type := { perHour : Z; perDay : Z }.

Record RateDecision : Type := { allowed : bool; message : option string }.

(** [getRateLimitConfig] *)
Definition getRateLimitConfig (e : Env) (settings : option SystemSetting) : RateLimitConfig :=
  {| perHour :=
       Js.nullish
         (match settings with Some s => maxEmailsPerHourPerAdmin s | None => None end)
         (Js.nullish (MAX_EMAILS_PER_HOUR_PER_ADMIN e) 50);
     perDay :=
       Js.nullish
         (match settings with Some s => maxEmailsPerDayPerAdmin s | None => None end)
         (Js.nullish (MAX_EMAILS_PER_DAY_PER_ADMIN e) 200) |}.

(** [countEmails] *)
Definition countEmails (adminId : string) (since : Z) : Async Z :=
  Prisma.emailLog_count adminId since.

Definition hourMessage (limit : Z) : string :=
  "Limit erreicht (" ++ Js.decimal limit ++ " pro Stunde).".

Definition dayMessage (limit : Z) : string :=
  "Limit erreicht (" ++ Js.decimal limit ++ " pro Tag).".

(** [checkRateLimit] *)
Definition checkRateLimit (adminId : option string) (settings : option SystemSetting)
  : Async RateDecision :=
  match adminId with
  | None => ret {| allowed := true; message := None |}
  | Some admin =>
    if (admin =? "")%string then ret {| allowed := true; message := None |}
    else
      e <- gets env ;;
      let limits := getRateLimitConfig e settings in
      now_ <- gets now ;;
      perHour_ <- countEmails admin (now_ - 60 * 60 * 1000) ;;
      if (0 <? perHour limits) && (perHour limits <=? perHour_) then
        ret {| allowed := false; message := Some (hourMessage (perHour limits)) |}
      else
        perDay_ <- countEmails admin (now_ - 24 * 60 * 60 * 1000) ;;
        if (0 <? perDay limits) && (perDay limits <=? perDay_) then
          ret {| allowed := false; message := Some (dayMessage (perDay limits)) |}
        else ret {| allowed := true; message := None |}
  end.

(** ** Dates *)

Module JsDate.

(** Decimal digits of a non-negative number, left-padded with zeros. *)
Fixpoint digits (width : nat) (n : Z) : string :=
  match width with
  | O => ""
  | S k => digits k (n / 10) ++ String (ascii_of_nat (48 + Z.to_nat (n mod 10))) ""
  end.

(** Year, month and day of a count of days since 1970-01-01 (proleptic
    Gregorian calendar). *)
Definition civil (z0 : Z) : Z * Z * Z :=
  let z := z0 + 719468 in
  let era := z / 146097 in
  let doe := z - era * 146097 in
  let yoe := (doe - doe / 1460 + doe / 36524 - doe / 146096) / 365 in
  let doy := doe - (365 * yoe + yoe / 4 - yoe / 100) in
  let mp := (5 * doy + 2) / 153 in
  let d := doy - (153 * mp + 2) / 5 + 1 in
  let m := if mp <? 10 then mp + 3 else mp - 9 in
  let y := yoe + era * 400 + (if m <=? 2 then 1 else 0) in
  (y, m, d).

(** [date.toISOString()] of a valid date given in milliseconds since the
    epoch. *)
Definition toISOString (t : Z) : string :=
  let day := t / 86400000 in
  let ms := t mod 86400000 in
  let '(y, m, d) := civil day in
  let year :=
    if (0 <=? y) && (y <=? 9999) then digits 4 y
    else (if y <? 0 then "-" else "+") ++ digits 6 (Z.abs y) in
  year ++ "-" ++ digits 2 m ++ "-" ++ digits 2 d ++ "T"
  ++ digits 2 (ms / 3600000) ++ ":" ++ digits 2 (ms / 60000 mod 60) ++ ":"
  ++ digits 2 (ms / 1000 mod 60) ++ "." ++ digits 3 (ms mod 1000) ++ "Z".

End JsDate.

(** ** Template renderer ([email.ts]) *)

Definition DEFAULT_SUBJECT : string := "Einladung: {{eventName}}".

Definition LF : string := String (ascii_of_nat 10) "".

Definition DEFAULT_BODY : string :=
  "Du wurdest zu {{eventName}} eingeladen." ++ LF ++ LF
  ++ "Eventstart: {{eventStart}}" ++ LF ++ "Eventende: {{eventEnd}}" ++ LF ++ LF
  ++ "Einladungslink: {{inviteLink}}".

Record TemplateContext : Type := {
  eventName : option string;
  eventDescription : option string;
  eventStart : option string;
  eventEnd : option string;
  inviteLink : option string
}.

(** [context[key]] for the keys a context object owns (what a key such as
    [constructor] finds on [Object.prototype] is not modelled: it reads as
    absent). *)
Definition context_get (c : TemplateContext) (key : string) : option string :=
  if (key =? "eventName")%string then eventName c
  else if (key =? "eventDescription")%string then eventDescription c
  else if (key =? "eventStart")%string then eventStart c
  else if (key =? "eventEnd")%string then eventEnd c
  else if (key =? "inviteLink")%string then inviteLink c
  else None.

(** Characters the regular expression's [.] does not match (those that are
    one character here: line feed and carriage return). *)
Definition is_line_terminator (c : ascii) : bool :=
  let n := nat_of_ascii c in (n =? 10)%nat || (n =? 13)%nat.

(** Characters [trim] strips (the ASCII ones: space, tab, line feed,
    vertical tab, form feed, carriage return). *)
Definition is_space (c : ascii) : bool :=
  let n := nat_of_ascii c in
  (n =? 32)%nat || ((9 <=? n)%nat && (n <=? 13)%nat).

Fixpoint trim_start (s : string) : string :=
  match s with
  | EmptyString => ""
  | String c s' => if is_space c then trim_start s' else s
  end.

Fixpoint trim_end (s : string) : string :=
  match s with
  | EmptyString => ""
  | String c s' =>
    match trim_end s' with
    | EmptyString => if is_space c then "" else String c ""
    | t => String c t
    end
  end.

Definition trim (s : string) : string := trim_end (trim_start s).

(** The lazy group [(.*?)] followed by the closing braces, read from just
    after an opening pair: the key and the number of characters read. *)
Fixpoint scan_key (s : string) : option (string * nat) :=
  if String.prefix "}}" s then Some ("", 2%nat)
  else
    match s with
    | EmptyString => None
    | String c s' =>
      if is_line_terminator c then None
      else match scan_key s' with
           | Some (k, n) => Some (String c k, S n)
           | None => None
           end
    end.

(** A match of [/{{(.*?)}}/] starting at the head of [s]: the captured key
    and the length of the match. *)
Definition match_placeholder (s : string) : option (string * nat) :=
  match s with
  | String "{" (String "{" rest) =>
    match scan_key rest with
    | Some (k, n) => Some (k, (2 + n)%nat)
    | None => None
    end
  | _ => None
  end.

(** The global replace, left to right; [skip] characters of the current
    match are still to be dropped. *)
Fixpoint render_from (skip : nat) (s : string) (c : TemplateContext) : string :=
  match s with
  | EmptyString => ""
  | String ch s' =>
    match skip with
    | S k => render_from k s' c
    | O =>
      match match_placeholder s with
      | Some (key, len) =>
        Js.nullish (context_get c (trim key)) "" ++ render_from (Nat.pred len) s' c
      | None => String ch (render_from 0 s' c)
      end
    end
  end.

(** [renderTemplate] *)
Definition renderTemplate (template : string) (context : TemplateContext) : string :=
  render_from 0 template context.

Definition PLACEHOLDER : string := "{{inviteLink}}".

(** [ensureInviteLinkPlaceholder] *)
Definition ensureInviteLinkPlaceholder (body : string) : string :=
  if Js.includes body PLACEHOLDER then body
  else body ++ LF ++ LF ++ "Einladungslink: {{inviteLink}}".

(** *** [String.prototype.replace] with a string pattern *)

Fixpoint drop (n : nat) (s : string) : string :=
  match n, s with
  | O, _ => s
  | S k, String _ s' => drop k s'
  | S _, EmptyString => ""
  end.

(** The text before and after the first occurrence of [pat]. *)
Fixpoint split_first (pat s : string) : option (string * string) :=
  if String.prefix pat s then Some ("", drop (String.length pat) s)
  else
    match s with
    | EmptyString => None
    | String c s' =>
      match split_first pat s' with
      | Some (b, a) => Some (String c b, a)
      | None => None
      end
    end.

(** Expansion of the replacement text: [$$], [$&], [$`] and [$'] are
    patterns; with a string pattern there are no groups, so every other
    [$] stands for itself. *)
Fixpoint getSubstitution (matched before after repl : string) : string :=
  match repl with
  | EmptyString => ""
  | String c r =>
    if Ascii.eqb c "$" then
      match r with
      | String c2 r2 =>
        if Ascii.eqb c2 "$" then "$" ++ getSubstitution matched before after r2
        else if Ascii.eqb c2 "&" then matched ++ getSubstitution matched before after r2
        else if Ascii.eqb c2 "`" then before ++ getSubstitution matched before after r2
        else if Ascii.eqb c2 "'" then after ++ getSubstitution matched before after r2
        else String c (getSubstitution matched before after r)
      | EmptyString => String c ""
      end
    else String c (getSubstitution matched before after r)
  end.

(** [s.replace(pat, repl)] *)
Definition replace (s pat repl : string) : string :=
  match split_first pat s with
  | Some (b, a) => b ++ getSubstitution pat b a repl ++ a
  | None => s
  end.

(** [ensureInviteLink] *)
Definition ensureInviteLink (body link : string) : string :=
  if Js.includes body link then body
  else if Js.includes body PLACEHOLDER then replace body PLACEHOLDER link
  else body ++ LF ++ LF ++ link.

(** ** Dispatch ([email.ts]) *)

(** The result type [EmailStatus] of a dispatch. *)
Inductive EmailStatus : Type :=
| St_disabled
| St_sent
| St_error (message : string)
| St_rate_limited (message : string).

(** [isEmailSendingEnabled] *)
Definition isEmailSendingEnabled (settings : option SystemSetting) : bool :=
  match settings with
  | None => false
  | Some s =>
    Js.truthy (smtpHost s) && Js.truthyNum (smtpPort s)
    && Js.truthy (smtpFromAddress s) && Js.truthy (smtpUser s)
    && Js.truthy (smtpPassword s)
  end.

(** [getEmailConfig] *)
Definition getEmailConfig : Async (option SystemSetting) :=
  Prisma.systemSetting_findUnique.

Record LogParams : Type := {
  p_recipient : string;
  p_subject : string;
  p_status : PrismaEmailStatus;
  p_errorMessage : option string;
  p_eventId : option string;
  p_invitationId : option string;
  p_adminId : option string
}.

(** [logEmail]: the write is attempted once; when it throws, the error goes
    to the console and nowhere else. *)
Definition logEmail (params : LogParams) : Async unit :=
  try_catch
    (_ <- Prisma.emailLog_create
            {| Prisma.d_recipient := p_recipient params;
               Prisma.d_subject := p_subject params;
               Prisma.d_status := p_status params;
               Prisma.d_errorMessage := p_errorMessage params;
               Prisma.d_eventId := p_eventId params;
               Prisma.d_invitationId := p_invitationId params;
               Prisma.d_adminId := p_adminId params |} ;;
     ret tt)
    (fun _ => modify (print "E-Mail-Log konnte nicht geschrieben werden")).

Record InvitationEmailOptions : Type := {
  o_to : string;
  o_link : string;
  o_event : Event;
  o_invitationId : option string;
  o_adminId : option string;
  o_skipRateCheck : option bool
}.

(** [transporter.sendMail] (with [nodemailer.createTransport] before it):
    delivers or throws, as the outside world decides. *)
Definition sendMail (m : Mail) : Async unit :=
  fun w =>
    let w1 := log_op (OpSendMail m) w in
    match smtpFault w with
    | Some e => (Throw e, w1)
    | None => (Ok tt, w1)
    end.

(** [sendInvitationEmail] *)
Definition sendInvitationEmail (options : InvitationEmailOptions) : Async EmailStatus :=
  settings <- getEmailConfig ;;
  let ev := o_event options in
  let fromAddress :=
    Js.or_else (senderEmail ev)
               (match settings with Some s => smtpFromAddress s | None => None end) in
  let fromName :=
    Js.or_else (Js.or_else (senderName ev)
                  (match settings with Some s => smtpFromName s | None => None end))
               None in
  let subjectTemplate := Js.or_default (invitationEmailSubject ev) DEFAULT_SUBJECT in
  let bodyTemplate :=
    ensureInviteLinkPlaceholder (Js.or_default (invitationEmailBody ev) DEFAULT_BODY) in
  let context :=
    {| eventName := Some (name ev);
       eventDescription := description ev;
       eventStart := Some (JsDate.toISOString (startsAt ev));
       eventEnd := Some (JsDate.toISOString (endsAt ev));
       inviteLink := Some (o_link options) |} in
  let subject_ := renderTemplate subjectTemplate context in
  let body_ := renderTemplate bodyTemplate context in
  let deliver : Async EmailStatus :=
    try_catch
      (sendMail
         {| mail_from :=
              (if Js.truthy fromName
               then Some (Js.nullish fromName "" ++ " <" ++ Js.nullish fromAddress "" ++ ">")
               else fromAddress);
            mail_to := o_to options;
            mail_subject := subject_;
            mail_text := body_ |} ;;
       logEmail {| p_recipient := o_to options; p_subject := subject_;
                   p_status := SENT;
                   p_errorMessage := None;
                   p_eventId := Some (event_id ev);
                   p_invitationId := o_invitationId options;
                   p_adminId := o_adminId options |} ;;
       ret St_sent)
      (fun error =>
         let message_ :=
           match error with
           | Js.JsError m => m
           | Js.NotAnError => "E-Mail-Versand nicht möglich"
           end in
         logEmail {| p_recipient := o_to options; p_subject := subject_;
                     p_status := FAILED;
                     p_errorMessage := Some message_;
                     p_eventId := Some (event_id ev);
                     p_invitationId := o_invitationId options;
                     p_adminId := o_adminId options |} ;;
         modify (print "E-Mail-Versand fehlgeschlagen") ;;
         ret (St_error message_)) in
  if negb (isEmailSendingEnabled settings) || negb (Js.truthy fromAddress) then
    logEmail {| p_recipient := o_to options; p_subject := subject_;
                p_status := DISABLED;
                p_errorMessage := Some "SMTP nicht konfiguriert";
                p_eventId := Some (event_id ev);
                p_invitationId := o_invitationId options;
                p_adminId := o_adminId options |} ;;
    ret St_disabled
  else if negb (Js.nullish (o_skipRateCheck options) false) then
    rate <- checkRateLimit (o_adminId options) settings ;;
    if negb (allowed rate) then
      logEmail {| p_recipient := o_to options; p_subject := subject_;
                  p_status := RATE_LIMITED;
                  p_errorMessage := message rate;
                  p_eventId := Some (event_id ev);
                  p_invitationId := o_invitationId options;
                  p_adminId := o_adminId options |} ;;
      ret (St_rate_limited (Js.nullish (message rate) "Rate-Limit erreicht"))
    else deliver
  else deliver.

(** [precheckRateLimit] *)
Definition precheckRateLimit (adminId : option string) : Async RateDecision :=
  settings <- getEmailConfig ;;
  checkRateLimit adminId settings.

(** ** HTTP routes ([index.ts]) *)

(** [mapEventResponse] of an event loaded without its relations. *)
Record EventView : Type := {
  v_event : Event;
  v_startsAt : string;
  v_endsAt : string;
  v_caches : list Cache;
  v_invitations : list Invitation
}.

Definition mapEventResponse (e : Event) : EventView :=
  {| v_event := e;
     v_startsAt := JsDate.toISOString (startsAt e);
     v_endsAt := JsDate.toISOString (endsAt e);
     v_caches := [];
     v_invitations := [] |}.

(** An invitation row as the update route returns it: the row with its
    dates in ISO form. *)
Record InvitationView : Type := {
  iv_row : Invitation;
  iv_createdAt : string;
  iv_usedAt : option string;
  iv_deactivatedAt : option string
}.

Definition invitationView (i : Invitation) : InvitationView :=
  {| iv_row := i;
     iv_createdAt := JsDate.toISOString (inv_createdAt i);
     iv_usedAt := option_map JsDate.toISOString (usedAt i);
     iv_deactivatedAt := option_map JsDate.toISOString (deactivatedAt i) |}.

(** An audit record as the listing returns it. *)
Record EmailLogView : Type := {
  lv_row : EmailLog;
  lv_createdAt : string
}.

Definition emailLogView (l : EmailLog) : EmailLogView :=
  {| lv_row := l; lv_createdAt := JsDate.toISOString (createdAt l) |}.

Inductive Body : Type :=
| JMessage (message : string)
| JInvitation (invitation : Invitation) (link : string)
| JUpdated (invitation : InvitationView)
| JLogs (logs : list EmailLogView)
| JJoin (event : EventView) (tok : string) (method : DeliveryMethod)
| JNone.

Record Response : Type := { code : Z; payload : Body }.

Definition respond (c : Z) (b : Body) : Async Response :=
  ret {| code := c; payload := b |}.

Record InvitationPayload : Type := {
  pl_deliveryMethod : DeliveryMethod;
  pl_email : option string
}.

Definition is_EMAIL (m : DeliveryMethod) : bool :=
  match m with EMAIL => true | LINK => false end.

(** [POST /api/admin/events/:id/invitations], from the token on: issue
    the invitation and, for an e-mail invitation, send it. *)
Definition issueAndSend (id : string) (body : InvitationPayload)
    (adminId : option string) (event : Event) : Async Response :=
  tok <- gets (fun w => randomHex w (created w)) ;;
  invitation <- Prisma.invitation_create id tok (pl_deliveryMethod body)
                  (pl_email body) ;;
  e <- gets env ;;
  let baseUrl := Js.or_default (BASE_URL e) "http://localhost:5173" in
  let link := baseUrl ++ "/join/" ++ tok in
  if is_EMAIL (pl_deliveryMethod body) && Js.truthy (pl_email body) then
    result <- sendInvitationEmail
                {| o_to := Js.nullish (pl_email body) "";
                   o_link := link;
                   o_event := event;
                   o_invitationId := Some (inv_id invitation);
                   o_adminId := adminId;
                   o_skipRateCheck := Some true |} ;;
    match result with
    | St_rate_limited m =>
      Prisma.invitation_delete (inv_id invitation) ;;
      respond 429 (JMessage m)
    | St_error m => respond 500 (JMessage m)
    | _ => respond 201 (JInvitation invitation link)
    end
  else respond 201 (JInvitation invitation link).

(** [POST /api/admin/events/:id/invitations], after [authMiddleware] has
    put the operator on the request: validation, capability check and
    pre-quota gate, then [issueAndSend]. *)
Definition postInvitation (id : string) (body : InvitationPayload)
    (adminId : option string) : Async Response :=
  event <- Prisma.event_findUnique id ;;
  match event with
  | None => respond 404 (JMessage "Event not found")
  | Some event =>
    if is_EMAIL (pl_deliveryMethod body) && negb (Js.truthy (pl_email body)) then
      respond 400 (JMessage "Email is required for email invitations")
    else
      settings <- Prisma.systemSetting_findUnique ;;
      let emailEnabled := isEmailSendingEnabled settings in
      if is_EMAIL (pl_deliveryMethod body) && negb emailEnabled then
        respond 400
          (JMessage "E-Mail-Versand ist nicht konfiguriert. Bitte SMTP einrichten.")
      else if is_EMAIL (pl_deliveryMethod body) && Js.truthy adminId then
        rate <- precheckRateLimit adminId ;;
        if negb (allowed rate) then
          _ <- Prisma.emailLog_create
                 {| Prisma.d_recipient := Js.nullish (pl_email body) "";
                    Prisma.d_subject :=
                      Js.or_default (invitationEmailSubject event)
                                    ("Einladung: " ++ name event);
                    Prisma.d_status := RATE_LIMITED;
                    Prisma.d_errorMessage :=
                      Some (Js.nullish (message rate) "Rate-Limit erreicht");
                    Prisma.d_eventId := Some (event_id event);
                    Prisma.d_invitationId := None;
                    Prisma.d_adminId := adminId |} ;;
          respond 429 (JMessage (Js.nullish (message rate) "Rate-Limit erreicht"))
        else issueAndSend id body adminId event
      else issueAndSend id body adminId event
  end.

(** The same handler, cut at the point where it has taken the gate's
    decision and not yet drawn the token.  [gate] is the handler up to
    there: it ends with the answer, for a request that goes no further, or
    with the event that the handler goes on with.  [resume] is the rest.
    Every store call of the handler is awaited, so that the handler of
    another request can run between the two. *)
Definition gate (id : string) (body : InvitationPayload)
    (adminId : option string) : Async (Response + Event) :=
  event <- Prisma.event_findUnique id ;;
  match event with
  | None => ret (inl {| code := 404; payload := JMessage "Event not found" |})
  | Some event =>
    if is_EMAIL (pl_deliveryMethod body) && negb (Js.truthy (pl_email body)) then
      ret (inl {| code := 400;
                  payload := JMessage "Email is required for email invitations" |})
    else
      settings <- Prisma.systemSetting_findUnique ;;
      let emailEnabled := isEmailSendingEnabled settings in
      if is_EMAIL (pl_deliveryMethod body) && negb emailEnabled then
        ret (inl {| code := 400;
                    payload :=
                      JMessage
                        "E-Mail-Versand ist nicht konfiguriert. Bitte SMTP einrichten." |})
      else if is_EMAIL (pl_deliveryMethod body) && Js.truthy adminId then
        rate <- precheckRateLimit adminId ;;
        if negb (allowed rate) then
          _ <- Prisma.emailLog_create
                 {| Prisma.d_recipient := Js.nullish (pl_email body) "";
                    Prisma.d_subject :=
                      Js.or_default (invitationEmailSubject event)
                                    ("Einladung: " ++ name event);
                    Prisma.d_status := RATE_LIMITED;
                    Prisma.d_errorMessage :=
                      Some (Js.nullish (message rate) "Rate-Limit erreicht");
                    Prisma.d_eventId := Some (event_id event);
                    Prisma.d_invitationId := None;
                    Prisma.d_adminId := adminId |} ;;
          ret (inl {| code := 429;
                      payload :=
                        JMessage (Js.nullish (message rate) "Rate-Limit erreicht") |})
        else ret (inr event)
      else ret (inr event)
  end.

Definition resume (id : string) (body : InvitationPayload)
    (adminId : option string) (g : Response + Event) : Async Response :=
  match g with
  | inl answer => ret answer
  | inr event => issueAndSend id body adminId event
  end.

(** [PUT /api/admin/events/:eventId/invitations/:invitationId]; [isActive]
    is [None] when the body carries no boolean under that name. *)
Definition putInvitation (eventId invitationId : string) (isActive_ : option bool)
  : Async Response :=
  match isActive_ with
  | None => respond 400 (JMessage "isActive muss gesetzt werden")
  | Some active =>
    invitation <- Prisma.invitation_findFirst invitationId eventId ;;
    match invitation with
    | None => respond 404 (JMessage "Invitation not found")
    | Some _ =>
      t <- gets now ;;
      updated <- Prisma.invitation_update invitationId active
                   (if active then None else Some t) ;;
      respond 200 (JUpdated (invitationView updated))
    end
  end.

(** [Object.values(PrismaEmailStatus).includes(status)], with the member
    found. *)
Definition parseStatus (s : string) : option PrismaEmailStatus :=
  if (s =? "SENT")%string then Some SENT
  else if (s =? "FAILED")%string then Some FAILED
  else if (s =? "DISABLED")%string then Some DISABLED
  else if (s =? "RATE_LIMITED")%string then Some RATE_LIMITED
  else None.

(** The [where] object the audit listing builds from its query string. *)
Definition statusFilter (status_ : option string) : option PrismaEmailStatus :=
  match status_ with
  | Some s => if Js.truthy (Some s) then parseStatus s else None
  | None => None
  end.

(** [GET /api/admin/events/:id/email-logs] *)
Definition getEmailLogs (id : string) (status_ : option string) : Async Response :=
  logs <- Prisma.emailLog_findMany id (statusFilter status_) 100 ;;
  respond 200 (JLogs (map emailLogView logs)).

(** [GET /join/:token] *)
Definition getJoin (tok : string) : Async Response :=
  invitation <- Prisma.invitation_findUnique_token tok ;;
  match invitation with
  | None => respond 404 (JMessage "Invitation not found")
  | Some (invitation, event) =>
    if negb (isActive invitation) then
      respond 400 (JMessage "Diese Einladung ist nicht mehr gültig.")
    else
      t <- gets now ;;
      if endsAt event <? t then respond 400 (JMessage "Event expired")
      else respond 200 (JJoin (mapEventResponse event) (token invitation)
                              (deliveryMethod invitation))
  end.

(** [DELETE /api/admin/events/:id] *)
Definition deleteEvent (id : string) : Async Response :=
  Prisma.transaction
    [ Prisma.emailLog_deleteMany id;
      Prisma.cacheFind_deleteMany id;
      Prisma.invitation_deleteMany id;
      Prisma.cache_deleteMany id;
      Prisma.player_deleteMany id;
      Prisma.event_delete id ] ;;
  respond 204 JNone.

(** ** Retention cleanup ([scripts/cleanup.ts])

    The script deletes through the client, one awaited call after the
    other.  What a delete call does to rows that refer to the deleted ones
    is decided by the referential actions of the Prisma schema, which is
    not part of the sources at hand (the data model names the relations,
    not their actions).  The database is therefore a parameter here. *)

(** The delete calls that the client offers on the tables of the data
    model, with the event they are asked for. *)
Inductive DeleteCall : Type :=
| EmailLog_deleteMany (eventId : string)
| CacheFind_deleteMany (eventId : string)
| Invitation_deleteMany (eventId : string)
| Cache_deleteMany (eventId : string)
| Player_deleteMany (eventId : string)
| Event_delete (id : string).

(** What the database makes of a delete call: it fulfils or rejects it,
    and leaves a store. *)
Definition Engine : Type := DeleteCall -> Store -> Result unit * Store.

(** [await prisma.x.delete...(...)] outside any transaction: what the
    database has made of the call is in the store when the call returns,
    whatever happens to later calls. *)
Definition await_delete (E : Engine) (c : DeleteCall) : Async unit :=
  fun w =>
    match E c (db w) with
    | (r, s') => (r, set_db w s')
    end.

(** The host's local calendar: [daysBefore t n] is the instant that
    [d.setDate(d.getDate() - n)] leaves in a date [d] that held [t], the
    same local time of day [n] calendar days earlier. *)
Definition Calendar : Type := Z -> Z -> Z.

(** The loop of [run] over the expired events. *)
Fixpoint cleanup_each (E : Engine) (ids : list string) : Async unit :=
  match ids with
  | [] => ret tt
  | evt :: rest =>
    await_delete E (CacheFind_deleteMany evt) ;;
    await_delete E (Invitation_deleteMany evt) ;;
    await_delete E (Cache_deleteMany evt) ;;
    await_delete E (Event_delete evt) ;;
    cleanup_each E rest
  end.

(** [run] *)
Definition run (E : Engine) (daysBefore : Calendar) : Async unit :=
  e <- gets env ;;
  let retention := Js.nullish (DATA_RETENTION_DAYS e) 30 in
  t <- gets now ;;
  let cutoff := daysBefore t retention in
  expiredEvents <- Prisma.event_findMany_endedBefore cutoff ;;
  cleanup_each E expiredEvents ;;
  modify (print ("Cleaned " ++ Js.decimal (Z.of_nat (List.length expiredEvents))
                 ++ " expired events")).

(** ** Operator sessions ([index.ts]) *)

(** [adminTokens]: the map from session tokens to operator ids, as the
    list of its entries, the latest [set] first. *)
Definition AdminTokens : Type := list (string * string).

(** [adminTokens.get(token)] *)
Fixpoint tokens_get (tokens : AdminTokens) (tok : string) : option string :=
  match tokens with
  | [] => None
  | (k, v) :: rest => if (k =? tok)%string then Some v else tokens_get rest tok
  end.

(** [adminTokens.set(token, id)] *)
Definition tokens_set (tokens : AdminTokens) (tok id : string) : AdminTokens :=
  (tok, id) :: tokens.

(** What [authMiddleware] does with a request: it answers it, or it puts
    the operator on it and calls [next]. *)
Inductive AuthResult : Type :=
| Rejected (r : Response)
| Authenticated (adminId : string).

(** [authMiddleware], on the request's [authorization] header. *)
Definition authMiddleware (adminTokens : AdminTokens) (authHeader : option string)
  : AuthResult :=
  if negb (Js.truthy authHeader) then
    Rejected {| code := 401; payload := JMessage "Unauthorized" |}
  else
    let tok := replace (Js.nullish authHeader "") "Bearer " "" in
    let adminId := tokens_get adminTokens tok in
    if negb (Js.truthy adminId) then
      Rejected {| code := 401; payload := JMessage "Invalid token" |}
    else Authenticated (Js.nullish adminId "").

(** A route registered as [app.verb(path, authMiddleware, handler)]. *)
Definition behindAuth (adminTokens : AdminTokens) (authHeader : option string)
    (handler : string -> Async Response) : Async Response :=
  match authMiddleware adminTokens authHeader with
  | Rejected r => ret r
  | Authenticated adminId => handler adminId
  end.

(** The invitation routes as they are mounted. *)
Definition adminPostInvitation (adminTokens : AdminTokens) (authHeader : option string)
    (id : string) (body : InvitationPayload) : Async Response :=
  behindAuth adminTokens authHeader (fun adminId => postInvitation id body (Some adminId)).

Definition adminPutInvitation (adminTokens : AdminTokens) (authHeader : option string)
    (eventId invitationId : string) (isActive_ : option bool) : Async Response :=
  behindAuth adminTokens authHeader (fun _ => putInvitation eventId invitationId isActive_).

Definition adminGetEmailLogs (adminTokens : AdminTokens) (authHeader : option string)
    (id : string) (status_ : option string) : Async Response :=
  behindAuth adminTokens authHeader (fun _ => getEmailLogs id status_).

Definition adminDeleteEvent (adminTokens : AdminTokens) (authHeader : option string)
    (id : string) : Async Response :=
  behindAuth adminTokens authHeader (fun _ => deleteEvent id).

(** ** The public event list ([index.ts]) *)

(** Insertion into a list kept by ascending start; among events with equal
    starts the order is the store's. *)
Fixpoint insert_asc (x : Event) (l : list Event) : list Event :=
  match l with
  | [] => [x]
  | y :: rest =>
    if startsAt x <=? startsAt y then x :: y :: rest
    else y :: insert_asc x rest
  end.

(** [orderBy: { startsAt: 'asc' }] *)
Definition order_asc (l : list Event) : list Event := fold_right insert_asc [] l.

(** [where: { archived: false, startsAt: { lte: now }, endsAt: { gte: now } }] *)
Definition runsAt (t : Z) (e : Event) : bool :=
  negb (archived e) && (startsAt e <=? t) && (t <=? endsAt e).

Record PublicEvents : Type := { pe_code : Z; pe_events : list EventView }.

(** [GET /api/public/events] *)
Definition getPublicEvents : Async PublicEvents :=
  t <- gets now ;;
  events_ <- gets (fun w => order_asc (filter (runsAt t) (events (db w)))) ;;
  ret {| pe_code := 200; pe_events := map mapEventResponse events_ |}.

(** ** System settings ([index.ts])

    The settings row is modelled by its e-mail columns; the other columns
    (legal links, radii, retention) are assigned independently of these and
    are left out, in the row, in the request body and in the defaults. *)

(** The variables of [process.env] that the default settings read for the
    transport.  [SMTP_PORT] is the number read from a non-empty value. *)
Record MailEnv : Type := {
  SMTP_HOST : option string;
  SMTP_PORT : option Z;
  SMTP_USER : option string;
  SMTP_PASSWORD : option string;
  SMTP_USE_TLS : option string;
  SMTP_FROM_ADDRESS : option string;
  SMTP_FROM_NAME : option string
}.

(** [a || null] *)
Definition or_null (a : option string) : option string :=
  if Js.truthy a then a else None.

(** [getDefaultSystemSettings] *)
Definition getDefaultSystemSettings (m : MailEnv) (e : Env) : SystemSetting :=
  {| maxEmailsPerHourPerAdmin := Some (Js.nullish (MAX_EMAILS_PER_HOUR_PER_ADMIN e) 50);
     maxEmailsPerDayPerAdmin := Some (Js.nullish (MAX_EMAILS_PER_DAY_PER_ADMIN e) 200);
     smtpHost := or_null (SMTP_HOST m);
     smtpPort := SMTP_PORT m;
     smtpUser := or_null (SMTP_USER m);
     smtpPassword := or_null (SMTP_PASSWORD m);
     smtpUseTls := Some (match SMTP_USE_TLS m with
                         | Some s => (s =? "true")%string
                         | None => false
                         end);
     smtpFromAddress := or_null (SMTP_FROM_ADDRESS m);
     smtpFromName := or_null (SMTP_FROM_NAME m) |}.

Definition set_systemSetting (s : option SystemSetting) (st : Store) : Store :=
  {| systemSetting := s; events := events st; invitations := invitations st;
     emailLogs := emailLogs st; caches := caches st; cacheFinds := cacheFinds st;
     players := players st |}.

(** [prisma.systemSetting.create({ data: { id: 1, ...defaults } })]: throws
    when the row is there already. *)
Definition systemSetting_create (d : SystemSetting) : Async unit :=
  fun w =>
    match systemSetting (db w) with
    | None => (Ok tt, set_db w (set_systemSetting (Some d) (db w)))
    | Some _ => (Throw (Js.JsError "Unique constraint failed on the fields: (`id`)"), w)
    end.

(** [ensureSystemSettings] *)
Definition ensureSystemSettings (m : MailEnv) : Async unit :=
  e <- gets env ;;
  let defaults := getDefaultSystemSettings m e in
  existing <- Prisma.systemSetting_findUnique ;;
  if negb (match existing with Some _ => true | None => false end)
  then systemSetting_create defaults
  else ret tt.

(** [SystemSettingsInput], for a body of that type: a field is absent
    ([None]), or holds a value of its declared type, which for the
    nullable ones may be [null]. *)
Record SystemSettingsInput : Type := {
  in_maxEmailsPerHourPerAdmin : option Z;
  in_maxEmailsPerDayPerAdmin : option Z;
  in_smtpHost : option (option string);
  in_smtpPort : option (option Z);
  in_smtpUser : option (option string);
  in_smtpPassword : option (option string);
  in_smtpUseTls : option bool;
  in_smtpFromAddress : option (option string);
  in_smtpFromName : option (option string)
}.

(** The [data] object that the route builds from the body. *)
Definition settings_data (p : SystemSettingsInput) : SystemSettingsInput :=
  let positive (x : option Z) :=
    match x with
    | Some n => if 0 <? n then Some n else None
    | None => None
    end in
  let text (x : option (option string)) :=
    match x with
    | Some v => Some (or_null v)
    | None => None
    end in
  {| in_maxEmailsPerHourPerAdmin := positive (in_maxEmailsPerHourPerAdmin p);
     in_maxEmailsPerDayPerAdmin := positive (in_maxEmailsPerDayPerAdmin p);
     in_smtpHost := text (in_smtpHost p);
     in_smtpPort := in_smtpPort p;
     in_smtpUser := text (in_smtpUser p);
     in_smtpPassword := text (in_smtpPassword p);
     in_smtpUseTls := in_smtpUseTls p;
     in_smtpFromAddress := text (in_smtpFromAddress p);
     in_smtpFromName := text (in_smtpFromName p) |}.

(** Truthiness of a field of [data]. *)
Definition given (x : option (option string)) : bool :=
  match x with Some v => Js.truthy v | None => false end.

Definition givenNum (x : option (option Z)) : bool :=
  match x with Some v => Js.truthyNum v | None => false end.

(** [prisma.systemSetting.update({ where: { id: 1 }, data })]: the columns
    named in [data] are set, the others stay; throws when there is no
    row. *)
Definition apply_settings (d : SystemSettingsInput) (s : SystemSetting) : SystemSetting :=
  let set {A} (x : option A) (old : A) : A :=
    match x with Some v => v | None => old end in
  {| maxEmailsPerHourPerAdmin :=
       match in_maxEmailsPerHourPerAdmin d with
       | Some n => Some n
       | None => maxEmailsPerHourPerAdmin s
       end;
     maxEmailsPerDayPerAdmin :=
       match in_maxEmailsPerDayPerAdmin d with
       | Some n => Some n
       | None => maxEmailsPerDayPerAdmin s
       end;
     smtpHost := set (in_smtpHost d) (smtpHost s);
     smtpPort := set (in_smtpPort d) (smtpPort s);
     smtpUser := set (in_smtpUser d) (smtpUser s);
     smtpPassword := set (in_smtpPassword d) (smtpPassword s);
     smtpUseTls :=
       match in_smtpUseTls d with
       | Some b => Some b
       | None => smtpUseTls s
       end;
     smtpFromAddress := set (in_smtpFromAddress d) (smtpFromAddress s);
     smtpFromName := set (in_smtpFromName d) (smtpFromName s) |}.

Definition systemSetting_update (d : SystemSettingsInput) : Async SystemSetting :=
  fun w =>
    match systemSetting (db w) with
    | Some s =>
      (Ok (apply_settings d s),
       set_db w (set_systemSetting (Some (apply_settings d s)) (db w)))
    | None => (Throw (Js.JsError "Record to update not found."), w)
    end.

Inductive SettingsBody : Type :=
| SMessage (message : string)
| SSettings (settings : option SystemSetting) (emailSendingEnabled : bool).

Record SettingsResponse : Type := { s_code : Z; s_payload : SettingsBody }.

Definition answer (c : Z) (b : SettingsBody) : Async SettingsResponse :=
  ret {| s_code := c; s_payload := b |}.

(** [GET /api/admin/settings] *)
Definition getSettings (m : MailEnv) : Async SettingsResponse :=
  ensureSystemSettings m ;;
  settings <- Prisma.systemSetting_findUnique ;;
  answer 200 (SSettings settings (isEmailSendingEnabled settings)).

(** [PUT /api/admin/settings]; [settings] is [None] when the body has no
    object under that name. *)
Definition putSettings (m : MailEnv) (settings : option SystemSettingsInput)
  : Async SettingsResponse :=
  match settings with
  | None => answer 400 (SMessage "Missing settings payload")
  | Some p =>
    ensureSystemSettings m ;;
    let data := settings_data p in
    let smtpProvided :=
      given (in_smtpHost data) || givenNum (in_smtpPort data)
      || given (in_smtpUser data) || given (in_smtpPassword data)
      || given (in_smtpFromAddress data) in
    if smtpProvided && negb (given (in_smtpHost data)) then
      answer 400 (SMessage "SMTP-Host erforderlich")
    else if smtpProvided && negb (givenNum (in_smtpPort data)) then
      answer 400 (SMessage "SMTP-Port erforderlich")
    else if smtpProvided && negb (given (in_smtpFromAddress data)) then
      answer 400 (SMessage "SMTP Absenderadresse erforderlich")
    else if smtpProvided && negb (given (in_smtpUser data)) then
      answer 400 (SMessage "SMTP-Benutzer erforderlich")
    else if smtpProvided && negb (given (in_smtpPassword data)) then
      answer 400 (SMessage "SMTP-Passwort erforderlich")
    else
      updated <- systemSetting_update data ;;
      answer 200 (SSettings (Some updated) (isEmailSendingEnabled (Some updated)))
  end.

(** ** Player registration ([index.ts])

    Players are modelled by their keys, id and event; the columns the
    route also writes (nickname, time of last activity) belong to no key
    and are left out. *)

Record PlayerRequest : Type := {
  rq_playerId : option string;
  rq_nickname : option string
}.

Inductive PublicBody : Type :=
| PMessage (message : string)
| PPlayer (playerId : string).

Record PublicResponse : Type := { p_code : Z; p_body : PublicBody }.

Definition reply (c : Z) (b : PublicBody) : Async PublicResponse :=
  ret {| p_code := c; p_body := b |}.

(** [playerId || `player-${crypto.randomBytes(n).toString('hex')}`]: random
    bytes are drawn only when the request names no player. *)
Definition playerIdentifier (playerId : option string) : Async string :=
  if Js.truthy playerId then ret (Js.nullish playerId "")
  else
    hex <- gets (fun w => randomHex w (created w)) ;;
    modify bump ;;
    ret ("player-" ++ hex).

(** [prisma.player.findUnique({ where: { id } })] *)
Definition player_findUnique (id : string) : Async (option Player) :=
  gets (fun w => find (fun p => (player_id p =? id)%string) (players (db w))).

Definition set_players (l : list Player) (s : Store) : Store :=
  {| systemSetting := systemSetting s; events := events s;
     invitations := invitations s; emailLogs := emailLogs s;
     caches := caches s; cacheFinds := cacheFinds s; players := l |}.

(** [prisma.player.upsert({ where: { id }, update: { lastActiveAt,
    nickname }, create: { id, eventId, nickname } })] *)
Definition player_upsert (id eventId : string) : Async Player :=
  fun w =>
    match find (fun p => (player_id p =? id)%string) (players (db w)) with
    | Some p => (Ok p, w)
    | None =>
      let p := {| player_id := id; player_eventId := eventId |} in
      (Ok p, set_db w (set_players (players (db w) ++ [p]) (db w)))
    end.

(** [POST /api/public/events/:id/players] *)
Definition postPlayer (id : string) (req : PlayerRequest) : Async PublicResponse :=
  event <- Prisma.event_findUnique id ;;
  t <- gets now ;;
  if match event with
     | None => true
     | Some e => archived e || (t <? startsAt e) || (endsAt e <? t)
     end
  then reply 400 (PMessage "Event nicht aktiv")
  else
    identifier <- playerIdentifier (rq_playerId req) ;;
    existing <- player_findUnique identifier ;;
    if match existing with
       | Some p => negb (player_eventId p =? id)%string
       | None => false
       end
    then reply 400 (PMessage "Spielerkennung ungültig")
    else
      player <- player_upsert identifier id ;;
      reply 200 (PPlayer (player_id player)).

(** ** Vocabulary of the specification *)

Definition deny (m : string) : RateDecision := {| allowed := false; message := Some m |}.
Definition allow : RateDecision := {| allowed := true; message := None |}.

Definition HOUR : Z := 60 * 60 * 1000.
Definition DAY : Z := 24 * 60 * 60 * 1000.

(** The count the ledger derives for a window that opened at [since]. *)
Definition countNonRateLimited (admin : string) (since : Z) (w : World) : Z :=
  Prisma.emailLog_count_in admin since (emailLogs (db w)).

(** A store with its audit table replaced. *)
Definition with_logs (s : Store) (l : list EmailLog) : Store :=
  {| systemSetting := systemSetting s; events := events s;
     invitations := invitations s; emailLogs := l;
     caches := caches s; cacheFinds := cacheFinds s; players := players s |}.

(** The world at a later (or any other) wall-clock time. *)
Definition set_now (t : Z) (w : World) : World :=
  {| db := db w; now := t; env := env w; smtpFault := smtpFault w;
     emailLogFault := emailLogFault w; randomHex := randomHex w;
     cuid := cuid w; created := created w; console := console w;
     journal := journal w |}.

(** One SetInvitationActive request: the route parameters, the body's
    [isActive] and the time at which it is served. *)
Record ToggleRequest : Type := {
  r_eventId : string;
  r_invitationId : string;
  r_isActive : option bool;
  r_at : Z
}.

(** Serving a sequence of such requests one after the other. *)
Fixpoint serve_toggles (reqs : list ToggleRequest) (w : World) : World :=
  match reqs with
  | [] => w
  | r :: rest =>
    serve_toggles rest
      (snd (putInvitation (r_eventId r) (r_invitationId r) (r_isActive r)
              (set_now (r_at r) w)))
  end.

(** [deactivatedAt] is set if and only if [isActive] is false. *)
Definition stamp_consistent (i : Invitation) : Prop :=
  deactivatedAt i <> None <-> isActive i = false.

(** The invitation row with a given id. *)
Definition invitation_by_id (id : string) (w : World) : option Invitation :=
  find (fun i => (inv_id i =? id)%string) (invitations (db w)).

(** Requests that set the flag of one invitation to the given values at
    the given times. *)
Definition toggles (eventId id : string) (flags : list (bool * Z)) : list ToggleRequest :=
  map (fun f => {| r_eventId := eventId; r_invitationId := id;
                   r_isActive := Some (fst f); r_at := snd f |}) flags.

(** The first invitation row carrying a token. *)
Definition invitation_by_token (tok : string) (w : World) : option Invitation :=
  find (fun i => (token i =? tok)%string) (invitations (db w)).

(** The wording of the join route for an invitation that was switched
    off. *)
Definition NEUTRAL : string := "Diese Einladung ist nicht mehr gültig.".

(** A list of audit records that runs from the newest to the oldest. *)
Definition newest_first (l : list EmailLog) : Prop :=
  StronglySorted (fun a b => createdAt b <= createdAt a) l.

(** The member names of the status enumeration. *)
Definition statusName (st : PrismaEmailStatus) : string :=
  match st with
  | SENT => "SENT"
  | FAILED => "FAILED"
  | DISABLED => "DISABLED"
  | RATE_LIMITED => "RATE_LIMITED"
  end.

(** The world with further client calls on its journal. *)
Definition log_ops (ops : list Op) (w : World) : World :=
  {| db := db w; now := now w; env := env w; smtpFault := smtpFault w;
     emailLogFault := emailLogFault w; randomHex := randomHex w;
     cuid := cuid w; created := created w; console := console w;
     journal := journal w ++ ops |}.

(** The world with the audit table made to fail, or to work. *)
Definition set_emailLogFault (f : option Js.Thrown) (w : World) : World :=
  {| db := db w; now := now w; env := env w; smtpFault := smtpFault w;
     emailLogFault := f; randomHex := randomHex w;
     cuid := cuid w; created := created w; console := console w;
     journal := journal w |}.

(** The audit writes that a journal shows, with the outcome of each. *)
Fixpoint audit_writes (j : list Op) : list PrismaEmailStatus :=
  match j with
  | [] => []
  | OpEmailLogCreate st :: rest => st :: audit_writes rest
  | _ :: rest => audit_writes rest
  end.

(** The quota queries that a journal shows. *)
Fixpoint quota_queries (j : list Op) : list (string * Z) :=
  match j with
  | [] => []
  | OpEmailLogCount a t :: rest => (a, t) :: quota_queries rest
  | _ :: rest => quota_queries rest
  end.

(** The part of a journal that follows the creation of an invitation. *)
Fixpoint after_issue (j : list Op) : list Op :=
  match j with
  | [] => []
  | OpInvitationCreate _ :: rest => rest
  | _ :: rest => after_issue rest
  end.

(** The audit outcome that goes with the result of a dispatch. *)
Definition outcome_of (st : EmailStatus) : PrismaEmailStatus :=
  match st with
  | St_disabled => DISABLED
  | St_sent => SENT
  | St_error _ => FAILED
  | St_rate_limited _ => RATE_LIMITED
  end.

(** The row that [logEmail] asks the store to add. *)
Definition audit_row (p : LogParams) (w : World) : EmailLog :=
  {| log_id := cuid w (created w);
     log_eventId := p_eventId p;
     log_invitationId := p_invitationId p;
     log_adminId := p_adminId p;
     recipient := p_recipient p;
     subject := p_subject p;
     status := p_status p;
     errorMessage := p_errorMessage p;
     createdAt := now w |}.

Definition SWALLOWED : string := "E-Mail-Log konnte nicht geschrieben werden".

(** What a run from [w] to [w'] leaves behind when it made the one audit
    write [p]: one write on the journal; the row in the table when the
    table can be written, and otherwise no row and a line on the console;
    invitations and events as before. *)
Definition one_audit_write (p : LogParams) (w w' : World) : Prop :=
  audit_writes (journal w') = (audit_writes (journal w) ++ [p_status p])%list
  /\ invitations (db w') = invitations (db w)
  /\ events (db w') = events (db w)
  /\ systemSetting (db w') = systemSetting (db w)
  /\ match emailLogFault w with
     | None => emailLogs (db w') = (emailLogs (db w) ++ [audit_row p w])%list
     | Some _ => emailLogs (db w') = emailLogs (db w) /\ In SWALLOWED (console w')
     end.

(** The test of the quota check, on the store as it is. *)
Definition quota_denies (admin : string) (settings : option SystemSetting) (w : World) : bool :=
  let limits := getRateLimitConfig (env w) settings in
  ((0 <? perHour limits) && (perHour limits <=? countNonRateLimited admin (now w - HOUR) w))
  || ((0 <? perDay limits) && (perDay limits <=? countNonRateLimited admin (now w - DAY) w)).

(** The sender finds no usable transport. *)
Definition transport_unusable (ev : Event) (settings : option SystemSetting) : bool :=
  negb (isEmailSendingEnabled settings)
  || negb (Js.truthy
             (Js.or_else (senderEmail ev)
                (match settings with Some s => smtpFromAddress s | None => None end))).

(** The pieces of a dispatch, named: the rendered subject, the message
    handed to the transport, the parameters of its audit write and the
    short reason kept for a failed send. *)
Definition dispatch_context (o : InvitationEmailOptions) : TemplateContext :=
  {| eventName := Some (name (o_event o));
     eventDescription := description (o_event o);
     eventStart := Some (JsDate.toISOString (startsAt (o_event o)));
     eventEnd := Some (JsDate.toISOString (endsAt (o_event o)));
     inviteLink := Some (o_link o) |}.

Definition dispatch_subject (o : InvitationEmailOptions) : string :=
  renderTemplate (Js.or_default (invitationEmailSubject (o_event o)) DEFAULT_SUBJECT)
                 (dispatch_context o).

Definition dispatch_body (o : InvitationEmailOptions) : string :=
  renderTemplate
    (ensureInviteLinkPlaceholder
       (Js.or_default (invitationEmailBody (o_event o)) DEFAULT_BODY))
    (dispatch_context o).

Definition dispatch_mail (o : InvitationEmailOptions) (settings : option SystemSetting) : Mail :=
  let fromAddress :=
    Js.or_else (senderEmail (o_event o))
               (match settings with Some s => smtpFromAddress s | None => None end) in
  let fromName :=
    Js.or_else (Js.or_else (senderName (o_event o))
                  (match settings with Some s => smtpFromName s | None => None end))
               None in
  {| mail_from :=
       (if Js.truthy fromName
        then Some (Js.nullish fromName "" ++ " <" ++ Js.nullish fromAddress "" ++ ">")
        else fromAddress);
     mail_to := o_to o;
     mail_subject := dispatch_subject o;
     mail_text := dispatch_body o |}.

Definition audit_params (o : InvitationEmailOptions) (st : PrismaEmailStatus)
    (err : option string) : LogParams :=
  {| p_recipient := o_to o; p_subject := dispatch_subject o; p_status := st;
     p_errorMessage := err; p_eventId := Some (event_id (o_event o));
     p_invitationId := o_invitationId o; p_adminId := o_adminId o |}.

Definition failure_message (e : Js.Thrown) : string :=
  match e with
  | Js.JsError m => m
  | Js.NotAnError => "E-Mail-Versand nicht möglich"
  end.

(** The transport send and the audit write that follows it. *)
Definition delivered (o : InvitationEmailOptions) (settings : option SystemSetting)
    (w : World) : Result EmailStatus * World :=
  let wm := log_op (OpSendMail (dispatch_mail o settings)) w in
  match smtpFault w with
  | None => (Ok St_sent, snd (logEmail (audit_params o SENT None) wm))
  | Some err =>
    (Ok (St_error (failure_message err)),
     print "E-Mail-Versand fehlgeschlagen"
       (snd (logEmail (audit_params o FAILED (Some (failure_message err))) wm)))
  end.

(** The invitation row that the route issues from a given world, the world
    right after it was stored, the join link, and the options the route
    hands to the sender. *)
Definition issued (id : string) (body : InvitationPayload) (w : World) : Invitation :=
  {| inv_id := cuid w (created w);
     inv_eventId := id;
     token := randomHex w (created w);
     deliveryMethod := pl_deliveryMethod body;
     email := pl_email body;
     isActive := true;
     deactivatedAt := None;
     inv_createdAt := now w;
     usedAt := None |}.

Definition after_issuing (id : string) (body : InvitationPayload) (w : World) : World :=
  bump (set_db (log_op (OpInvitationCreate (inv_id (issued id body w))) w)
               (Prisma.set_invitations (invitations (db w) ++ [issued id body w]) (db w))).

Definition join_link (w : World) : string :=
  Js.or_default (BASE_URL (env w)) "http://localhost:5173" ++ "/join/"
  ++ randomHex w (created w).

Definition route_options (id : string) (body : InvitationPayload)
    (adminId : option string) (ev : Event) (w : World) : InvitationEmailOptions :=
  {| o_to := Js.nullish (pl_email body) "";
     o_link := join_link w;
     o_event := ev;
     o_invitationId := Some (inv_id (issued id body w));
     o_adminId := adminId;
     o_skipRateCheck := Some true |}.

(** The pre-quota gate lets the request through: there is no operator on
    it, or the operator is under both ceilings. *)
Definition gate_open (adminId : option string) (w : World) : bool :=
  match adminId with
  | Some a =>
    if (a =? "")%string then true
    else negb (quota_denies a (systemSetting (db w)) w)
  | None => true
  end.

(** The row that the gate writes for a request it turns away. *)
Definition gate_row (body : InvitationPayload) (adminId : option string)
    (ev : Event) (msg : string) (w : World) : EmailLog :=
  {| log_id := cuid w (created w);
     log_eventId := Some (event_id ev);
     log_invitationId := None;
     log_adminId := adminId;
     recipient := Js.nullish (pl_email body) "";
     subject := Js.or_default (invitationEmailSubject ev) ("Einladung: " ++ name ev);
     status := RATE_LIMITED;
     errorMessage := Some msg;
     createdAt := now w |}.

(** The number of positions of [s] at which [needle] occurs. *)
Fixpoint occurrences (needle s : string) : nat :=
  ((if String.prefix needle s then 1 else 0)
   + match s with
     | EmptyString => 0
     | String _ s' => occurrences needle s'
     end)%nat.

(** [s] holds the character [c]. *)
Fixpoint has_char (c : ascii) (s : string) : bool :=
  match s with
  | EmptyString => false
  | String a s' => Ascii.eqb a c || has_char c s'
  end.

(** A replacement text that [replace] takes literally. *)
Definition no_dollar (s : string) : Prop := has_char "$" s = false.

(** A text without line feed. *)
Definition single_line (s : string) : Prop := has_char (ascii_of_nat 10) s = false.

(** What the invitation routes and the sender leave alone: the clock, the
    environment, the behaviour of the outside world, and every table but
    those of invitations and audit records. *)
Definition same_surroundings (w w' : World) : Prop :=
  now w' = now w /\ env w' = env w
  /\ smtpFault w' = smtpFault w /\ emailLogFault w' = emailLogFault w
  /\ randomHex w' = randomHex w /\ cuid w' = cuid w
  /\ systemSetting (db w') = systemSetting (db w)
  /\ events (db w') = events (db w)
  /\ caches (db w') = caches (db w)
  /\ cacheFinds (db w') = cacheFinds (db w)
  /\ players (db w') = players (db w).

Definition keeps_surroundings {A : Type} (m : Async A) : Prop :=
  forall w, same_surroundings w (snd (m w)).

(** The messages handed to the transport that a journal shows. *)
Fixpoint mails (j : list Op) : list Mail :=
  match j with
  | [] => []
  | OpSendMail m :: rest => m :: mails rest
  | _ :: rest => mails rest
  end.

(** An audit record that a quota check for operator [a] at time [t] has no
    use for: it is another operator's, or more than 24 hours old. *)
Definition out_of_scope (a : string) (t : Z) (l : EmailLog) : Prop :=
  log_adminId l <> Some a \/ createdAt l < t - DAY.

(** One step of the server while requests for the same invitation are on
    their way: at time [t] a request arrives and is served up to the
    gate's decision, or the request that has waited longest past the gate
    goes on. *)
Inductive Turn : Type :=
| Arrive (t : Z)
| Resume (t : Z).

(** The server taking the turns in order; [waiting] holds the events of
    the requests that are past the gate.  The answers come in the order
    in which they are given.  A turn [Resume] with nobody waiting does
    nothing. *)
Fixpoint serve (id : string) (body : InvitationPayload) (adminId : option string)
    (turns : list Turn) (waiting : list Event) (w : World)
  : list (Result Response) * World :=
  match turns with
  | [] => ([], w)
  | Arrive t :: rest =>
    match gate id body adminId (set_now t w) with
    | (Ok (inr event), w1) => serve id body adminId rest (waiting ++ [event]) w1
    | (Ok (inl answer), w1) =>
      let r := serve id body adminId rest waiting w1 in (Ok answer :: fst r, snd r)
    | (Throw e, w1) =>
      let r := serve id body adminId rest waiting w1 in (Throw e :: fst r, snd r)
    end
  | Resume t :: rest =>
    match waiting with
    | [] => serve id body adminId rest [] w
    | event :: waiting' =>
      let r1 := issueAndSend id body adminId event (set_now t w) in
      let r := serve id body adminId rest waiting' (snd r1) in
      (fst r1 :: fst r, snd r)
    end
  end.

(** Requests served in turn: each, arriving at its time, is answered
    before the next arrives. *)
Definition in_turn (ts : list Z) : list Turn :=
  flat_map (fun t => [Arrive t; Resume t]) ts.

(** Requests that overlap: all of them arrive, at the times [ts], before
    the first of them goes on; they go on at the times [ts']. *)
Definition overlapping (ts ts' : list Z) : list Turn :=
  (map Arrive ts ++ map Resume ts')%list.

(** An answer with the given status code. *)
Definition answered (c : Z) (r : Result Response) : Prop :=
  exists resp, r = Ok resp /\ code resp = c.

(** The status code of a dispatch that passed the gate, by the state of
    the transport. *)
Definition accepted_code (w : World) : Z :=
  match smtpFault w with None => 201 | Some _ => 500 end.

(** A world in which an e-mail invitation to the event [ev], stored under
    [id], is dispatched and audited: a transport is configured and the
    audit table can be written. *)
Definition dispatch_ready (id : string) (ev : Event) (w : World) : Prop :=
  Prisma.event_lookup id (db w) = Some ev
  /\ isEmailSendingEnabled (systemSetting (db w)) = true
  /\ emailLogFault w = None.

(** From [w], the server has dispatched [n] requests of operator [a] and
    ended with the answers and world [r]: each request is answered 201,
    or 500 when the transport fails; the operator's count for every
    window that opens at [t0] or earlier has grown by [n]; [n] more
    invitations are stored. *)
Definition all_dispatched (a : string) (t0 : Z) (n : nat) (w : World)
    (r : list (Result Response) * World) : Prop :=
  Forall (answered (accepted_code w)) (fst r)
  /\ List.length (fst r) = n
  /\ (forall since, since <= t0 ->
      countNonRateLimited a since (snd r)
      = countNonRateLimited a since w + Z.of_nat n)
  /\ List.length (invitations (db (snd r)))
     = (List.length (invitations (db w)) + n)%nat.

(** The columns of an invitation that the toggle leaves alone. *)
Definition frozen (i : Invitation)
  : string * string * string * DeliveryMethod * option string * Z * option Z :=
  (inv_id i, inv_eventId i, token i, deliveryMethod i, email i,
   inv_createdAt i, usedAt i).

(** An invitation row with its flag set at time [t]. *)
Definition with_flag (active : bool) (t : Z) (i : Invitation) : Invitation :=
  {| inv_id := inv_id i; inv_eventId := inv_eventId i; token := token i;
     deliveryMethod := deliveryMethod i; email := email i;
     isActive := active; deactivatedAt := (if active then None else Some t);
     inv_createdAt := inv_createdAt i; usedAt := usedAt i |}.

(** A row before and after toggle requests on the invitations [ids]. *)
Definition toggled_at_most (ids : list string) (i i' : Invitation) : Prop :=
  frozen i' = frozen i /\ (~ In (inv_id i) ids -> i' = i).

(** The retention period that [run] works with, its cutoff on a host
    with a given calendar, and the events it finds expired. *)
Definition retention_days (w : World) : Z :=
  Js.nullish (DATA_RETENTION_DAYS (env w)) 30.

Definition cutoff (daysBefore : Calendar) (w : World) : Z :=
  daysBefore (now w) (retention_days w).

Definition expired_ids (daysBefore : Calendar) (w : World) : list string :=
  map event_id (filter (fun e => endsAt e <? cutoff daysBefore w) (events (db w))).

(** The calls that the loop of [run] makes for one event, in their
    order. *)
Definition cleanup_calls (evt : string) : list DeleteCall :=
  [CacheFind_deleteMany evt; Invitation_deleteMany evt;
   Cache_deleteMany evt; Event_delete evt].

(** Calls made one after the other, each committed when it returns: the
    first that the database rejects ends the sequence, and nothing that
    was done before it is undone. *)
Fixpoint commit_each (E : Engine) (calls : list DeleteCall) (s : Store)
  : Result unit * Store :=
  match calls with
  | [] => (Ok tt, s)
  | c :: rest =>
    match E c s with
    | (Ok _, s') => commit_each E rest s'
    | (Throw e, s') => (Throw e, s')
    end
  end.

(** A call that asks for audit records or players to be deleted. *)
Definition asks_for_audit_or_players (c : DeleteCall) : bool :=
  match c with
  | EmailLog_deleteMany _ | Player_deleteMany _ => true
  | _ => false
  end.

(** A database in which deleting rows of other tables deletes no event,
    a fulfilled [event.delete] removes the event asked for and no other,
    and a rejected one removes none. *)
Definition deletes_events_on_request (E : Engine) : Prop :=
  (forall c s r s',
     E c s = (r, s') -> (forall id, c <> Event_delete id) -> events s' = events s)
  /\ (forall id s s',
        E (Event_delete id) s = (Ok tt, s') ->
        events s' = filter (fun e => Prisma.strb_neq (event_id e) id) (events s))
  /\ (forall id s e s',
        E (Event_delete id) s = (Throw e, s') -> events s' = events s).

(** Membership of an id in a list of ids. *)
Definition mem (id : string) (ids : list string) : bool :=
  existsb (fun x => (x =? id)%string) ids.

(** A reference that points to one of the rows [ids]. *)
Definition referred (ids : list string) (r : option string) : bool :=
  match r with
  | Some x => mem x ids
  | None => false
  end.

Definition FOREIGN_KEY : Js.Thrown := Js.JsError "Foreign key constraint failed".

(** One database among those that the documented relations admit, used
    as an example: the one with the actions Prisma takes when a schema
    names none.  A reference that may be null (an audit record's to its
    event and to its invitation) is set to null when the row it points to
    is deleted, and a delete of a row that a required reference points to
    (a cache's, an invitation's or a player's to its event, a find's to
    its cache and to its player) is rejected. *)
Definition prisma_defaults : Engine :=
  fun c s =>
    match c with
    | EmailLog_deleteMany evt => Prisma.emailLog_deleteMany evt s
    | CacheFind_deleteMany evt => Prisma.cacheFind_deleteMany evt s
    | Invitation_deleteMany evt =>
      let gone :=
        map inv_id (filter (fun i => (inv_eventId i =? evt)%string) (invitations s)) in
      (Ok tt,
       {| systemSetting := systemSetting s; events := events s;
          invitations :=
            filter (fun i => Prisma.strb_neq (inv_eventId i) evt) (invitations s);
          emailLogs :=
            map (fun l =>
                   {| log_id := log_id l; log_eventId := log_eventId l;
                      log_invitationId :=
                        (if referred gone (log_invitationId l) then None
                         else log_invitationId l);
                      log_adminId := log_adminId l; recipient := recipient l;
                      subject := subject l; status := status l;
                      errorMessage := errorMessage l; createdAt := createdAt l |})
                (emailLogs s);
          caches := caches s; cacheFinds := cacheFinds s; players := players s |})
    | Cache_deleteMany evt =>
      let gone :=
        map cache_id (filter (fun c => (cache_eventId c =? evt)%string) (caches s)) in
      if existsb (fun f => mem (find_cacheId f) gone) (cacheFinds s)
      then (Throw FOREIGN_KEY, s)
      else Prisma.cache_deleteMany evt s
    | Player_deleteMany evt =>
      let gone :=
        map player_id (filter (fun p => (player_eventId p =? evt)%string) (players s)) in
      if existsb (fun f => mem (find_playerId f) gone) (cacheFinds s)
      then (Throw FOREIGN_KEY, s)
      else Prisma.player_deleteMany evt s
    | Event_delete id =>
      if negb (existsb (fun e => (event_id e =? id)%string) (events s))
      then (Throw (Js.JsError "Record to delete does not exist."), s)
      else if existsb (fun c => (cache_eventId c =? id)%string) (caches s)
              || existsb (fun i => (inv_eventId i =? id)%string) (invitations s)
              || existsb (fun p => (player_eventId p =? id)%string) (players s)
      then (Throw FOREIGN_KEY, s)
      else
        (Ok tt,
         {| systemSetting := systemSetting s;
            events := filter (fun e => Prisma.strb_neq (event_id e) id) (events s);
            invitations := invitations s;
            emailLogs :=
              map (fun l =>
                     {| log_id := log_id l;
                        log_eventId :=
                          (if referred [id] (log_eventId l) then None
                           else log_eventId l);
                        log_invitationId := log_invitationId l;
                        log_adminId := log_adminId l; recipient := recipient l;
                        subject := subject l; status := status l;
                        errorMessage := errorMessage l; createdAt := createdAt l |})
                  (emailLogs s);
            caches := caches s; cacheFinds := cacheFinds s; players := players s |})
    end.

(** The calendar of a host that keeps UTC. *)
Definition utc : Calendar := fun t n => t - n * 86400000.

(** A text the renderer has nothing to do with: it has no opening brace. *)
Definition brace_free (s : string) : Prop := has_char "{" s = false.

(** A key the placeholder pattern reads in full: no closing brace and no
    line terminator in it. *)
Fixpoint key_chars (k : string) : bool :=
  match k with
  | EmptyString => true
  | String c k' =>
    negb (Ascii.eqb c "}") && negb (is_line_terminator c) && key_chars k'
  end.

(** The names that every object inherits from [Object.prototype]: for
    these [context[key]] finds a member of the prototype instead of
    nothing. *)
Definition Object_prototype_keys : list string :=
  ["constructor"; "__defineGetter__"; "__defineSetter__"; "hasOwnProperty";
   "__lookupGetter__"; "__lookupSetter__"; "isPrototypeOf";
   "propertyIsEnumerable"; "toString"; "valueOf"; "__proto__";
   "toLocaleString"].

(** A text of ASCII characters only. *)
Fixpoint ascii_only (s : string) : bool :=
  match s with
  | EmptyString => true
  | String c s' => (nat_of_ascii c <? 128)%nat && ascii_only s'
  end.

(** A key on which [trim], the pattern's dot and the lookup in the
    context are the ones modelled here: it is read in full by the pattern,
    it is made of ASCII characters (so it has no white space or line
    terminator beyond the ASCII ones), and trimmed it is not a name that
    objects inherit. *)
Definition plain_key (k : string) : bool :=
  key_chars k && ascii_only k && negb (mem (trim k) Object_prototype_keys).

(** The body template of a dispatch, before the placeholder is ensured. *)
Definition body_template (o : InvitationEmailOptions) : string :=
  Js.or_default (invitationEmailBody (o_event o)) DEFAULT_BODY.

(** The text the default body template renders to. *)
Definition default_text (o : InvitationEmailOptions) : string :=
  "Du wurdest zu " ++ name (o_event o) ++ " eingeladen." ++ LF ++ LF
  ++ "Eventstart: " ++ JsDate.toISOString (startsAt (o_event o)) ++ LF
  ++ "Eventende: " ++ JsDate.toISOString (endsAt (o_event o)) ++ LF ++ LF
  ++ "Einladungslink: " ++ o_link o.

(** The ways a request for an invitation can be answered: the status
    code, the audit writes the request made, and whether it stored an
    invitation. *)
Inductive RouteEnd : Z -> list PrismaEmailStatus -> bool -> Prop :=
| End_not_found : RouteEnd 404 [] false
| End_rejected : RouteEnd 400 [] false
| End_limited : RouteEnd 429 [RATE_LIMITED] false
| End_link : RouteEnd 201 [] true
| End_sent : RouteEnd 201 [SENT] true
| End_unsent : RouteEnd 201 [DISABLED] true
| End_failed : RouteEnd 500 [FAILED] true.

(** A list of events that runs from the earliest start to the latest. *)
Definition earliest_first (l : list Event) : Prop :=
  StronglySorted (fun a b => startsAt a <= startsAt b) l.

(** The settings row once [ensureSystemSettings] has run: the stored one,
    or the defaults. *)
Definition ensured (m : MailEnv) (w : World) : SystemSetting :=
  Js.nullish (systemSetting (db w)) (getDefaultSystemSettings m (env w)).

(** The ceilings in force in a world. *)
Definition limits_of (w : World) : RateLimitConfig :=
  getRateLimitConfig (env w) (systemSetting (db w)).

(** The ceiling a body asks for, given the one in force. *)
Definition requested (x : option Z) (old : Z) : Z :=
  match x with
  | Some n => if 0 <? n then n else old
  | None => old
  end.

(** A body names a transport field with a value that counts, and a body
    names all five fields the transport needs. *)
Definition touches_smtp (p : SystemSettingsInput) : bool :=
  given (in_smtpHost p) || givenNum (in_smtpPort p) || given (in_smtpUser p)
  || given (in_smtpPassword p) || given (in_smtpFromAddress p).

Definition complete_smtp (p : SystemSettingsInput) : bool :=
  given (in_smtpHost p) && givenNum (in_smtpPort p) && given (in_smtpFromAddress p)
  && given (in_smtpUser p) && given (in_smtpPassword p).

(** A body names one of the five fields the transport needs. *)
Definition names_smtp (p : SystemSettingsInput) : bool :=
  match in_smtpHost p with Some _ => true | None => false end
  || match in_smtpPort p with Some _ => true | None => false end
  || match in_smtpUser p with Some _ => true | None => false end
  || match in_smtpPassword p with Some _ => true | None => false end
  || match in_smtpFromAddress p with Some _ => true | None => false end.

(** The tables other than the settings row are the same in two worlds. *)
Definition same_tables (w w' : World) : Prop :=
  events (db w') = events (db w) /\ invitations (db w') = invitations (db w)
  /\ emailLogs (db w') = emailLogs (db w) /\ caches (db w') = caches (db w)
  /\ cacheFinds (db w') = cacheFinds (db w) /\ players (db w') = players (db w).

(** The player a request names or is given, and the world after the
    random bytes were drawn. *)
Definition identified (playerId : option string) (w : World) : string * World :=
  if Js.truthy playerId then (Js.nullish playerId "", w)
  else ("player-" ++ randomHex w (created w), bump w).

(** The player with a given id. *)
Definition player_by_id (id : string) (w : World) : option Player :=
  find (fun p => (player_id p =? id)%string) (players (db w)).

(** Registration is open for an event: it exists and runs now. *)
Definition registration_open (id : string) (w : World) : bool :=
  match Prisma.event_lookup id (db w) with
  | Some e => runsAt (now w) e
  | None => false
  end.

(** A player id that is taken by a player of another event. *)
Definition foreign_player (x eventId : string) (w : World) : bool :=
  match player_by_id x w with
  | Some p => negb (player_eventId p =? eventId)%string
  | None => false
  end.

(** The rows a registration adds to the player table. *)
Definition enrolled (x eventId : string) (w : World) : list Player :=
  match player_by_id x w with
  | Some _ => []
  | None => [{| player_id := x; player_eventId := eventId |}]
  end.

(** Two worlds whose stores differ at most in players and finds. *)
Definition only_players_differ (w w' : World) : Prop :=
  systemSetting (db w') = systemSetting (db w)
  /\ events (db w') = events (db w)
  /\ invitations (db w') = invitations (db w)
  /\ emailLogs (db w') = emailLogs (db w)
  /\ caches (db w') = caches (db w).

(** ** Sample data *)

Module Sample.

Definition env0 : Env :=
  {| BASE_URL := None; MAX_EMAILS_PER_HOUR_PER_ADMIN := None;
     MAX_EMAILS_PER_DAY_PER_ADMIN := None; DATA_RETENTION_DAYS := None |}.

(** Settings with a working transport and ceilings of 2 per hour and 10 per
    day. *)
Definition settings_2_10 : SystemSetting :=
  {| maxEmailsPerHourPerAdmin := Some 2;
     maxEmailsPerDayPerAdmin := Some 10;
     smtpHost := Some "mail.example.org";
     smtpPort := Some 587;
     smtpUser := Some "mailer";
     smtpPassword := Some "secret";
     smtpUseTls := Some true;
     smtpFromAddress := Some "noreply@example.org";
     smtpFromName := None |}.

Definition hunt : Event :=
  {| event_id := "ev1"; name := "Hunt"; description := None;
     startsAt := 1700000000000; endsAt := 1700600000000;
     invitationEmailSubject := None; invitationEmailBody := None;
     senderEmail := None; senderName := None; archived := false |}.

Definition log_at (t : Z) (st : PrismaEmailStatus) (admin : string) : EmailLog :=
  {| log_id := "log"; log_eventId := Some "ev1"; log_invitationId := None;
     log_adminId := Some admin; recipient := "bob@example.org";
     subject := "Einladung: Hunt"; status := st; errorMessage := None;
     createdAt := t |}.

Definition store0 : Store :=
  {| systemSetting := Some settings_2_10; events := [hunt]; invitations := [];
     emailLogs := []; caches := []; cacheFinds := []; players := [] |}.

Definition world_of (s : Store) (t : Z) : World :=
  {| db := s; now := t; env := env0; smtpFault := None; emailLogFault := None;
     randomHex := fun n => "a1b2c3" ++ Js.decimal (Z.of_nat n);
     cuid := fun n => "c" ++ Js.decimal (Z.of_nat n);
     created := 0; console := []; journal := [] |}.

(** Noon of the event's first day, with two mails sent by [alice] in the
    last hour. *)
Definition noon : Z := 1700040000000.

Definition two_sent : list EmailLog :=
  [log_at (noon - 1000) SENT "alice"; log_at (noon - 2000) SENT "alice"].

(** [alice] at her hourly ceiling. *)
Definition busy_world : World := world_of (with_logs store0 two_sent) noon.

(** The same, after one more attempt was recorded as rate limited. *)
Definition busy_world_after_denial : World :=
  world_of (with_logs store0 (two_sent ++ [log_at noon RATE_LIMITED "alice"])) noon.

(** The store after a LINK invitation was issued for the event. *)
Definition invited : World :=
  snd (postInvitation "ev1" {| pl_deliveryMethod := LINK; pl_email := None |}
         (Some "alice") (world_of store0 noon)).

Definition the_invitation : Invitation :=
  {| inv_id := "c0"; inv_eventId := "ev1"; token := "a1b2c30";
     deliveryMethod := LINK; email := None; isActive := true;
     deactivatedAt := None; inv_createdAt := noon; usedAt := None |}.

(** The event's invitation, switched off at noon, looked at long after the
    event ended. *)
Definition revoked_and_over : World :=
  set_now (endsAt hunt + 1)
    (snd (putInvitation "ev1" "c0" (Some false) invited)).

(** An audit table with one record of each outcome for the event. *)
Definition mixed_logs : list EmailLog :=
  [log_at 100 SENT "alice"; log_at 300 FAILED "alice";
   log_at 200 RATE_LIMITED "alice"; log_at 400 DISABLED "alice"].

Definition audited : World := world_of (with_logs store0 mixed_logs) noon.

(** An event that ended long ago, with one invitation that was mailed. *)
Definition old_event : Event :=
  {| event_id := "old"; name := "Old hunt"; description := None;
     startsAt := 1000; endsAt := 2000;
     invitationEmailSubject := None; invitationEmailBody := None;
     senderEmail := None; senderName := None; archived := false |}.

Definition old_invitation : Invitation :=
  {| inv_id := "inv-old"; inv_eventId := "old"; token := "feedbeef";
     deliveryMethod := EMAIL; email := Some "bob@example.org"; isActive := true;
     deactivatedAt := None; inv_createdAt := 1500; usedAt := None |}.

Definition old_log : EmailLog :=
  {| log_id := "log-old"; log_eventId := Some "old";
     log_invitationId := Some "inv-old"; log_adminId := Some "alice";
     recipient := "bob@example.org"; subject := "Einladung: Old hunt";
     status := SENT; errorMessage := None; createdAt := 1500 |}.

Definition stale_store : Store :=
  {| systemSetting := Some settings_2_10; events := [old_event];
     invitations := [old_invitation]; emailLogs := [old_log];
     caches := []; cacheFinds := []; players := [] |}.

Definition stale_world : World := world_of stale_store noon.

(** An e-mail invitation for [bob], asked for by [alice]. *)
Definition request : InvitationPayload :=
  {| pl_deliveryMethod := EMAIL; pl_email := Some "bob@example.org" |}.

(** A quiet store at noon; the same with the audit table out of order. *)
Definition quiet_world : World := world_of store0 noon.

Definition audit_down : World :=
  set_emailLogFault (Some (Js.JsError "audit table unavailable")) quiet_world.

(** [alice] at her hourly ceiling, with the audit table out of order. *)
Definition busy_audit_down : World :=
  set_emailLogFault (Some (Js.JsError "audit table unavailable")) busy_world.

(** What the route sends for [request] from a store with no row created
    yet. *)
Definition the_mail : Mail :=
  {| mail_from := Some "noreply@example.org";
     mail_to := "bob@example.org";
     mail_subject := "Einladung: Hunt";
     mail_text :=
       "Du wurdest zu Hunt eingeladen." ++ LF ++ LF
       ++ "Eventstart: 2023-11-14T22:13:20.000Z" ++ LF
       ++ "Eventende: 2023-11-21T20:53:20.000Z" ++ LF ++ LF
       ++ "Einladungslink: http://localhost:5173/join/a1b2c30" |}.

Definition the_email_invitation : Invitation :=
  {| inv_id := "c0"; inv_eventId := "ev1"; token := "a1b2c30";
     deliveryMethod := EMAIL; email := Some "bob@example.org"; isActive := true;
     deactivatedAt := None; inv_createdAt := noon; usedAt := None |}.

(** A link invitation, asked for without operator. *)
Definition link_request : InvitationPayload :=
  {| pl_deliveryMethod := LINK; pl_email := None |}.

(** A store without settings row. *)
Definition unconfigured_world : World :=
  world_of {| systemSetting := None; events := [hunt]; invitations := [];
              emailLogs := []; caches := []; cacheFinds := []; players := [] |}
           noon.

(** [alice]'s session. *)
Definition sessions : AdminTokens := [("tok-alice", "alice")].

Definition bearer_alice : option string := Some "Bearer tok-alice".

(** A player who names an id. *)
Definition player_p1 : PlayerRequest :=
  {| rq_playerId := Some "p1"; rq_nickname := None |}.

(** A host without transport variables. *)
Definition mail_env0 : MailEnv :=
  {| SMTP_HOST := None; SMTP_PORT := None; SMTP_USER := None;
     SMTP_PASSWORD := None; SMTP_USE_TLS := None; SMTP_FROM_ADDRESS := None;
     SMTP_FROM_NAME := None |}.

(** A settings body that names the whole transport, and one that asks for
    an hourly ceiling of zero. *)
Definition smtp_body : SystemSettingsInput :=
  {| in_maxEmailsPerHourPerAdmin := None; in_maxEmailsPerDayPerAdmin := None;
     in_smtpHost := Some (Some "mail.example.org");
     in_smtpPort := Some (Some 587);
     in_smtpUser := Some (Some "mailer");
     in_smtpPassword := Some (Some "secret");
     in_smtpUseTls := Some true;
     in_smtpFromAddress := Some (Some "noreply@example.org");
     in_smtpFromName := None |}.

Definition zero_ceiling_body : SystemSettingsInput :=
  {| in_maxEmailsPerHourPerAdmin := Some 0; in_maxEmailsPerDayPerAdmin := None;
     in_smtpHost := None; in_smtpPort := None; in_smtpUser := None;
     in_smtpPassword := None; in_smtpUseTls := None; in_smtpFromAddress := None;
     in_smtpFromName := None |}.

(** The options the route hands to the sender for [request]. *)
Definition hunt_options : InvitationEmailOptions :=
  route_options "ev1" request (Some "alice") hunt quiet_world.

(** The stale store with one player still enrolled in the old event. *)
Definition played_world : World :=
  world_of {| systemSetting := Some settings_2_10; events := [old_event];
              invitations := [old_invitation]; emailLogs := [old_log];
              caches := []; cacheFinds := [];
              players := [{| player_id := "p-old"; player_eventId := "old" |}] |}
           noon.

(** The quiet store after the settings row has been lost: the event is
    still there, a transport is not configured any more. *)
Definition settings_lost : World :=
  world_of {| systemSetting := None; events := [hunt]; invitations := [];
              emailLogs := []; caches := []; cacheFinds := []; players := [] |}
           noon.

End Sample.

(** * Properties *)

(** ** Strings *)

Lemma list_ascii_app (a b : string) :
  list_ascii_of_string (a ++ b) = (list_ascii_of_string a ++ list_ascii_of_string b)%list.
Proof. induction a as [|c a IH]; simpl; [reflexivity | now rewrite IH]. Qed.

Lemma hourMessage_not_dayMessage (a b : Z) : hourMessage a <> dayMessage b.
Proof.
  unfold hourMessage, dayMessage. intros H.
  apply (f_equal list_ascii_of_string) in H.
  rewrite !list_ascii_app in H.
  apply app_inv_head in H.
  apply (f_equal (@rev ascii)) in H.
  rewrite !rev_app_distr in H.
  simpl in H. discriminate H.
Qed.

(** ** Quota ledger *)

Lemma checkRateLimit_unknown_operator settings w :
  checkRateLimit None settings w = (Ok allow, w)
  /\ checkRateLimit (Some "") settings w = (Ok allow, w).
Proof. split; reflexivity. Qed.

(** What [checkRateLimit] computes for a known operator, as one equation. *)
Lemma checkRateLimit_eq admin settings w :
  admin <> "" ->
  let limits := getRateLimitConfig (env w) settings in
  let w1 := log_op (OpEmailLogCount admin (now w - HOUR)) w in
  let w2 := log_op (OpEmailLogCount admin (now w - DAY)) w1 in
  checkRateLimit (Some admin) settings w =
  if (0 <? perHour limits) && (perHour limits <=? countNonRateLimited admin (now w - HOUR) w)
  then (Ok (deny (hourMessage (perHour limits))), w1)
  else if (0 <? perDay limits) && (perDay limits <=? countNonRateLimited admin (now w - DAY) w)
  then (Ok (deny (dayMessage (perDay limits))), w2)
  else (Ok allow, w2).
Proof.
  intros Hne. cbv zeta.
  unfold checkRateLimit.
  destruct (String.eqb_spec admin "") as [E|_]; [contradiction|].
  unfold bind, gets, countEmails, Prisma.emailLog_count, countNonRateLimited, ret.
  cbn [now env db log_op].
  change (60 * 60 * 1000) with HOUR. change (24 * 60 * 60 * 1000) with DAY.
  destruct ((0 <? perHour _) && _); [reflexivity|].
  destruct ((0 <? perDay _) && _); reflexivity.
Qed.

Lemma window_exceeded_iff (limit count : Z) :
  (0 <? limit) && (limit <=? count) = true <-> 0 < limit /\ limit <= count.
Proof. rewrite andb_true_iff, Z.ltb_lt, Z.leb_le. reflexivity. Qed.

Lemma Ok_deny_inj (a b : string) :
  @Ok RateDecision (deny a) = Ok (deny b) -> a = b.
Proof. intros H. injection H as H'. exact H'. Qed.

(** C1. For a known operator the quota check looks at the hourly window
    first.  It denies with the message naming the hourly ceiling exactly
    when that ceiling is positive and the hour's count of non-rate-limited
    audit records has reached it, and then the daily window is not queried.
    Otherwise both windows are queried, and it denies with the message
    naming the daily ceiling exactly when that ceiling is positive and the
    24-hour count has reached it; otherwise it allows.  With a ceiling of 0
    a window never denies. *)
Theorem C1_checkRateLimit_hour_then_day
    (admin : string) (settings : option SystemSetting) (w : World) :
  admin <> "" ->
  let limits := getRateLimitConfig (env w) settings in
  let hourly :=
    0 < perHour limits
    /\ perHour limits <= countNonRateLimited admin (now w - HOUR) w in
  let daily :=
    0 < perDay limits
    /\ perDay limits <= countNonRateLimited admin (now w - DAY) w in
  let result := fst (checkRateLimit (Some admin) settings w) in
  let after := snd (checkRateLimit (Some admin) settings w) in
  (result = Ok (deny (hourMessage (perHour limits))) <-> hourly)
  /\ (hourly ->
      journal after = (journal w ++ [OpEmailLogCount admin (now w - HOUR)])%list)
  /\ (~ hourly ->
      journal after =
        (journal w ++ [OpEmailLogCount admin (now w - HOUR);
                       OpEmailLogCount admin (now w - DAY)])%list
      /\ (result = Ok (deny (dayMessage (perDay limits))) <-> daily)
      /\ (~ daily -> result = Ok allow))
  /\ (perHour limits = 0 ->
      forall m, result = Ok (deny m) -> m = dayMessage (perDay limits))
  /\ (perDay limits = 0 ->
      forall m, result = Ok (deny m) -> m = hourMessage (perHour limits))
  /\ db after = db w.
Proof.
  intros Hne. cbv zeta.
  rewrite (checkRateLimit_eq admin settings w Hne). cbv zeta.
  set (limits := getRateLimitConfig (env w) settings).
  set (ch := countNonRateLimited admin (now w - HOUR) w).
  set (cd := countNonRateLimited admin (now w - DAY) w).
  pose proof (window_exceeded_iff (perHour limits) ch) as Hh.
  pose proof (window_exceeded_iff (perDay limits) cd) as Hd.
  destruct ((0 <? perHour limits) && (perHour limits <=? ch)) eqn:Eh.
  - assert (hourly : 0 < perHour limits /\ perHour limits <= ch)
      by (apply Hh; reflexivity).
    cbn [fst snd].
    split; [split; [intros _; exact hourly | reflexivity] |].
    split; [intros _; reflexivity |].
    split; [intros nh; contradiction |].
    split; [intros Hz; lia |].
    split; [| reflexivity].
    intros _ m Hm. apply Ok_deny_inj in Hm. symmetry; exact Hm.
  - assert (nhourly : ~ (0 < perHour limits /\ perHour limits <= ch)).
    { intros H. apply Hh in H. discriminate. }
    assert (Hj : journal (log_op (OpEmailLogCount admin (now w - DAY))
                            (log_op (OpEmailLogCount admin (now w - HOUR)) w))
                 = (journal w ++ [OpEmailLogCount admin (now w - HOUR);
                                  OpEmailLogCount admin (now w - DAY)])%list).
    { unfold log_op; cbn [journal]. rewrite <- app_assoc. reflexivity. }
    destruct ((0 <? perDay limits) && (perDay limits <=? cd)) eqn:Ed; cbn [fst snd].
    + assert (daily : 0 < perDay limits /\ perDay limits <= cd)
        by (apply Hd; reflexivity).
      split.
      { split; [| intros H; contradiction].
        intros H. apply Ok_deny_inj in H. symmetry in H.
        exfalso. exact (hourMessage_not_dayMessage _ _ H). }
      split; [intros H; contradiction |].
      split.
      { intros _. split; [exact Hj |].
        split; [split; [intros _; exact daily | reflexivity] |].
        intros nd; contradiction. }
      split.
      { intros _ m Hm. apply Ok_deny_inj in Hm. symmetry; exact Hm. }
      split; [intros Hz; lia | reflexivity].
    + assert (ndaily : ~ (0 < perDay limits /\ perDay limits <= cd)).
      { intros H. apply Hd in H. discriminate. }
      split; [split; [discriminate | intros H; contradiction] |].
      split; [intros H; contradiction |].
      split.
      { intros _. split; [exact Hj |].
        split; [split; [discriminate | intros H; contradiction] |].
        intros _; reflexivity. }
      split; [intros _ m Hm; discriminate Hm |].
      split; [intros _ m Hm; discriminate Hm | reflexivity].
Qed.

Lemma C1_checkRateLimit_hour_then_day_witness :
  "alice" <> ""
  /\ fst (checkRateLimit (Some "alice") (Some Sample.settings_2_10) Sample.busy_world)
     = Ok (deny "Limit erreicht (2 pro Stunde).")
  /\ journal (snd (checkRateLimit (Some "alice") (Some Sample.settings_2_10)
                     Sample.busy_world))
     = [OpEmailLogCount "alice" (Sample.noon - HOUR)].
Proof.
  assert (H : "alice" <> "") by discriminate.
  pose proof (C1_checkRateLimit_hour_then_day
                "alice" (Some Sample.settings_2_10) Sample.busy_world H) as C.
  cbv zeta in C.
  destruct C as [C1 [C2 _]].
  assert (Hh : 0 < 2 /\ 2 <= 2) by (split; [reflexivity | discriminate]).
  split; [exact H |].
  split; [exact (proj2 C1 Hh) | exact (C2 Hh)].
Defined.

Lemma filter_rate_limited_nil admin since (ls : list EmailLog) :
  Forall (fun l => status l = RATE_LIMITED) ls ->
  filter (Prisma.countsTowardsQuota admin since) ls = [].
Proof.
  induction 1 as [|l ls Hl _ IH]; [reflexivity|].
  simpl. unfold Prisma.countsTowardsQuota at 1. rewrite Hl. simpl.
  rewrite andb_false_r. exact IH.
Qed.

Lemma count_ignores_rate_limited admin since (pre ls post : list EmailLog) :
  Forall (fun l => status l = RATE_LIMITED) ls ->
  Prisma.emailLog_count_in admin since (pre ++ ls ++ post)
  = Prisma.emailLog_count_in admin since (pre ++ post).
Proof.
  intros H. unfold Prisma.emailLog_count_in.
  rewrite !filter_app, (filter_rate_limited_nil admin since ls H).
  reflexivity.
Qed.

(** C4. Audit records with outcome RATE_LIMITED are left out of every
    quota count, for every operator and every window; so two stores that
    differ only by such records (however many, wherever they were
    inserted) give the same answer to every quota check made at the same
    time under the same configuration. *)
Theorem C4_rate_limited_never_counted
    (w1 w2 : World) (pre ls post : list EmailLog)
    (admin : option string) (settings : option SystemSetting) :
  now w2 = now w1 ->
  env w2 = env w1 ->
  emailLogs (db w1) = (pre ++ post)%list ->
  emailLogs (db w2) = (pre ++ ls ++ post)%list ->
  Forall (fun l => status l = RATE_LIMITED) ls ->
  (forall a since, countNonRateLimited a since w2 = countNonRateLimited a since w1)
  /\ fst (checkRateLimit admin settings w2) = fst (checkRateLimit admin settings w1).
Proof.
  intros Hnow Henv H1 H2 Hls.
  assert (Hc : forall a since,
             countNonRateLimited a since w2 = countNonRateLimited a since w1).
  { intros a since. unfold countNonRateLimited. rewrite H1, H2.
    apply count_ignores_rate_limited. exact Hls. }
  split; [exact Hc |].
  destruct admin as [a|]; [| reflexivity].
  destruct (String.eqb_spec a "") as [E|Hne]; [subst a; reflexivity |].
  rewrite (checkRateLimit_eq a settings w1 Hne), (checkRateLimit_eq a settings w2 Hne).
  cbv zeta. rewrite Hnow, Henv, !Hc.
  destruct (_ && _); [reflexivity |].
  destruct (_ && _); reflexivity.
Qed.

Lemma C4_rate_limited_never_counted_witness :
  emailLogs (db Sample.busy_world_after_denial)
  = (emailLogs (db Sample.busy_world)
     ++ [Sample.log_at Sample.noon RATE_LIMITED "alice"])%list
  /\ Forall (fun l => status l = RATE_LIMITED)
            [Sample.log_at Sample.noon RATE_LIMITED "alice"]
  /\ fst (checkRateLimit (Some "alice") (Some Sample.settings_2_10)
            Sample.busy_world_after_denial)
     = fst (checkRateLimit (Some "alice") (Some Sample.settings_2_10)
              Sample.busy_world).
Proof.
  assert (H : Forall (fun l => status l = RATE_LIMITED)
                     [Sample.log_at Sample.noon RATE_LIMITED "alice"])
    by (repeat constructor).
  split; [reflexivity|]. split; [exact H|].
  exact (proj2 (C4_rate_limited_never_counted
                  Sample.busy_world Sample.busy_world_after_denial
                  Sample.two_sent [Sample.log_at Sample.noon RATE_LIMITED "alice"] []
                  (Some "alice") (Some Sample.settings_2_10)
                  eq_refl eq_refl eq_refl eq_refl H)).
Defined.

(** ** Token issuer: the active flag *)

Lemma update_invitation_Forall (P : Invitation -> Prop) id f l u l' :
  Prisma.update_invitation id f l = Some (u, l') ->
  (forall i, P (f i)) -> Forall P l -> Forall P l'.
Proof.
  revert u l'. induction l as [|i l IH]; intros u l' H Hf Hl; simpl in H.
  - discriminate.
  - inversion Hl as [|? ? Hi Hl']; subst.
    destruct (inv_id i =? id)%string.
    + injection H as <- <-. constructor; [apply Hf | exact Hl'].
    + destruct (Prisma.update_invitation id f l) as [[u0 l0]|] eqn:E; [|discriminate].
      injection H as <- <-. constructor; [exact Hi | eapply IH; eauto].
Qed.

Lemma putInvitation_consistent eventId id flag w :
  Forall stamp_consistent (invitations (db w)) ->
  Forall stamp_consistent (invitations (db (snd (putInvitation eventId id flag w)))).
Proof.
  intros H. unfold putInvitation.
  destruct flag as [active|]; [| exact H].
  unfold bind, Prisma.invitation_findFirst, gets, Prisma.invitation_update, respond, ret.
  cbn [db now log_op].
  destruct (find _ _) as [i|]; [| exact H].
  cbn [db now log_op].
  destruct (Prisma.update_invitation id _ (invitations (db w))) as [[u l]|] eqn:E;
    cbn [snd db set_db Prisma.set_invitations invitations log_op]; [| exact H].
  eapply update_invitation_Forall; [exact E | | exact H].
  intros i0. unfold stamp_consistent; cbn [isActive deactivatedAt].
  destruct active; split; intros; congruence.
Qed.

Lemma serve_toggles_consistent reqs : forall w,
  Forall stamp_consistent (invitations (db w)) ->
  Forall stamp_consistent (invitations (db (serve_toggles reqs w))).
Proof.
  induction reqs as [|r reqs IH]; intros w H; simpl; [exact H|].
  apply IH. apply putInvitation_consistent. exact H.
Qed.

Lemma update_invitation_found id f l i :
  find (fun x => (inv_id x =? id)%string) l = Some i ->
  inv_id (f i) = inv_id i ->
  exists l', Prisma.update_invitation id f l = Some (f i, l')
             /\ find (fun x => (inv_id x =? id)%string) l' = Some (f i).
Proof.
  intros H Hid. induction l as [|x l IH]; simpl in *; [discriminate|].
  destruct (inv_id x =? id)%string eqn:E.
  - injection H as ->. eexists; split; [reflexivity|].
    simpl. rewrite Hid, E. reflexivity.
  - destruct (IH H) as [l' [E1 E2]]. rewrite E1.
    eexists; split; [reflexivity|]. simpl. rewrite E. exact E2.
Qed.

Lemma findFirst_of_by_id id eventId l i :
  find (fun x => (inv_id x =? id)%string) l = Some i ->
  inv_eventId i = eventId ->
  find (fun x => (inv_id x =? id)%string && (inv_eventId x =? eventId)%string) l = Some i.
Proof.
  intros H He. induction l as [|x l IH]; simpl in *; [discriminate|].
  destruct (inv_id x =? id)%string eqn:E; simpl.
  - injection H as ->. rewrite He, String.eqb_refl. reflexivity.
  - apply IH. exact H.
Qed.

(** One request on an invitation that exists under the given event. *)
Lemma putInvitation_sets eventId id active t w i :
  invitation_by_id id w = Some i ->
  inv_eventId i = eventId ->
  exists i',
    invitation_by_id id (snd (putInvitation eventId id (Some active) (set_now t w)))
    = Some i'
    /\ isActive i' = active
    /\ deactivatedAt i' = (if active then None else Some t)
    /\ inv_eventId i' = eventId
    /\ token i' = token i
    /\ fst (putInvitation eventId id (Some active) (set_now t w))
       = Ok {| code := 200; payload := JUpdated (invitationView i') |}.
Proof.
  intros Hf He. unfold invitation_by_id in *.
  unfold putInvitation, bind, Prisma.invitation_findFirst, gets,
    Prisma.invitation_update, respond, ret.
  cbn [db now log_op set_now].
  rewrite (findFirst_of_by_id id eventId _ i Hf He).
  cbn [db now log_op set_now].
  match goal with
  | |- context [Prisma.update_invitation id ?f _] =>
    destruct (update_invitation_found id f _ i Hf eq_refl) as [l' [E1 E2]]
  end.
  rewrite E1.
  cbn [fst snd db set_db Prisma.set_invitations invitations log_op].
  eexists; split; [exact E2|].
  cbn [isActive deactivatedAt inv_eventId token].
  repeat split; try reflexivity. exact He.
Qed.

Lemma serve_toggles_app a b w :
  serve_toggles (a ++ b) w = serve_toggles b (serve_toggles a w).
Proof. revert w; induction a as [|r a IH]; intros w; simpl; [reflexivity | apply IH]. Qed.

Lemma serve_toggles_keeps eventId id flags : forall w i,
  invitation_by_id id w = Some i ->
  inv_eventId i = eventId ->
  exists i',
    invitation_by_id id (serve_toggles (toggles eventId id flags) w) = Some i'
    /\ inv_eventId i' = eventId /\ token i' = token i.
Proof.
  induction flags as [|[b t] flags IH]; intros w i Hf He; simpl.
  - exists i; auto.
  - destruct (putInvitation_sets eventId id b t w i Hf He)
      as [i1 [H1 [_ [_ [He1 [Ht1 _]]]]]].
    destruct (IH _ i1 H1 He1) as [i2 [H2 [He2 Ht2]]].
    exists i2; repeat split; auto. congruence.
Qed.

(** C9. Across any sequence of SetInvitationActive requests (on any
    invitations, with any bodies, at any times) every invitation keeps
    [deactivatedAt] set if and only if [isActive] is false; and for an
    invitation of the event, however its flag was toggled before,
    deactivating it stamps [deactivatedAt] and reactivating it afterwards
    leaves it active with [deactivatedAt] null, its token unchanged. *)
Theorem C9_setActive_stamp_invariant
    (w : World) (reqs : list ToggleRequest)
    (eventId id : string) (i : Invitation) (flags : list (bool * Z)) (t1 t2 : Z) :
  Forall stamp_consistent (invitations (db w)) ->
  invitation_by_id id w = Some i ->
  inv_eventId i = eventId ->
  Forall stamp_consistent (invitations (db (serve_toggles reqs w)))
  /\ (exists off,
        invitation_by_id id
          (serve_toggles (toggles eventId id (flags ++ [(false, t1)])) w) = Some off
        /\ isActive off = false /\ deactivatedAt off = Some t1)
  /\ (exists on,
        invitation_by_id id
          (serve_toggles (toggles eventId id (flags ++ [(false, t1); (true, t2)])) w)
        = Some on
        /\ isActive on = true /\ deactivatedAt on = None /\ token on = token i).
Proof.
  intros Hall Hf He.
  split; [apply serve_toggles_consistent; exact Hall |].
  destruct (serve_toggles_keeps eventId id flags w i Hf He) as [i0 [H0 [He0 Ht0]]].
  destruct (putInvitation_sets eventId id false t1 _ i0 H0 He0)
    as [i1 [H1 [Ha1 [Hd1 [He1 [Ht1 _]]]]]].
  destruct (putInvitation_sets eventId id true t2 _ i1 H1 He1)
    as [i2 [H2 [Ha2 [Hd2 [He2 [Ht2 _]]]]]].
  split.
  - exists i1. unfold toggles. rewrite map_app, serve_toggles_app.
    fold (toggles eventId id flags). simpl. auto.
  - exists i2. unfold toggles. rewrite map_app, serve_toggles_app.
    fold (toggles eventId id flags). simpl.
    repeat split; auto. congruence.
Qed.

Lemma C9_setActive_stamp_invariant_witness :
  Forall stamp_consistent (invitations (db Sample.invited))
  /\ invitation_by_id "c0" Sample.invited = Some Sample.the_invitation
  /\ exists on,
       invitation_by_id "c0"
         (serve_toggles
            (toggles "ev1" "c0"
               ([(false, 10); (true, 20); (false, 30)] ++ [(false, 40); (true, 50)]))
            Sample.invited) = Some on
       /\ isActive on = true /\ deactivatedAt on = None
       /\ token on = token Sample.the_invitation.
Proof.
  assert (H1 : Forall stamp_consistent (invitations (db Sample.invited))).
  { repeat constructor; simpl; congruence. }
  assert (H2 : invitation_by_id "c0" Sample.invited = Some Sample.the_invitation)
    by reflexivity.
  split; [exact H1 |]. split; [exact H2 |].
  exact (proj2 (proj2 (C9_setActive_stamp_invariant
                         Sample.invited [] "ev1" "c0" Sample.the_invitation
                         [(false, 10); (true, 20); (false, 30)] 40 50
                         H1 H2 eq_refl))).
Defined.

(** ** Join resolution *)

Lemma find_none_iff {A} (f : A -> bool) (l : list A) :
  find f l = None <-> forall x, In x l -> f x = false.
Proof.
  split; [apply find_none|].
  induction l as [|a l IH]; intros H; simpl; [reflexivity|].
  rewrite (H a (or_introl eq_refl)). apply IH. intros x Hx. apply H. now right.
Qed.

(** C7. Join resolution reads the store and changes nothing.  It answers
    not-found when no invitation carries the token; for an invitation that
    is not active it answers with the one neutral sentence, whatever the
    event's dates are (so before any look at expiry) and with a status
    other than not-found; for an active invitation whose event has ended
    it answers expired; otherwise it returns the event view with the
    invitation's token and delivery method. *)
Theorem C7_join_resolution (tok : string) (w : World) :
  let r := fst (getJoin tok w) in
  db (snd (getJoin tok w)) = db w
  /\ ((forall i, In i (invitations (db w)) -> token i <> tok) ->
      r = Ok {| code := 404; payload := JMessage "Invitation not found" |})
  /\ (forall i e,
        invitation_by_token tok w = Some i ->
        Prisma.event_lookup (inv_eventId i) (db w) = Some e ->
        (isActive i = false ->
         r = Ok {| code := 400; payload := JMessage NEUTRAL |})
        /\ (isActive i = true -> endsAt e < now w ->
            r = Ok {| code := 400; payload := JMessage "Event expired" |})
        /\ (isActive i = true -> now w <= endsAt e ->
            r = Ok {| code := 200;
                      payload := JJoin (mapEventResponse e) (token i)
                                       (deliveryMethod i) |})).
Proof.
  cbv zeta. unfold getJoin, bind, Prisma.invitation_findUnique_token, invitation_by_token.
  split; [| split].
  - destruct (find _ _) as [i|]; cbn.
    + destruct (Prisma.event_lookup _ _) as [e|]; cbn; [|reflexivity].
      destruct (isActive i); cbn; [|reflexivity].
      destruct (endsAt e <? now w); reflexivity.
    + reflexivity.
  - intros Hnone.
    assert (E : find (fun i => (token i =? tok)%string) (invitations (db w)) = None).
    { apply find_none_iff. intros x Hx. apply String.eqb_neq. auto. }
    rewrite E. reflexivity.
  - intros i e Hi He. rewrite Hi, He. cbn.
    split; [| split].
    + intros ->. reflexivity.
    + intros -> Hlt. cbn. apply Z.ltb_lt in Hlt. rewrite Hlt. reflexivity.
    + intros -> Hle. cbn.
      destruct (Z.ltb_spec (endsAt e) (now w)); [lia | reflexivity].
Qed.

(** The four answers, at stores that hold the invitation with token
    [a1b2c30]: switched off and looked at after the event, the neutral
    sentence; active and looked at after the event, expired; active while
    the event runs, the event view; another token, not found. *)
Lemma C7_join_resolution_witness :
  fst (getJoin "a1b2c30" Sample.revoked_and_over)
  = Ok {| code := 400; payload := JMessage NEUTRAL |}
  /\ fst (getJoin "a1b2c30" (set_now (endsAt Sample.hunt + 1) Sample.invited))
     = Ok {| code := 400; payload := JMessage "Event expired" |}
  /\ fst (getJoin "a1b2c30" Sample.invited)
     = Ok {| code := 200;
             payload := JJoin (mapEventResponse Sample.hunt) "a1b2c30" LINK |}
  /\ fst (getJoin "feedbeef" Sample.invited)
     = Ok {| code := 404; payload := JMessage "Invitation not found" |}.
Proof.
  split; [| split; [| split]].
  - destruct (C7_join_resolution "a1b2c30" Sample.revoked_and_over) as (_ & _ & H).
    cbv zeta in H.
    destruct (H (with_flag false Sample.noon Sample.the_invitation)
                Sample.hunt eq_refl eq_refl) as (H1 & _ & _).
    exact (H1 eq_refl).
  - destruct (C7_join_resolution "a1b2c30"
                (set_now (endsAt Sample.hunt + 1) Sample.invited)) as (_ & _ & H).
    cbv zeta in H.
    destruct (H Sample.the_invitation Sample.hunt eq_refl eq_refl) as (_ & H2 & _).
    exact (H2 eq_refl eq_refl).
  - destruct (C7_join_resolution "a1b2c30" Sample.invited) as (_ & _ & H).
    cbv zeta in H.
    destruct (H Sample.the_invitation Sample.hunt eq_refl eq_refl) as (_ & _ & H3).
    apply (H3 eq_refl). apply Z.leb_le. reflexivity.
  - destruct (C7_join_resolution "feedbeef" Sample.invited) as (_ & H & _).
    cbv zeta in H. apply H.
    intros i [<-|[]]. discriminate.
Defined.

(** A deactivated invitation of an event that is also over: the neutral
    answer, not the expiry one and not a 404. *)
Example join_revoked_and_over :
  fst (getJoin "a1b2c30" Sample.revoked_and_over)
  = Ok {| code := 400; payload := JMessage NEUTRAL |}.
Proof. reflexivity. Qed.

(** ** Audit listing *)

Lemma insert_desc_perm x l : Permutation (Prisma.insert_desc x l) (x :: l).
Proof.
  induction l as [|y l IH]; simpl; [reflexivity|].
  destruct (createdAt y <? createdAt x); [reflexivity|].
  rewrite IH. apply perm_swap.
Qed.

Lemma order_desc_perm l : Permutation (Prisma.order_desc l) l.
Proof.
  induction l as [|x l IH]; simpl; [reflexivity|].
  rewrite insert_desc_perm. now constructor.
Qed.

Lemma insert_desc_sorted x l : newest_first l -> newest_first (Prisma.insert_desc x l).
Proof.
  unfold newest_first. induction 1 as [|y l Hs IH Hall]; simpl.
  - repeat constructor.
  - destruct (Z.ltb_spec (createdAt y) (createdAt x)) as [Hlt|Hge].
    + constructor; [constructor; assumption|].
      constructor; [lia|].
      eapply Forall_impl; [| exact Hall]. simpl; intros; lia.
    + constructor; [exact IH|].
      apply (Permutation_Forall (Permutation_sym (insert_desc_perm x l))).
      constructor; [lia | exact Hall].
Qed.

Lemma order_desc_sorted l : newest_first (Prisma.order_desc l).
Proof.
  induction l as [|x l IH]; simpl; [constructor | now apply insert_desc_sorted].
Qed.

Lemma newest_first_split a b :
  newest_first (a ++ b) ->
  newest_first a /\ forall x y, In x a -> In y b -> createdAt y <= createdAt x.
Proof.
  unfold newest_first. induction a as [|z a IH]; simpl; intros H.
  - split; [constructor | intros x y []].
  - inversion H as [|? ? Hs Hall]; subst.
    destruct (IH Hs) as [Ha Hab].
    apply Forall_app in Hall as [Hza Hzb].
    split; [constructor; assumption|].
    intros x y [<-|Hx] Hy.
    + rewrite Forall_forall in Hzb. now apply Hzb.
    + now apply Hab.
Qed.

Lemma parseStatus_name st : parseStatus (statusName st) = Some st.
Proof. destruct st; reflexivity. Qed.

Lemma parseStatus_other s :
  (forall st, s <> statusName st) -> parseStatus s = None.
Proof.
  intros H. unfold parseStatus.
  destruct (String.eqb_spec s "SENT") as [E|_]; [exfalso; exact (H SENT E)|].
  destruct (String.eqb_spec s "FAILED") as [E|_]; [exfalso; exact (H FAILED E)|].
  destruct (String.eqb_spec s "DISABLED") as [E|_]; [exfalso; exact (H DISABLED E)|].
  destruct (String.eqb_spec s "RATE_LIMITED") as [E|_];
    [exfalso; exact (H RATE_LIMITED E)|].
  reflexivity.
Qed.

Lemma statusFilter_name st : statusFilter (Some (statusName st)) = Some st.
Proof. destruct st; reflexivity. Qed.

Lemma statusFilter_other s :
  (forall st, s <> statusName st) -> statusFilter (Some s) = None.
Proof.
  intros H. unfold statusFilter.
  destruct (Js.truthy (Some s)); [now apply parseStatus_other | reflexivity].
Qed.

(** C6, as the code has it.  The audit listing always answers 200 with a
    page of at most 100 records, newest first, drawn from the records of
    the event (restricted to a status when the filter names one of SENT,
    FAILED, DISABLED, RATE_LIMITED): the page and the records left out make
    up exactly the matching records, nothing left out is newer than
    anything on the page, and nothing is left out while the page is not
    full.  A filter value outside the enumeration is not rejected: it is
    ignored, and the answer is the one given without a filter. *)
Theorem C6_email_logs_page (id : string) (status_ : option string) (w : World) :
  exists page rest,
    fst (getEmailLogs id status_ w)
    = Ok {| code := 200; payload := JLogs (map emailLogView page) |}
    /\ db (snd (getEmailLogs id status_ w)) = db w
    /\ newest_first page
    /\ (List.length page <= 100)%nat
    /\ Permutation (page ++ rest)
         (filter (Prisma.log_matches id (statusFilter status_)) (emailLogs (db w)))
    /\ (forall a b, In a page -> In b rest -> createdAt b <= createdAt a)
    /\ ((List.length page < 100)%nat -> rest = [])
    /\ (forall st, status_ = Some (statusName st) -> statusFilter status_ = Some st)
    /\ (forall s, status_ = Some s -> (forall st, s <> statusName st) ->
        statusFilter status_ = None
        /\ fst (getEmailLogs id status_ w) = fst (getEmailLogs id None w)).
Proof.
  set (matching := filter (Prisma.log_matches id (statusFilter status_))
                          (emailLogs (db w))).
  exists (firstn 100 (Prisma.order_desc matching)),
         (skipn 100 (Prisma.order_desc matching)).
  pose proof (order_desc_sorted matching) as Hs.
  rewrite <- (firstn_skipn 100 (Prisma.order_desc matching)) in Hs.
  apply newest_first_split in Hs as [Hpage Hcut].
  split; [reflexivity|].
  split; [reflexivity|].
  split; [exact Hpage|].
  split; [apply firstn_le_length|].
  split; [rewrite firstn_skipn; apply order_desc_perm|].
  split; [exact Hcut|].
  split.
  { intros Hlen. rewrite length_firstn in Hlen.
    apply skipn_all2. lia. }
  split.
  { intros st ->. apply statusFilter_name. }
  intros s -> Hs'. pose proof (statusFilter_other s Hs') as E.
  split; [exact E|].
  unfold getEmailLogs, bind, Prisma.emailLog_findMany. rewrite E. reflexivity.
Qed.

(** The claim fails as stated: a status outside the enumeration gets a 200
    answer listing the event's records of every outcome. *)
Lemma C6_unknown_status_not_rejected :
  fst (getEmailLogs "ev1" (Some "BOGUS") Sample.audited)
  = Ok {| code := 200;
          payload :=
            JLogs (map emailLogView
                     [Sample.log_at 400 DISABLED "alice";
                      Sample.log_at 300 FAILED "alice";
                      Sample.log_at 200 RATE_LIMITED "alice";
                      Sample.log_at 100 SENT "alice"]) |}.
Proof. reflexivity. Qed.

(** ** Deleting an event *)

Lemma filter_strb_neq_none {A} (key : A -> string) id (l : list A) x :
  In x (filter (fun a => Prisma.strb_neq (key a) id) l) -> key x <> id.
Proof.
  intros H. apply filter_In in H as [_ H]. unfold Prisma.strb_neq in H.
  apply negb_true_iff, String.eqb_neq in H. exact H.
Qed.

(** X12. The route deletes in one transaction: for an event that exists nothing
    of it is left (no invitation, no audit record naming it, no cache, no
    player, no event row); for an unknown id the request fails and the
    store is as before. *)
Lemma deleteEvent_all_or_nothing (id : string) (w : World) :
  (existsb (fun e => (event_id e =? id)%string) (events (db w)) = true ->
   let s' := db (snd (deleteEvent id w)) in
   fst (deleteEvent id w) = Ok {| code := 204; payload := JNone |}
   /\ (forall i, In i (invitations s') -> inv_eventId i <> id)
   /\ (forall l, In l (emailLogs s') -> log_eventId l <> Some id)
   /\ (forall c, In c (caches s') -> cache_eventId c <> id)
   /\ (forall p, In p (players s') -> player_eventId p <> id)
   /\ (forall e, In e (events s') -> event_id e <> id))
  /\ (existsb (fun e => (event_id e =? id)%string) (events (db w)) = false ->
      (exists err, fst (deleteEvent id w) = Throw err)
      /\ snd (deleteEvent id w) = w).
Proof.
  unfold deleteEvent, bind, Prisma.transaction, respond, ret.
  unfold Prisma.run_ops, Prisma.emailLog_deleteMany, Prisma.cacheFind_deleteMany,
    Prisma.invitation_deleteMany, Prisma.cache_deleteMany,
    Prisma.player_deleteMany, Prisma.event_delete, Prisma.set_invitations.
  cbn [events invitations emailLogs caches cacheFinds players systemSetting].
  split; intros E; rewrite E; cbn.
  - split; [reflexivity|].
    split; [intros i; apply filter_strb_neq_none|].
    split.
    { intros l H. apply filter_In in H as [_ H].
      destruct (log_eventId l) as [e|]; [|discriminate].
      apply negb_true_iff, String.eqb_neq in H. congruence. }
    split; [intros c; apply filter_strb_neq_none|].
    split; [intros p; apply filter_strb_neq_none|].
    intros e; apply filter_strb_neq_none.
  - split; [eexists; reflexivity | reflexivity].
Qed.

(** ** The retention cleanup *)

Lemma commit_each_app E a b s :
  commit_each E (a ++ b) s
  = match commit_each E a s with
    | (Ok _, s') => commit_each E b s'
    | (Throw e, s') => (Throw e, s')
    end.
Proof.
  revert s. induction a as [|c a IH]; intros s; cbn [app commit_each].
  - reflexivity.
  - destruct (E c s) as [[[]|e] s']; [apply IH | reflexivity].
Qed.

Lemma cleanup_each_step E evt rest w :
  cleanup_each E (evt :: rest) w
  = match commit_each E (cleanup_calls evt) (db w) with
    | (Ok _, s') => cleanup_each E rest (set_db w s')
    | (Throw e, s') => (Throw e, set_db w s')
    end.
Proof.
  cbn [cleanup_each cleanup_calls commit_each].
  unfold bind at 1 2 3 4, await_delete.
  destruct (E (CacheFind_deleteMany evt) (db w)) as [[[]|e1] s1]; cbn [db set_db];
    [| reflexivity].
  destruct (E (Invitation_deleteMany evt) s1) as [[[]|e2] s2]; cbn [db set_db];
    [| reflexivity].
  destruct (E (Cache_deleteMany evt) s2) as [[[]|e3] s3]; cbn [db set_db];
    [| reflexivity].
  destruct (E (Event_delete evt) s3) as [[[]|e4] s4]; reflexivity.
Qed.

(** The loop commits its calls one by one, and touches nothing else of the
    world. *)
Lemma cleanup_each_commits E ids : forall w,
  cleanup_each E ids w
  = (fst (commit_each E (flat_map cleanup_calls ids) (db w)),
     set_db w (snd (commit_each E (flat_map cleanup_calls ids) (db w)))).
Proof.
  induction ids as [|evt rest IH]; intros w.
  - cbn. destruct w; reflexivity.
  - rewrite cleanup_each_step. cbn [flat_map]. rewrite commit_each_app.
    destruct (commit_each E (cleanup_calls evt) (db w)) as [[[]|e] s1].
    + rewrite IH. reflexivity.
    + reflexivity.
Qed.

Lemma run_commits E daysBefore w :
  let ids := expired_ids daysBefore w in
  run E daysBefore w
  = match commit_each E (flat_map cleanup_calls ids) (db w) with
    | (Ok _, s') =>
      (Ok tt,
       print ("Cleaned " ++ Js.decimal (Z.of_nat (List.length ids))
              ++ " expired events") (set_db w s'))
    | (Throw e, s') => (Throw e, set_db w s')
    end.
Proof.
  cbv zeta. unfold run, bind at 1 2 3 4, gets, Prisma.event_findMany_endedBefore, modify.
  fold (retention_days w). fold (cutoff daysBefore w). fold (expired_ids daysBefore w).
  rewrite cleanup_each_commits.
  destruct (commit_each E _ (db w)) as [[[]|e] s']; reflexivity.
Qed.

Lemma cleanup_calls_spare evt :
  forallb (fun c => negb (asks_for_audit_or_players c)) (cleanup_calls evt) = true.
Proof. reflexivity. Qed.

(** C5, for the retention cleanup, whatever referential actions the
    database applies and whatever the host's calendar is.  For the events
    that ended before the cutoff, each in turn, the script makes four
    delete calls: the finds of its caches, its invitations, its caches,
    the event.  Each call is awaited on its own, none is part of a
    transaction, and none asks for audit records (or players): the store
    the script leaves is the one these calls, committed one by one, leave.
    So when the database rejects one of them, the run fails there, and
    what the earlier calls deleted stays deleted. *)
Theorem C5_cleanup_commits_call_by_call
    (E : Engine) (daysBefore : Calendar) (w : World) :
  let calls := flat_map cleanup_calls (expired_ids daysBefore w) in
  (fst (run E daysBefore w), db (snd (run E daysBefore w)))
  = commit_each E calls (db w)
  /\ forallb (fun c => negb (asks_for_audit_or_players c)) calls = true
  /\ (forall done c rest s1 e s2,
        calls = (done ++ c :: rest)%list ->
        commit_each E done (db w) = (Ok tt, s1) ->
        E c s1 = (Throw e, s2) ->
        fst (run E daysBefore w) = Throw e
        /\ db (snd (run E daysBefore w)) = s2).
Proof.
  cbv zeta.
  assert (R : (fst (run E daysBefore w), db (snd (run E daysBefore w)))
              = commit_each E (flat_map cleanup_calls (expired_ids daysBefore w)) (db w)).
  { rewrite run_commits. cbv zeta.
    destruct (commit_each E _ (db w)) as [[[]|e] s']; reflexivity. }
  split; [exact R|]. split.
  - clear R. induction (expired_ids daysBefore w) as [|evt ids IH]; [reflexivity|].
    cbn [flat_map]. rewrite forallb_app, cleanup_calls_spare. exact IH.
  - intros done c rest s1 e s2 Hc Hd He.
    rewrite Hc, commit_each_app, Hd in R. cbn [commit_each] in R. rewrite He in R.
    injection R as R1 R2. auto.
Qed.

(** With the actions Prisma takes when the schema names none, on a store
    where the old event has a mailed invitation and a player: the script
    deletes the invitation and then fails on the event, which the player
    still refers to.  The event stays, without its invitation, and the
    audit record of the mail stays too. *)
Lemma C5_cleanup_commits_call_by_call_witness :
  (exists e, fst (run prisma_defaults utc Sample.played_world) = Throw e)
  /\ events (db (snd (run prisma_defaults utc Sample.played_world)))
     = [Sample.old_event]
  /\ invitations (db (snd (run prisma_defaults utc Sample.played_world))) = []
  /\ map log_id (emailLogs (db (snd (run prisma_defaults utc Sample.played_world))))
     = ["log-old"].
Proof.
  destruct (C5_cleanup_commits_call_by_call prisma_defaults utc Sample.played_world)
    as (_ & _ & H).
  destruct (H [CacheFind_deleteMany "old"; Invitation_deleteMany "old";
               Cache_deleteMany "old"]
              (Event_delete "old") []
              (snd (commit_each prisma_defaults
                      [CacheFind_deleteMany "old"; Invitation_deleteMany "old";
                       Cache_deleteMany "old"] (db Sample.played_world)))
              FOREIGN_KEY
              (snd (commit_each prisma_defaults
                      [CacheFind_deleteMany "old"; Invitation_deleteMany "old";
                       Cache_deleteMany "old"] (db Sample.played_world)))
              eq_refl eq_refl eq_refl) as [H1 H2].
  split; [exists FOREIGN_KEY; exact H1|].
  rewrite H2. repeat split; reflexivity.
Defined.

(** ** Dispatch *)

Lemma audit_writes_app a b :
  audit_writes (a ++ b) = (audit_writes a ++ audit_writes b)%list.
Proof.
  induction a as [|o a IH]; simpl; [reflexivity|].
  destruct o; simpl; rewrite ?IH; reflexivity.
Qed.

Lemma quota_queries_app a b :
  quota_queries (a ++ b) = (quota_queries a ++ quota_queries b)%list.
Proof.
  induction a as [|o a IH]; simpl; [reflexivity|].
  destruct o; simpl; rewrite ?IH; reflexivity.
Qed.

(** Journal entries that are quota queries and nothing else. *)
Lemma only_counts_after_issue ops :
  Forall (fun o => exists a t, o = OpEmailLogCount a t) ops ->
  audit_writes ops = [] /\ forall l, after_issue (ops ++ l) = after_issue l.
Proof.
  induction 1 as [|o ops [a [t ->]] _ [IH1 IH2]]; simpl; auto.
Qed.

(** The quota check only reads: it leaves the world as it was, with its
    count queries on the journal. *)
Lemma checkRateLimit_frame admin settings w :
  exists rate ops,
    checkRateLimit admin settings w = (Ok rate, log_ops ops w)
    /\ Forall (fun o => exists a t, o = OpEmailLogCount a t) ops
    /\ (forall a, admin = Some a -> a <> "" ->
        allowed rate = negb (quota_denies a settings w)).
Proof.
  destruct admin as [a|].
  2:{ exists allow, []. split; [| split; [constructor | discriminate]].
      unfold log_ops. rewrite app_nil_r. destruct w; reflexivity. }
  destruct (String.eqb_spec a "") as [->|Hne].
  { exists allow, []. split; [| split; [constructor | intros ? [= <-] H; congruence]].
    unfold log_ops. rewrite app_nil_r. destruct w; reflexivity. }
  rewrite (checkRateLimit_eq a settings w Hne). cbv zeta. unfold quota_denies.
  destruct ((0 <? perHour _) && _) eqn:Eh.
  - eexists _, [OpEmailLogCount a (now w - HOUR)].
    split; [reflexivity|]. split; [repeat constructor; eauto|].
    intros a' [= <-] _. rewrite Eh. reflexivity.
  - destruct ((0 <? perDay _) && _) eqn:Ed;
      eexists _, [OpEmailLogCount a (now w - HOUR); OpEmailLogCount a (now w - DAY)];
      (split; [| split; [repeat constructor; eauto|]]);
      [ unfold log_op, log_ops; cbn; rewrite <- app_assoc; reflexivity
      | intros a' [= <-] _; rewrite Eh, Ed; reflexivity
      | unfold log_op, log_ops; cbn; rewrite <- app_assoc; reflexivity
      | intros a' [= <-] _; rewrite Eh, Ed; reflexivity ].
Qed.

Lemma logEmail_run p w :
  logEmail p w =
  (Ok tt,
   match emailLogFault w with
   | None =>
     bump (set_db (log_op (OpEmailLogCreate (p_status p)) w)
                  (Prisma.add_emailLog (audit_row p w) (db w)))
   | Some _ => print SWALLOWED (log_op (OpEmailLogCreate (p_status p)) w)
   end).
Proof.
  unfold logEmail, try_catch, bind, Prisma.emailLog_create, modify, ret.
  cbn. destruct (emailLogFault w); reflexivity.
Qed.

Lemma logEmail_one_audit_write p w :
  one_audit_write p w (snd (logEmail p w)).
Proof.
  rewrite logEmail_run. unfold one_audit_write. cbn [snd].
  destruct (emailLogFault w) eqn:E; cbn;
    rewrite audit_writes_app; cbn; repeat split; try reflexivity.
  apply in_or_app. right. left. reflexivity.
Qed.

(** Client calls other than audit writes, made before the write, and
    console lines printed after it, do not change what it leaves behind. *)
Lemma one_audit_write_after_ops p ops w w' :
  audit_writes ops = [] ->
  one_audit_write p (log_ops ops w) w' -> one_audit_write p w w'.
Proof.
  unfold one_audit_write. cbn. rewrite audit_writes_app.
  intros -> H. rewrite app_nil_r in H. exact H.
Qed.

Lemma one_audit_write_print p line w w' :
  one_audit_write p w w' -> one_audit_write p w (print line w').
Proof.
  unfold one_audit_write. cbn. destruct (emailLogFault w); [| tauto].
  intros (H1 & H2 & H3 & H4 & H5 & H6). repeat split; auto.
  apply in_or_app. now left.
Qed.

(** The sender, branch by branch. *)
Lemma sendInvitationEmail_run o w :
  sendInvitationEmail o w =
  let settings := systemSetting (db w) in
  let w0 := log_op OpSettingsFind w in
  if transport_unusable (o_event o) settings then
    (Ok St_disabled,
     snd (logEmail (audit_params o DISABLED (Some "SMTP nicht konfiguriert")) w0))
  else if negb (Js.nullish (o_skipRateCheck o) false) then
    match checkRateLimit (o_adminId o) settings w0 with
    | (Ok rate, w1) =>
      if negb (allowed rate) then
        (Ok (St_rate_limited (Js.nullish (message rate) "Rate-Limit erreicht")),
         snd (logEmail (audit_params o RATE_LIMITED (message rate)) w1))
      else delivered o settings w1
    | (Throw e, w1) => (Throw e, w1)
    end
  else delivered o settings w0.
Proof.
  cbv zeta.
  unfold sendInvitationEmail, getEmailConfig, Prisma.systemSetting_findUnique.
  unfold bind at 1. cbv beta iota.
  fold (dispatch_context o). fold (dispatch_subject o). fold (dispatch_body o).
  change (negb (isEmailSendingEnabled (systemSetting (db w)))
          || negb (Js.truthy
                     (Js.or_else (senderEmail (o_event o))
                        match systemSetting (db w) with
                        | Some s => smtpFromAddress s
                        | None => None
                        end)))
    with (transport_unusable (o_event o) (systemSetting (db w))).
  destruct (transport_unusable (o_event o) (systemSetting (db w))).
  { unfold bind, ret. rewrite !logEmail_run. reflexivity. }
  assert (D : forall w1,
    try_catch
      (bind (sendMail (dispatch_mail o (systemSetting (db w))))
         (fun _ => bind (logEmail (audit_params o SENT None)) (fun _ => ret St_sent)))
      (fun error =>
         bind (logEmail (audit_params o FAILED (Some (failure_message error))))
           (fun _ => bind (modify (print "E-Mail-Versand fehlgeschlagen"))
                       (fun _ => ret (St_error (failure_message error))))) w1
    = delivered o (systemSetting (db w)) w1).
  { intros w1. unfold try_catch, bind, sendMail, delivered, modify, ret.
    cbn [smtpFault log_op]. rewrite !logEmail_run.
    destruct (smtpFault w1); cbn; rewrite ?logEmail_run; reflexivity. }
  destruct (negb (Js.nullish (o_skipRateCheck o) false)).
  - unfold bind at 1.
    destruct (checkRateLimit _ _ _) as [[rate|e] w1]; [| reflexivity].
    destruct (negb (allowed rate)).
    + unfold bind, ret. rewrite !logEmail_run. reflexivity.
    + apply D.
  - apply D.
Qed.

Lemma enabled_transport_usable ev settings :
  isEmailSendingEnabled settings = true -> transport_unusable ev settings = false.
Proof.
  unfold transport_unusable, isEmailSendingEnabled. intros H. rewrite H. simpl.
  destruct settings as [s|]; [| discriminate].
  apply andb_true_iff in H as [H _]. apply andb_true_iff in H as [H _].
  apply andb_true_iff in H as [_ H].
  unfold Js.or_else. destruct (Js.truthy (senderEmail ev)) eqn:E.
  - rewrite E. reflexivity.
  - rewrite H. reflexivity.
Qed.

(** With [skipRateCheck] set the sender goes from the capability test
    straight to the transport. *)
Lemma sendInvitationEmail_skipping o w :
  o_skipRateCheck o = Some true ->
  sendInvitationEmail o w =
  if transport_unusable (o_event o) (systemSetting (db w)) then
    (Ok St_disabled,
     snd (logEmail (audit_params o DISABLED (Some "SMTP nicht konfiguriert"))
            (log_op OpSettingsFind w)))
  else delivered o (systemSetting (db w)) (log_op OpSettingsFind w).
Proof. intros H. rewrite sendInvitationEmail_run. cbv zeta. rewrite H. reflexivity. Qed.

(** The route's tail, for an e-mail invitation and a usable transport. *)
Lemma issueAndSend_email id body adminId ev w :
  pl_deliveryMethod body = EMAIL ->
  Js.truthy (pl_email body) = true ->
  isEmailSendingEnabled (systemSetting (db w)) = true ->
  let o := route_options id body adminId ev w in
  let ws := log_op OpSettingsFind (after_issuing id body w) in
  issueAndSend id body adminId ev w =
  match smtpFault w with
  | None =>
    (Ok {| code := 201; payload := JInvitation (issued id body w) (join_link w) |},
     snd (delivered o (systemSetting (db w)) ws))
  | Some e =>
    (Ok {| code := 500; payload := JMessage (failure_message e) |},
     snd (delivered o (systemSetting (db w)) ws))
  end.
Proof.
  intros Hm He Hen. cbv zeta.
  assert (E : issueAndSend id body adminId ev w =
              match sendInvitationEmail (route_options id body adminId ev w)
                      (after_issuing id body w) with
              | (Ok (St_rate_limited m), w') =>
                bind (Prisma.invitation_delete (inv_id (issued id body w)))
                     (fun _ => respond 429 (JMessage m)) w'
              | (Ok (St_error m), w') => respond 500 (JMessage m) w'
              | (Ok _, w') =>
                respond 201 (JInvitation (issued id body w) (join_link w)) w'
              | (Throw e, w') => (Throw e, w')
              end).
  { unfold issueAndSend, bind at 1 2 3 4, gets, Prisma.invitation_create.
    cbn [log_op db created cuid randomHex now env bump set_db].
    rewrite Hm, He. cbn [is_EMAIL andb].
    unfold route_options, after_issuing, issued, join_link. rewrite Hm.
    cbn [inv_id].
    destruct (sendInvitationEmail _ _) as [[[]|] ?]; reflexivity. }
  rewrite E. clear E.
  rewrite (sendInvitationEmail_skipping (route_options id body adminId ev w)
             (after_issuing id body w) eq_refl).
  change (systemSetting (db (after_issuing id body w))) with (systemSetting (db w)).
  change (o_event (route_options id body adminId ev w)) with ev.
  rewrite (enabled_transport_usable ev _ Hen).
  unfold delivered.
  change (smtpFault (log_op OpSettingsFind (after_issuing id body w)))
    with (smtpFault w).
  destruct (smtpFault w); reflexivity.
Qed.

(** The route's tail, for a link invitation. *)
Lemma issueAndSend_link id body adminId ev w :
  is_EMAIL (pl_deliveryMethod body) && Js.truthy (pl_email body) = false ->
  issueAndSend id body adminId ev w =
  (Ok {| code := 201; payload := JInvitation (issued id body w) (join_link w) |},
   after_issuing id body w).
Proof.
  intros H. unfold issueAndSend, bind, gets, Prisma.invitation_create.
  cbn [log_op db created cuid randomHex now env bump set_db].
  rewrite H. reflexivity.
Qed.

Lemma logEmail_journal p w :
  journal (snd (logEmail p w)) = (journal w ++ [OpEmailLogCreate (p_status p)])%list.
Proof. rewrite logEmail_run. cbn. destruct (emailLogFault w); reflexivity. Qed.

(** What the transport send and its audit write leave behind. *)
Lemma delivered_effect o s w :
  let st := match smtpFault w with None => SENT | Some _ => FAILED end in
  let err := match smtpFault w with
             | None => None
             | Some e => Some (failure_message e)
             end in
  fst (delivered o s w)
  = Ok (match smtpFault w with
        | None => St_sent
        | Some e => St_error (failure_message e)
        end)
  /\ journal (snd (delivered o s w))
     = (journal w ++ [OpSendMail (dispatch_mail o s); OpEmailLogCreate st])%list
  /\ one_audit_write (audit_params o st err) w (snd (delivered o s w)).
Proof.
  cbv zeta. unfold delivered.
  destruct (smtpFault w) as [e|]; cbn [fst snd].
  - split; [reflexivity|]. split.
    + cbn [print journal]. rewrite logEmail_journal. cbn. rewrite <- app_assoc.
      reflexivity.
    + apply one_audit_write_print.
      apply (one_audit_write_after_ops _ [OpSendMail (dispatch_mail o s)]);
        [reflexivity|].
      apply logEmail_one_audit_write.
  - split; [reflexivity|]. split.
    + rewrite logEmail_journal. cbn. rewrite <- app_assoc. reflexivity.
    + apply (one_audit_write_after_ops _ [OpSendMail (dispatch_mail o s)]);
        [reflexivity|].
      apply logEmail_one_audit_write.
Qed.

(** Every run of the sender ends with a status, and has made exactly one
    audit write, carrying the outcome that goes with that status. *)
Lemma sendInvitationEmail_audit o w :
  exists st err,
    fst (sendInvitationEmail o w) = Ok st
    /\ one_audit_write (audit_params o (outcome_of st) err) w
         (snd (sendInvitationEmail o w)).
Proof.
  assert (D : forall ops, audit_writes ops = [] ->
    exists st err,
      fst (delivered o (systemSetting (db w)) (log_ops ops w)) = Ok st
      /\ one_audit_write (audit_params o (outcome_of st) err) w
           (snd (delivered o (systemSetting (db w)) (log_ops ops w)))).
  { intros ops Hops.
    destruct (delivered_effect o (systemSetting (db w)) (log_ops ops w))
      as (H1 & _ & H3). cbv zeta in *.
    change (smtpFault (log_ops ops w)) with (smtpFault w) in *.
    destruct (smtpFault w) as [e|].
    - exists (St_error (failure_message e)), (Some (failure_message e)).
      split; [exact H1|]. apply (one_audit_write_after_ops _ ops); assumption.
    - exists St_sent, None.
      split; [exact H1|]. apply (one_audit_write_after_ops _ ops); assumption. }
  rewrite sendInvitationEmail_run. cbv zeta.
  destruct (transport_unusable _ _).
  { exists St_disabled, (Some "SMTP nicht konfiguriert"). split; [reflexivity|].
    cbn [fst snd outcome_of].
    apply (one_audit_write_after_ops _ [OpSettingsFind]); [reflexivity|].
    apply logEmail_one_audit_write. }
  destruct (negb (Js.nullish (o_skipRateCheck o) false)).
  - destruct (checkRateLimit_frame (o_adminId o) (systemSetting (db w))
                (log_op OpSettingsFind w)) as (rate & ops & E & Hcnt & _).
    destruct (only_counts_after_issue ops Hcnt) as [Hops _].
    rewrite E.
    change (log_ops ops (log_op OpSettingsFind w))
      with (log_ops ops (log_ops [OpSettingsFind] w)).
    assert (Hw : log_ops ops (log_ops [OpSettingsFind] w)
                 = log_ops (OpSettingsFind :: ops) w).
    { unfold log_ops. cbn. rewrite <- app_assoc. reflexivity. }
    rewrite Hw.
    destruct (negb (allowed rate)).
    + exists (St_rate_limited (Js.nullish (message rate) "Rate-Limit erreicht")),
             (message rate).
      split; [reflexivity|]. cbn [fst snd outcome_of].
      apply (one_audit_write_after_ops _ (OpSettingsFind :: ops)); [exact Hops|].
      apply logEmail_one_audit_write.
    + apply D. exact Hops.
  - apply (D [OpSettingsFind]). reflexivity.
Qed.

(** *** The route up to the token *)

Lemma postInvitation_unknown_event id body adminId w :
  Prisma.event_lookup id (db w) = None ->
  postInvitation id body adminId w
  = (Ok {| code := 404; payload := JMessage "Event not found" |},
     log_op (OpEventFind id) w).
Proof.
  intros H. unfold postInvitation, bind, Prisma.event_findUnique. rewrite H.
  reflexivity.
Qed.

Lemma postInvitation_invalid id body adminId ev w :
  Prisma.event_lookup id (db w) = Some ev ->
  pl_deliveryMethod body = EMAIL ->
  Js.truthy (pl_email body) = false ->
  postInvitation id body adminId w
  = (Ok {| code := 400; payload := JMessage "Email is required for email invitations" |},
     log_op (OpEventFind id) w).
Proof.
  intros H Hm He. unfold postInvitation, bind, Prisma.event_findUnique.
  rewrite H, Hm, He. reflexivity.
Qed.

Lemma postInvitation_disabled id body adminId ev w :
  Prisma.event_lookup id (db w) = Some ev ->
  pl_deliveryMethod body = EMAIL ->
  Js.truthy (pl_email body) = true ->
  isEmailSendingEnabled (systemSetting (db w)) = false ->
  postInvitation id body adminId w
  = (Ok {| code := 400;
           payload := JMessage
             "E-Mail-Versand ist nicht konfiguriert. Bitte SMTP einrichten." |},
     log_op OpSettingsFind (log_op (OpEventFind id) w)).
Proof.
  intros H Hm He Hen.
  unfold postInvitation, bind, Prisma.event_findUnique, Prisma.systemSetting_findUnique.
  rewrite H, Hm, He. cbn [is_EMAIL andb negb db log_op]. rewrite Hen.
  reflexivity.
Qed.

(** A request that the validation, the capability check and the gate let
    through reaches [issueAndSend] with the store untouched, no audit
    write made and no invitation created yet. *)
Lemma postInvitation_passes id body adminId ev w :
  Prisma.event_lookup id (db w) = Some ev ->
  is_EMAIL (pl_deliveryMethod body) && negb (Js.truthy (pl_email body)) = false ->
  is_EMAIL (pl_deliveryMethod body)
  && negb (isEmailSendingEnabled (systemSetting (db w))) = false ->
  (is_EMAIL (pl_deliveryMethod body) = true -> gate_open adminId w = true) ->
  exists ops,
    audit_writes ops = []
    /\ (forall l, after_issue (ops ++ l) = after_issue l)
    /\ postInvitation id body adminId w
       = issueAndSend id body adminId ev (log_ops ops w).
Proof.
  intros H Hv Hc Hg.
  unfold postInvitation, bind at 1 2, Prisma.event_findUnique,
    Prisma.systemSetting_findUnique.
  rewrite H, Hv. cbn [db log_op]. rewrite Hc.
  destruct (is_EMAIL (pl_deliveryMethod body) && Js.truthy adminId) eqn:Eg.
  - apply andb_true_iff in Eg as [Em Ea].
    specialize (Hg Em).
    destruct adminId as [a|]; [| discriminate].
    simpl in Ea. apply negb_true_iff in Ea.
    unfold gate_open in Hg. rewrite Ea in Hg.
    apply String.eqb_neq in Ea.
    unfold precheckRateLimit, getEmailConfig, Prisma.systemSetting_findUnique.
    unfold bind at 1 2. cbn [db log_op].
    destruct (checkRateLimit_frame (Some a) (systemSetting (db w))
                (log_op OpSettingsFind
                   (log_op OpSettingsFind (log_op (OpEventFind id) w))))
      as (rate & ops & E & Hcnt & Hal).
    destruct (only_counts_after_issue ops Hcnt) as [Hops Hai].
    rewrite E. rewrite (Hal a eq_refl Ea).
    change (quota_denies a (systemSetting (db w))
              (log_op OpSettingsFind
                 (log_op OpSettingsFind (log_op (OpEventFind id) w))))
      with (quota_denies a (systemSetting (db w)) w).
    rewrite Hg. cbn [negb].
    exists ([OpEventFind id; OpSettingsFind; OpSettingsFind] ++ ops)%list.
    split; [rewrite audit_writes_app; rewrite Hops; reflexivity|].
    split; [intros l; rewrite <- app_assoc; cbn; apply Hai|].
    f_equal. unfold log_ops, log_op. cbn. rewrite <- !app_assoc. reflexivity.
  - exists [OpEventFind id; OpSettingsFind]. split; [reflexivity|].
    split; [reflexivity|].
    f_equal. unfold log_ops, log_op. cbn. rewrite <- !app_assoc. reflexivity.
Qed.

(** The handler is its two halves, one after the other. *)
Lemma postInvitation_splits id body adminId w :
  postInvitation id body adminId w
  = bind (gate id body adminId) (resume id body adminId) w.
Proof.
  unfold postInvitation, gate, resume, bind, Prisma.event_findUnique,
    Prisma.systemSetting_findUnique, Prisma.emailLog_create, respond, ret.
  destruct (Prisma.event_lookup id (db w)) as [ev|]; [| reflexivity].
  destruct (is_EMAIL (pl_deliveryMethod body) && negb (Js.truthy (pl_email body)));
    [reflexivity|].
  cbn [db log_op].
  destruct (is_EMAIL (pl_deliveryMethod body)
            && negb (isEmailSendingEnabled (systemSetting (db w))));
    [reflexivity|].
  destruct (is_EMAIL (pl_deliveryMethod body) && Js.truthy adminId);
    [| reflexivity].
  destruct (precheckRateLimit adminId _) as [[rate|e] w1]; [| reflexivity].
  destruct (negb (allowed rate)); [| reflexivity].
  destruct (emailLogFault w1); reflexivity.
Qed.

(** A request that the gate turns away: the route goes on to write the
    gate's audit row and to answer 429. *)
Lemma postInvitation_gate_denied_run id body a ev w :
  Prisma.event_lookup id (db w) = Some ev ->
  pl_deliveryMethod body = EMAIL ->
  Js.truthy (pl_email body) = true ->
  isEmailSendingEnabled (systemSetting (db w)) = true ->
  a <> "" ->
  quota_denies a (systemSetting (db w)) w = true ->
  let limits := getRateLimitConfig (env w) (systemSetting (db w)) in
  exists msg ops,
    (msg = hourMessage (perHour limits) \/ msg = dayMessage (perDay limits))
    /\ audit_writes ops = []
    /\ postInvitation id body (Some a) w
       = bind (Prisma.emailLog_create
                 {| Prisma.d_recipient := Js.nullish (pl_email body) "";
                    Prisma.d_subject :=
                      Js.or_default (invitationEmailSubject ev)
                                    ("Einladung: " ++ name ev);
                    Prisma.d_status := RATE_LIMITED;
                    Prisma.d_errorMessage := Some msg;
                    Prisma.d_eventId := Some (event_id ev);
                    Prisma.d_invitationId := None;
                    Prisma.d_adminId := Some a |})
              (fun _ => respond 429 (JMessage msg)) (log_ops ops w).
Proof.
  intros H Hm He Hen Ha Hq. cbv zeta.
  unfold postInvitation, bind at 1 2, Prisma.event_findUnique,
    Prisma.systemSetting_findUnique.
  rewrite H, Hm, He. cbn [is_EMAIL andb negb db log_op]. rewrite Hen.
  cbn [negb]. unfold Js.truthy.
  destruct (String.eqb_spec a "") as [|_]; [contradiction|]. cbn [negb].
  unfold precheckRateLimit, getEmailConfig, Prisma.systemSetting_findUnique.
  unfold bind at 1 2 3. cbn [db log_op].
  rewrite (checkRateLimit_eq a (systemSetting (db w)) _ Ha). cbv zeta.
  unfold quota_denies in Hq.
  cbn [env now log_op].
  change (countNonRateLimited a (now w - HOUR)
            (log_op OpSettingsFind
               (log_op OpSettingsFind (log_op (OpEventFind id) w))))
    with (countNonRateLimited a (now w - HOUR) w).
  change (countNonRateLimited a (now w - DAY)
            (log_op OpSettingsFind
               (log_op OpSettingsFind (log_op (OpEventFind id) w))))
    with (countNonRateLimited a (now w - DAY) w).
  destruct ((0 <? perHour _) && _) eqn:Eh.
  - exists (hourMessage (perHour (getRateLimitConfig (env w) (systemSetting (db w))))),
           [OpEventFind id; OpSettingsFind; OpSettingsFind;
            OpEmailLogCount a (now w - HOUR)].
    split; [left; reflexivity|]. split; [reflexivity|].
    cbn [allowed deny negb message Js.nullish].
    f_equal. unfold log_ops, log_op. cbn. rewrite <- !app_assoc. reflexivity.
  - rewrite orb_false_l in Hq. rewrite Hq.
    exists (dayMessage (perDay (getRateLimitConfig (env w) (systemSetting (db w))))),
           [OpEventFind id; OpSettingsFind; OpSettingsFind;
            OpEmailLogCount a (now w - HOUR); OpEmailLogCount a (now w - DAY)].
    split; [right; reflexivity|]. split; [reflexivity|].
    cbn [allowed deny negb message Js.nullish].
    f_equal. unfold log_ops, log_op. cbn. rewrite <- !app_assoc. reflexivity.
Qed.

Lemma postInvitation_gate_denied id body a ev w :
  Prisma.event_lookup id (db w) = Some ev ->
  pl_deliveryMethod body = EMAIL ->
  Js.truthy (pl_email body) = true ->
  isEmailSendingEnabled (systemSetting (db w)) = true ->
  a <> "" ->
  quota_denies a (systemSetting (db w)) w = true ->
  let r := postInvitation id body (Some a) w in
  let limits := getRateLimitConfig (env w) (systemSetting (db w)) in
  exists msg,
    (msg = hourMessage (perHour limits) \/ msg = dayMessage (perDay limits))
    /\ audit_writes (journal (snd r)) = (audit_writes (journal w) ++ [RATE_LIMITED])%list
    /\ invitations (db (snd r)) = invitations (db w)
    /\ match emailLogFault w with
       | None =>
         fst r = Ok {| code := 429; payload := JMessage msg |}
         /\ emailLogs (db (snd r))
            = (emailLogs (db w) ++ [gate_row body (Some a) ev msg w])%list
       | Some e =>
         fst r = Throw e /\ emailLogs (db (snd r)) = emailLogs (db w)
       end.
Proof.
  intros H Hm He Hen Ha Hq. cbv zeta.
  destruct (postInvitation_gate_denied_run id body a ev w H Hm He Hen Ha Hq)
    as (msg & ops & Hmsg & Hops & E).
  cbv zeta in Hmsg. rewrite E. clear E.
  exists msg. split; [exact Hmsg|].
  unfold bind, Prisma.emailLog_create, respond, ret.
  cbn [emailLogFault log_ops log_op].
  destruct (emailLogFault w); cbn;
    rewrite !audit_writes_app, Hops; cbn; rewrite ?app_nil_r;
    repeat split; reflexivity.
Qed.

(** A request that passed the gate: the invitation is stored and stays
    stored; after its creation the journal shows the sender's settings
    read, one transport send and one audit write with the outcome of the
    send, and nothing else. *)
Lemma postInvitation_sends id body adminId ev w :
  Prisma.event_lookup id (db w) = Some ev ->
  pl_deliveryMethod body = EMAIL ->
  Js.truthy (pl_email body) = true ->
  isEmailSendingEnabled (systemSetting (db w)) = true ->
  gate_open adminId w = true ->
  let r := postInvitation id body adminId w in
  let o := route_options id body adminId ev w in
  let st := match smtpFault w with None => SENT | Some _ => FAILED end in
  let err := match smtpFault w with
             | None => None
             | Some e => Some (failure_message e)
             end in
  exists pre,
    audit_writes pre = []
    /\ (forall l, after_issue (pre ++ l) = after_issue l)
    /\ fst r = Ok (match smtpFault w with
                   | None =>
                     {| code := 201;
                        payload := JInvitation (issued id body w) (join_link w) |}
                   | Some e =>
                     {| code := 500; payload := JMessage (failure_message e) |}
                   end)
    /\ journal (snd r)
       = (journal w ++ pre
          ++ [OpInvitationCreate (inv_id (issued id body w)); OpSettingsFind;
              OpSendMail (dispatch_mail o (systemSetting (db w)));
              OpEmailLogCreate st])%list
    /\ invitations (db (snd r)) = (invitations (db w) ++ [issued id body w])%list
    /\ match emailLogFault w with
       | None =>
         emailLogs (db (snd r))
         = (emailLogs (db w) ++ [audit_row (audit_params o st err) (bump w)])%list
       | Some _ =>
         emailLogs (db (snd r)) = emailLogs (db w)
         /\ In SWALLOWED (console (snd r))
       end.
Proof.
  intros H Hm He Hen Hg. cbv zeta.
  destruct (postInvitation_passes id body adminId ev w H) as (pre & Hpre & Hai & E).
  { rewrite He. apply andb_false_r. }
  { rewrite Hen. apply andb_false_r. }
  { intros _. exact Hg. }
  rewrite E. clear E.
  rewrite (issueAndSend_email id body adminId ev (log_ops pre w) Hm He Hen).
  cbv zeta.
  set (ws := log_op OpSettingsFind (after_issuing id body (log_ops pre w))).
  destruct (delivered_effect (route_options id body adminId ev (log_ops pre w))
              (systemSetting (db (log_ops pre w))) ws) as (_ & Hj & Ha).
  cbv zeta in Hj, Ha.
  change (smtpFault ws) with (smtpFault w) in *.
  change (smtpFault (log_ops pre w)) with (smtpFault w).
  change (route_options id body adminId ev (log_ops pre w))
    with (route_options id body adminId ev w) in *.
  change (systemSetting (db (log_ops pre w))) with (systemSetting (db w)) in *.
  destruct Ha as (_ & Hinv & _ & _ & Hlogs).
  change (emailLogFault ws) with (emailLogFault w) in Hlogs.
  exists pre. split; [exact Hpre|]. split; [exact Hai|].
  split; [destruct (smtpFault w); reflexivity|].
  assert (S : snd match smtpFault w with
              | Some e =>
                (Ok {| code := 500; payload := JMessage (failure_message e) |},
                 snd (delivered (route_options id body adminId ev w)
                        (systemSetting (db w)) ws))
              | None =>
                (Ok {| code := 201;
                       payload := JInvitation (issued id body (log_ops pre w))
                                              (join_link (log_ops pre w)) |},
                 snd (delivered (route_options id body adminId ev w)
                        (systemSetting (db w)) ws))
              end
              = snd (delivered (route_options id body adminId ev w)
                       (systemSetting (db w)) ws))
    by (destruct (smtpFault w); reflexivity).
  rewrite S. clear S.
  split.
  { rewrite Hj. subst ws. unfold after_issuing, log_op, log_ops. cbn.
    rewrite <- !app_assoc. reflexivity. }
  split; [exact Hinv|].
  exact Hlogs.
Qed.

Lemma gate_closed_operator adminId w :
  gate_open adminId w = false ->
  exists a, adminId = Some a /\ a <> ""
            /\ quota_denies a (systemSetting (db w)) w = true.
Proof.
  unfold gate_open. destruct adminId as [a|]; [| discriminate].
  destruct (String.eqb_spec a ""); [discriminate|].
  intros H. apply negb_false_iff in H. eauto.
Qed.

(** C3, as the code has it.  For an e-mail dispatch on an existing event:
    a request without recipient, and a request made while no transport is
    configured, are answered 400 and leave the store as it was, with no
    audit write.  A request that the gate turns away makes one audit write
    with outcome RATE_LIMITED and creates no invitation.  A request that
    passes issues the invitation, which stays in the store whether the
    send succeeds (SENT, 201) or fails (FAILED, 500), and makes one audit
    write carrying that outcome.  The sender on its own, in whatever state
    it is called, ends with one of its four statuses after exactly one
    audit write carrying the matching outcome, DISABLED when it finds no
    usable transport.  An audit write leaves exactly one row when the
    audit table can be written; when that write throws, the sender leaves
    no row (the failure is swallowed) and the gate's request fails. *)
Theorem C3_dispatch_audit_trail
    (id : string) (body : InvitationPayload) (adminId : option string)
    (ev : Event) (w : World) (o : InvitationEmailOptions) :
  Prisma.event_lookup id (db w) = Some ev ->
  pl_deliveryMethod body = EMAIL ->
  let r := postInvitation id body adminId w in
  let settings := systemSetting (db w) in
  let sent := match smtpFault w with None => SENT | Some _ => FAILED end in
  let reason := match smtpFault w with
                | None => None
                | Some e => Some (failure_message e)
                end in
  (Js.truthy (pl_email body) = false ->
   fst r = Ok {| code := 400;
                 payload := JMessage "Email is required for email invitations" |}
   /\ db (snd r) = db w
   /\ audit_writes (journal (snd r)) = audit_writes (journal w))
  /\ (Js.truthy (pl_email body) = true ->
      isEmailSendingEnabled settings = false ->
      fst r = Ok {| code := 400;
                    payload := JMessage
                      "E-Mail-Versand ist nicht konfiguriert. Bitte SMTP einrichten." |}
      /\ db (snd r) = db w
      /\ audit_writes (journal (snd r)) = audit_writes (journal w))
  /\ (Js.truthy (pl_email body) = true ->
      isEmailSendingEnabled settings = true ->
      gate_open adminId w = false ->
      exists msg,
        audit_writes (journal (snd r))
        = (audit_writes (journal w) ++ [RATE_LIMITED])%list
        /\ invitations (db (snd r)) = invitations (db w)
        /\ match emailLogFault w with
           | None =>
             fst r = Ok {| code := 429; payload := JMessage msg |}
             /\ emailLogs (db (snd r))
                = (emailLogs (db w) ++ [gate_row body adminId ev msg w])%list
           | Some e =>
             fst r = Throw e /\ emailLogs (db (snd r)) = emailLogs (db w)
           end)
  /\ (Js.truthy (pl_email body) = true ->
      isEmailSendingEnabled settings = true ->
      gate_open adminId w = true ->
      fst r = Ok (match smtpFault w with
                  | None =>
                    {| code := 201;
                       payload := JInvitation (issued id body w) (join_link w) |}
                  | Some e =>
                    {| code := 500; payload := JMessage (failure_message e) |}
                  end)
      /\ invitations (db (snd r)) = (invitations (db w) ++ [issued id body w])%list
      /\ audit_writes (journal (snd r)) = (audit_writes (journal w) ++ [sent])%list
      /\ match emailLogFault w with
         | None =>
           emailLogs (db (snd r))
           = (emailLogs (db w)
              ++ [audit_row (audit_params (route_options id body adminId ev w)
                               sent reason) (bump w)])%list
         | Some _ => emailLogs (db (snd r)) = emailLogs (db w)
         end)
  /\ (exists st err,
        fst (sendInvitationEmail o w) = Ok st
        /\ one_audit_write (audit_params o (outcome_of st) err) w
             (snd (sendInvitationEmail o w)))
  /\ (transport_unusable (o_event o) settings = true ->
      fst (sendInvitationEmail o w) = Ok St_disabled).
Proof.
  intros H Hm. cbv zeta.
  split.
  { intros He. rewrite (postInvitation_invalid id body adminId ev w H Hm He).
    cbn. rewrite audit_writes_app. cbn. rewrite app_nil_r. auto. }
  split.
  { intros He Hen.
    rewrite (postInvitation_disabled id body adminId ev w H Hm He Hen).
    cbn. rewrite !audit_writes_app. cbn. rewrite !app_nil_r. auto. }
  split.
  { intros He Hen Hg.
    destruct (gate_closed_operator adminId w Hg) as (a & -> & Ha & Hq).
    destruct (postInvitation_gate_denied id body a ev w H Hm He Hen Ha Hq)
      as (msg & _ & H1 & H2 & H3).
    exists msg. auto. }
  split.
  { intros He Hen Hg.
    destruct (postInvitation_sends id body adminId ev w H Hm He Hen Hg)
      as (pre & Hpre & _ & H1 & H2 & H3 & H4).
    split; [exact H1|]. split; [exact H3|].
    split.
    { rewrite H2, !audit_writes_app, Hpre. reflexivity. }
    destruct (emailLogFault w); [exact (proj1 H4) | exact H4]. }
  split; [apply sendInvitationEmail_audit|].
  intros Hu. rewrite sendInvitationEmail_run. cbv zeta. rewrite Hu. reflexivity.
Qed.

Example quiet_dispatch_journal :
  journal (snd (postInvitation "ev1" Sample.request (Some "alice") Sample.quiet_world))
  = [OpEventFind "ev1"; OpSettingsFind; OpSettingsFind;
     OpEmailLogCount "alice" (Sample.noon - HOUR);
     OpEmailLogCount "alice" (Sample.noon - DAY);
     OpInvitationCreate "c0"; OpSettingsFind;
     OpSendMail Sample.the_mail; OpEmailLogCreate SENT].
Proof. vm_compute. reflexivity. Qed.

(** *** The second quota check *)

(** With [skipRateCheck] set, the sender asks the ledger nothing and never
    ends rate limited. *)
Lemma sendInvitationEmail_skip_no_quota o w :
  o_skipRateCheck o = Some true ->
  quota_queries (journal (snd (sendInvitationEmail o w))) = quota_queries (journal w)
  /\ forall m, fst (sendInvitationEmail o w) <> Ok (St_rate_limited m).
Proof.
  intros Hs. rewrite (sendInvitationEmail_skipping o w Hs).
  destruct (transport_unusable _ _).
  - cbn [fst snd]. rewrite logEmail_journal. cbn.
    rewrite !quota_queries_app. cbn. rewrite !app_nil_r.
    split; [reflexivity | discriminate].
  - destruct (delivered_effect o (systemSetting (db w)) (log_op OpSettingsFind w))
      as (H1 & H2 & _).
    rewrite H1, H2. cbn. rewrite !quota_queries_app. cbn. rewrite !app_nil_r.
    split; [reflexivity|]. destruct (smtpFault w); discriminate.
Qed.

(** Without it, a known operator over quota is turned away by the sender
    itself. *)
Lemma sendInvitationEmail_own_check o a w :
  Js.nullish (o_skipRateCheck o) false = false ->
  o_adminId o = Some a -> a <> "" ->
  transport_unusable (o_event o) (systemSetting (db w)) = false ->
  quota_denies a (systemSetting (db w)) w = true ->
  exists m, fst (sendInvitationEmail o w) = Ok (St_rate_limited m).
Proof.
  intros Hs Ha Hne Hu Hq.
  rewrite sendInvitationEmail_run. cbv zeta. rewrite Hu, Hs, Ha. cbn [negb].
  destruct (checkRateLimit_frame (Some a) (systemSetting (db w))
              (log_op OpSettingsFind w)) as (rate & ops & E & _ & Hal).
  rewrite E, (Hal a eq_refl Hne).
  change (quota_denies a (systemSetting (db w)) (log_op OpSettingsFind w))
    with (quota_denies a (systemSetting (db w)) w).
  rewrite Hq. cbn. eauto.
Qed.

(** C2, as the code has it.  For an e-mail dispatch that has passed the
    pre-quota gate, the route calls the sender with [skipRateCheck] set,
    so quota is not checked again once the token is issued: what follows
    the invitation's creation in the journal holds no quota query, no
    deletion of an invitation and no RATE_LIMITED audit write; the
    invitation is in the store at the end and the answer is never 429.
    The sender asks the ledger only when it is called without
    [skipRateCheck]; a known operator over quota then gets the status
    rate_limited after one audit write with outcome RATE_LIMITED. *)
Theorem C2_quota_checked_once_before_issue
    (id : string) (body : InvitationPayload) (adminId : option string)
    (ev : Event) (w : World) (o : InvitationEmailOptions) (a : string) :
  Prisma.event_lookup id (db w) = Some ev ->
  pl_deliveryMethod body = EMAIL ->
  Js.truthy (pl_email body) = true ->
  isEmailSendingEnabled (systemSetting (db w)) = true ->
  gate_open adminId w = true ->
  let r := postInvitation id body adminId w in
  (exists pre tail,
     journal (snd r)
     = (journal w ++ pre ++ OpInvitationCreate (inv_id (issued id body w)) :: tail)%list
     /\ after_issue (pre ++ OpInvitationCreate (inv_id (issued id body w)) :: tail) = tail
     /\ quota_queries tail = []
     /\ (forall i, ~ In (OpInvitationDelete i) tail)
     /\ ~ In RATE_LIMITED (audit_writes tail))
  /\ In (issued id body w) (invitations (db (snd r)))
  /\ (forall resp, fst r = Ok resp -> code resp <> 429)
  /\ (o_skipRateCheck o = Some true ->
      quota_queries (journal (snd (sendInvitationEmail o w))) = quota_queries (journal w)
      /\ forall m, fst (sendInvitationEmail o w) <> Ok (St_rate_limited m))
  /\ (Js.nullish (o_skipRateCheck o) false = false ->
      o_adminId o = Some a -> a <> "" ->
      transport_unusable (o_event o) (systemSetting (db w)) = false ->
      quota_denies a (systemSetting (db w)) w = true ->
      exists m err,
        fst (sendInvitationEmail o w) = Ok (St_rate_limited m)
        /\ one_audit_write (audit_params o RATE_LIMITED err) w
             (snd (sendInvitationEmail o w))).
Proof.
  intros H Hm He Hen Hg. cbv zeta.
  destruct (postInvitation_sends id body adminId ev w H Hm He Hen Hg)
    as (pre & _ & Hai & H1 & H2 & H3 & _).
  split.
  { eexists pre, _. split; [exact H2|].
    split; [rewrite Hai; reflexivity|].
    split; [reflexivity|].
    split.
    - intros i [Hi|[Hi|[Hi|[]]]]; discriminate.
    - cbn. destruct (smtpFault w); intros [Hi|[]]; discriminate. }
  split; [rewrite H3; apply in_or_app; right; left; reflexivity|].
  split.
  { intros resp Hr. rewrite H1 in Hr. injection Hr as <-.
    destruct (smtpFault w); cbn; discriminate. }
  split; [apply sendInvitationEmail_skip_no_quota|].
  intros Hs Ha Hne Hu Hq.
  destruct (sendInvitationEmail_own_check o a w Hs Ha Hne Hu Hq) as [m Hsend].
  destruct (sendInvitationEmail_audit o w) as (st & err & Hst & Haud).
  rewrite Hsend in Hst. injection Hst as <-.
  exists m, err. split; [exact Hsend | exact Haud].
Qed.

Lemma C2_quota_checked_once_before_issue_witness :
  Prisma.event_lookup "ev1" (db Sample.quiet_world) = Some Sample.hunt
  /\ gate_open (Some "alice") Sample.quiet_world = true
  /\ In Sample.the_email_invitation
        (invitations
           (db (snd (postInvitation "ev1" Sample.request (Some "alice")
                       Sample.quiet_world)))).
Proof.
  assert (H1 : Prisma.event_lookup "ev1" (db Sample.quiet_world) = Some Sample.hunt)
    by reflexivity.
  assert (H2 : gate_open (Some "alice") Sample.quiet_world = true) by reflexivity.
  split; [exact H1|]. split; [exact H2|].
  exact (proj1 (proj2 (C2_quota_checked_once_before_issue
                         "ev1" Sample.request (Some "alice") Sample.hunt
                         Sample.quiet_world
                         (route_options "ev1" Sample.request (Some "alice")
                            Sample.hunt Sample.quiet_world)
                         "alice" H1 eq_refl eq_refl eq_refl H2))).
Defined.

(** The claim fails as stated.  In the journal of an e-mail dispatch that
    passed the gate, nothing after the invitation's creation asks the
    ledger; and called as the route calls it, in a store where the quota
    check denies, the sender sends all the same and records SENT. *)
Lemma C2_no_second_quota_check :
  quota_queries
    (after_issue
       (journal (snd (postInvitation "ev1" Sample.request (Some "alice")
                        Sample.quiet_world)))) = []
  /\ fst (checkRateLimit (Some "alice") (Some Sample.settings_2_10) Sample.busy_world)
     = Ok (deny "Limit erreicht (2 pro Stunde).")
  /\ fst (sendInvitationEmail
            (route_options "ev1" Sample.request (Some "alice") Sample.hunt
               Sample.busy_world)
            Sample.busy_world) = Ok St_sent
  /\ audit_writes
       (journal (snd (sendInvitationEmail
                        (route_options "ev1" Sample.request (Some "alice") Sample.hunt
                           Sample.busy_world)
                        Sample.busy_world))) = [SENT].
Proof. vm_compute. repeat split; reflexivity. Qed.

Lemma C3_dispatch_audit_trail_witness :
  Prisma.event_lookup "ev1" (db Sample.quiet_world) = Some Sample.hunt
  /\ pl_deliveryMethod Sample.request = EMAIL
  /\ fst (postInvitation "ev1" Sample.request (Some "alice") Sample.quiet_world)
     = Ok {| code := 201;
             payload := JInvitation Sample.the_email_invitation
                          "http://localhost:5173/join/a1b2c30" |}
  /\ audit_writes
       (journal (snd (postInvitation "ev1" Sample.request (Some "alice")
                        Sample.quiet_world))) = [SENT].
Proof.
  assert (H1 : Prisma.event_lookup "ev1" (db Sample.quiet_world) = Some Sample.hunt)
    by reflexivity.
  assert (H2 : pl_deliveryMethod Sample.request = EMAIL) by reflexivity.
  split; [exact H1|]. split; [exact H2|].
  pose proof (C3_dispatch_audit_trail "ev1" Sample.request (Some "alice")
                Sample.hunt Sample.quiet_world
                (route_options "ev1" Sample.request (Some "alice") Sample.hunt
                   Sample.quiet_world) H1 H2) as C.
  cbv zeta in C.
  destruct C as (_ & _ & _ & C & _).
  destruct (C eq_refl eq_refl eq_refl) as (C1 & _ & C3 & _).
  split; [exact C1 | exact C3].
Defined.

(** The claim fails as stated.  With the audit table out of order a
    dispatch reaches the outcome SENT (the mail goes out, the caller gets
    201 and the invitation) and leaves no audit record at all. *)
Lemma C3_sent_without_audit_record :
  fst (postInvitation "ev1" Sample.request (Some "alice") Sample.audit_down)
  = Ok {| code := 201;
          payload := JInvitation Sample.the_email_invitation
                       "http://localhost:5173/join/a1b2c30" |}
  /\ In (OpSendMail Sample.the_mail)
        (journal (snd (postInvitation "ev1" Sample.request (Some "alice")
                         Sample.audit_down)))
  /\ emailLogs (db (snd (postInvitation "ev1" Sample.request (Some "alice")
                           Sample.audit_down))) = [].
Proof.
  vm_compute. split; [reflexivity|]. split; [| reflexivity].
  do 7 right. left. reflexivity.
Qed.

(** *** Audit writes that fail *)

Lemma checkRateLimit_emailLogFault f admin settings w :
  fst (checkRateLimit admin settings (set_emailLogFault f w))
  = fst (checkRateLimit admin settings w).
Proof.
  destruct admin as [a|]; [| reflexivity].
  destruct (String.eqb_spec a "") as [->|Hne]; [reflexivity|].
  rewrite !(checkRateLimit_eq a settings _ Hne). cbv zeta.
  change (env (set_emailLogFault f w)) with (env w).
  change (now (set_emailLogFault f w)) with (now w).
  change (countNonRateLimited a (now w - HOUR) (set_emailLogFault f w))
    with (countNonRateLimited a (now w - HOUR) w).
  change (countNonRateLimited a (now w - DAY) (set_emailLogFault f w))
    with (countNonRateLimited a (now w - DAY) w).
  destruct (_ && _); [reflexivity|].
  destruct (_ && _); reflexivity.
Qed.

(** The status the sender returns does not depend on whether its audit
    write succeeds. *)
Lemma sendInvitationEmail_status_emailLogFault f o w :
  fst (sendInvitationEmail o (set_emailLogFault f w))
  = fst (sendInvitationEmail o w).
Proof.
  rewrite !sendInvitationEmail_run. cbv zeta.
  change (systemSetting (db (set_emailLogFault f w))) with (systemSetting (db w)).
  assert (D : forall w1 w2, smtpFault w1 = smtpFault w2 ->
             fst (delivered o (systemSetting (db w)) w1)
             = fst (delivered o (systemSetting (db w)) w2)).
  { intros w1 w2 E. unfold delivered. rewrite E.
    destruct (smtpFault w2); reflexivity. }
  destruct (transport_unusable _ _); [reflexivity|].
  destruct (negb (Js.nullish (o_skipRateCheck o) false)).
  - pose proof (checkRateLimit_emailLogFault f (o_adminId o) (systemSetting (db w))
                  (log_op OpSettingsFind w)) as E.
    change (set_emailLogFault f (log_op OpSettingsFind w))
      with (log_op OpSettingsFind (set_emailLogFault f w)) in E.
    destruct (checkRateLimit_frame (o_adminId o) (systemSetting (db w))
                (log_op OpSettingsFind w)) as (r1 & ops1 & E1 & _).
    destruct (checkRateLimit_frame (o_adminId o) (systemSetting (db w))
                (log_op OpSettingsFind (set_emailLogFault f w)))
      as (r2 & ops2 & E2 & _).
    rewrite E1, E2 in *. cbn [fst] in E. injection E as ->.
    destruct (negb (allowed r1)); [reflexivity|].
    apply D. reflexivity.
  - apply D. reflexivity.
Qed.

(** C10, as the code has it.  When the audit table cannot be written,
    [logEmail] swallows the failure: it returns normally, adds no row and
    prints a line on the console.  So the sender never throws because of
    it and returns the status it returns when the write succeeds (sent,
    when the transport delivers), and a dispatch that has passed the gate
    gets the answer it gets with a working audit table, while no audit
    record is left behind.  The row for a request turned away at the gate
    is written by the route itself, not through [logEmail]: there the
    failure is not swallowed and the request fails instead of being
    answered 429. *)
Theorem C10_logEmail_swallows_write_failure
    (o : InvitationEmailOptions) (w : World) (e : Js.Thrown)
    (id : string) (body : InvitationPayload) (adminId : option string)
    (ev : Event) :
  emailLogFault w = Some e ->
  let healthy := set_emailLogFault None w in
  (forall p,
     fst (logEmail p w) = Ok tt
     /\ emailLogs (db (snd (logEmail p w))) = emailLogs (db w)
     /\ In SWALLOWED (console (snd (logEmail p w))))
  /\ (exists st,
        fst (sendInvitationEmail o w) = Ok st
        /\ fst (sendInvitationEmail o healthy) = Ok st)
  /\ emailLogs (db (snd (sendInvitationEmail o w))) = emailLogs (db w)
  /\ In SWALLOWED (console (snd (sendInvitationEmail o w)))
  /\ (o_skipRateCheck o = Some true ->
      transport_unusable (o_event o) (systemSetting (db w)) = false ->
      smtpFault w = None ->
      fst (sendInvitationEmail o w) = Ok St_sent)
  /\ (Prisma.event_lookup id (db w) = Some ev ->
      pl_deliveryMethod body = EMAIL ->
      Js.truthy (pl_email body) = true ->
      isEmailSendingEnabled (systemSetting (db w)) = true ->
      (gate_open adminId w = true ->
       fst (postInvitation id body adminId w)
       = fst (postInvitation id body adminId healthy)
       /\ emailLogs (db (snd (postInvitation id body adminId w)))
          = emailLogs (db w))
      /\ (gate_open adminId w = false ->
          fst (postInvitation id body adminId w) = Throw e
          /\ exists msg,
               fst (postInvitation id body adminId healthy)
               = Ok {| code := 429; payload := JMessage msg |})).
Proof.
  intros Hf. cbv zeta.
  split.
  { intros p. rewrite logEmail_run, Hf. cbn.
    split; [reflexivity|]. split; [reflexivity|].
    apply in_or_app. right. left. reflexivity. }
  destruct (sendInvitationEmail_audit o w) as (st & err & Hst & Haud).
  destruct Haud as (_ & _ & _ & _ & Hlogs). rewrite Hf in Hlogs.
  split.
  { exists st. split; [exact Hst|].
    rewrite sendInvitationEmail_status_emailLogFault. exact Hst. }
  split; [exact (proj1 Hlogs)|].
  split; [exact (proj2 Hlogs)|].
  split.
  { intros Hs Hu Hsm. rewrite (sendInvitationEmail_skipping o w Hs), Hu.
    destruct (delivered_effect o (systemSetting (db w)) (log_op OpSettingsFind w))
      as (H1 & _).
    rewrite H1. cbn [smtpFault log_op]. rewrite Hsm. reflexivity. }
  intros H Hm He Hen. split.
  - intros Hg.
    destruct (postInvitation_sends id body adminId ev w H Hm He Hen Hg)
      as (_ & _ & _ & H1 & _ & _ & H4).
    destruct (postInvitation_sends id body adminId ev (set_emailLogFault None w)
                H Hm He Hen Hg) as (_ & _ & _ & H1' & _).
    rewrite Hf in H4.
    split; [rewrite H1, H1'; reflexivity | exact (proj1 H4)].
  - intros Hg.
    destruct (gate_closed_operator adminId w Hg) as (a & -> & Ha & Hq).
    destruct (postInvitation_gate_denied id body a ev w H Hm He Hen Ha Hq)
      as (msg0 & _ & _ & _ & H4).
    destruct (postInvitation_gate_denied id body a ev (set_emailLogFault None w)
                H Hm He Hen Ha Hq) as (msg & _ & _ & _ & H4').
    rewrite Hf in H4. cbn [emailLogFault set_emailLogFault] in H4'.
    split; [exact (proj1 H4)|]. exists msg. exact (proj1 H4').
Qed.

Lemma C10_logEmail_swallows_write_failure_witness :
  emailLogFault Sample.audit_down = Some (Js.JsError "audit table unavailable")
  /\ fst (sendInvitationEmail
            (route_options "ev1" Sample.request (Some "alice") Sample.hunt
               Sample.audit_down)
            Sample.audit_down) = Ok St_sent
  /\ emailLogs
       (db (snd (sendInvitationEmail
                   (route_options "ev1" Sample.request (Some "alice") Sample.hunt
                      Sample.audit_down)
                   Sample.audit_down))) = [].
Proof.
  assert (H : emailLogFault Sample.audit_down
              = Some (Js.JsError "audit table unavailable")) by reflexivity.
  split; [exact H|].
  pose proof (C10_logEmail_swallows_write_failure
                (route_options "ev1" Sample.request (Some "alice") Sample.hunt
                   Sample.audit_down)
                Sample.audit_down (Js.JsError "audit table unavailable")
                "ev1" Sample.request (Some "alice") Sample.hunt H) as C.
  cbv zeta in C.
  destruct C as (_ & _ & C3 & _ & C5 & _).
  split; [exact (C5 eq_refl eq_refl eq_refl) | exact C3].
Defined.

(** The claim fails as stated.  [alice] is at her hourly ceiling and the
    audit table is out of order: the gate turns her request away, its
    audit write throws, and the request ends with that error rather than
    with the 429 answer it gets when the table works. *)
Lemma C10_gate_write_failure_fails_request :
  fst (postInvitation "ev1" Sample.request (Some "alice") Sample.busy_audit_down)
  = Throw (Js.JsError "audit table unavailable")
  /\ fst (postInvitation "ev1" Sample.request (Some "alice") Sample.busy_world)
     = Ok {| code := 429; payload := JMessage "Limit erreicht (2 pro Stunde)." |}.
Proof. vm_compute. split; reflexivity. Qed.

(** ** Template renderer: the join link *)

Lemma string_app_assoc (a b c : string) : (a ++ b) ++ c = a ++ b ++ c.
Proof. induction a as [|x a IH]; simpl; [reflexivity | now rewrite IH]. Qed.

Lemma string_app_nil_r (a : string) : a ++ "" = a.
Proof. induction a as [|x a IH]; simpl; [reflexivity | now rewrite IH]. Qed.

Lemma string_app_length (a b : string) :
  String.length (a ++ b) = (String.length a + String.length b)%nat.
Proof. induction a as [|x a IH]; simpl; [reflexivity | now rewrite IH]. Qed.

Lemma prefix_cons a p b s :
  String.prefix (String a p) (String b s)
  = if Ascii.eqb a b then String.prefix p s else false.
Proof.
  simpl. destruct (ascii_dec a b) as [->|Hne].
  - now rewrite Ascii.eqb_refl.
  - apply Ascii.eqb_neq in Hne. now rewrite Hne.
Qed.

Lemma prefix_app p s : String.prefix p (p ++ s) = true.
Proof.
  induction p as [|a p IH]; [destruct s; reflexivity|].
  simpl append. rewrite prefix_cons, Ascii.eqb_refl. exact IH.
Qed.

Lemma prefix_split p s :
  String.prefix p s = true -> s = p ++ drop (String.length p) s.
Proof.
  revert s. induction p as [|a p IH]; intros s H; [reflexivity|].
  destruct s as [|b s]; [discriminate|].
  rewrite prefix_cons in H.
  destruct (Ascii.eqb_spec a b) as [->|]; [| discriminate].
  simpl. f_equal. now apply IH.
Qed.

Lemma prefix_length p s :
  String.prefix p s = true -> (String.length p <= String.length s)%nat.
Proof.
  intros H. rewrite (prefix_split p s H), string_app_length. lia.
Qed.

Lemma includes_prefix n s : String.prefix n s = true -> Js.includes s n = true.
Proof. intros H. destruct s; cbn [Js.includes]; rewrite H; reflexivity. Qed.

Lemma includes_mid a n b : Js.includes (a ++ n ++ b) n = true.
Proof.
  induction a as [|x a IH].
  - change ("" ++ n ++ b) with (n ++ b). apply includes_prefix, prefix_app.
  - simpl append. cbn [Js.includes]. rewrite IH. apply orb_true_r.
Qed.

Lemma includes_nil s : Js.includes s "" = true.
Proof. destruct s; reflexivity. Qed.

Lemma split_first_spec pat s b a :
  split_first pat s = Some (b, a) -> s = b ++ pat ++ a.
Proof.
  revert b a. induction s as [|c s IH]; intros b a H.
  - cbn [split_first] in H. destruct (String.prefix pat "") eqn:E; [| discriminate].
    injection H as <- <-. exact (prefix_split pat "" E).
  - cbn [split_first] in H. destruct (String.prefix pat (String c s)) eqn:E.
    + injection H as <- <-. exact (prefix_split pat _ E).
    + destruct (split_first pat s) as [[b0 a0]|]; [| discriminate].
      injection H as <- <-. simpl. f_equal. now apply IH.
Qed.

Lemma includes_split_first pat s :
  Js.includes s pat = true -> exists b a, split_first pat s = Some (b, a).
Proof.
  induction s as [|c s IH]; intros H.
  - simpl in H. rewrite orb_false_r in H. simpl. rewrite H. eauto.
  - cbn [Js.includes] in H. cbn [split_first].
    destruct (String.prefix pat (String c s)); [eauto|].
    destruct (IH H) as (b & a & E). rewrite E. eauto.
Qed.

Lemma getSubstitution_plain matched before after repl :
  no_dollar repl -> getSubstitution matched before after repl = repl.
Proof.
  unfold no_dollar. induction repl as [|c r IH]; intros H; [reflexivity|].
  simpl in H. apply orb_false_iff in H as [Hc Hr].
  cbn [getSubstitution]. rewrite Hc. f_equal. now apply IH.
Qed.

(** Replacing by a text without [$]: the first occurrence gives way to the
    text itself. *)
Lemma replace_plain s pat repl :
  Js.includes s pat = true -> no_dollar repl ->
  exists b a, s = b ++ pat ++ a /\ replace s pat repl = b ++ repl ++ a.
Proof.
  intros Hi Hd. destruct (includes_split_first pat s Hi) as (b & a & E).
  exists b, a. split; [now apply split_first_spec|].
  unfold replace. rewrite E, getSubstitution_plain by exact Hd. reflexivity.
Qed.

Lemma occurrences_short needle s :
  (String.length s < String.length needle)%nat -> occurrences needle s = 0%nat.
Proof.
  induction s as [|c s IH]; intros H.
  - simpl. destruct needle; [simpl in H; lia | reflexivity].
  - cbn [occurrences].
    destruct (String.prefix needle (String c s)) eqn:E.
    + apply prefix_length in E. lia.
    + rewrite IH; [reflexivity | simpl in H; lia].
Qed.

Lemma occurrences_self needle :
  needle <> "" -> occurrences needle needle = 1%nat.
Proof.
  intros H. destruct needle as [|c s]; [congruence|].
  cbn [occurrences].
  rewrite <- (string_app_nil_r (String c s)) at 2. rewrite prefix_app.
  rewrite occurrences_short; [reflexivity | simpl; lia].
Qed.

(** A text that is not a prefix of [s] and holds no line feed is not a
    prefix of [s] followed by a line feed and more. *)
Lemma prefix_blocked_by_line_feed p s t :
  single_line p -> String.prefix p s = false ->
  String.prefix p (s ++ String (ascii_of_nat 10) t) = false.
Proof.
  unfold single_line. revert s. induction p as [|a p IH]; intros s Hp H.
  - destruct s; discriminate.
  - simpl in Hp. apply orb_false_iff in Hp as [Ha Hp].
    destruct s as [|b s].
    + simpl append. rewrite prefix_cons, Ha. reflexivity.
    + simpl append. rewrite prefix_cons in *.
      destruct (Ascii.eqb a b); [now apply IH | reflexivity].
Qed.

Lemma prefix_line_feed_head p t :
  single_line p -> p <> "" ->
  String.prefix p (String (ascii_of_nat 10) t) = false.
Proof.
  intros Hl Hne. exact (prefix_blocked_by_line_feed p "" t Hl
                          ltac:(destruct p; [congruence | reflexivity])).
Qed.

Lemma occurrences_appended body link :
  Js.includes body link = false -> single_line link ->
  occurrences link (body ++ LF ++ LF ++ link) = 1%nat.
Proof.
  intros Hi Hl.
  assert (Hne : link <> "") by (intros ->; now rewrite includes_nil in Hi).
  change (LF ++ LF ++ link)
    with (String (ascii_of_nat 10) (String (ascii_of_nat 10) link)).
  induction body as [|c body IH].
  - change ("" ++ String (ascii_of_nat 10) (String (ascii_of_nat 10) link))
      with (String (ascii_of_nat 10) (String (ascii_of_nat 10) link)).
    cbn [occurrences].
    rewrite !(prefix_line_feed_head link _ Hl Hne), (occurrences_self link Hne).
    reflexivity.
  - cbn [Js.includes] in Hi. apply orb_false_iff in Hi as [Hp Hi].
    change (String c body ++ String (ascii_of_nat 10) (String (ascii_of_nat 10) link))
      with (String c (body ++ String (ascii_of_nat 10)
                                     (String (ascii_of_nat 10) link))).
    cbn [occurrences].
    change (String c (body ++ String (ascii_of_nat 10)
                                     (String (ascii_of_nat 10) link)))
      with (String c body ++ String (ascii_of_nat 10)
                                    (String (ascii_of_nat 10) link)).
    rewrite (prefix_blocked_by_line_feed link (String c body) _ Hl Hp).
    rewrite (IH Hi). reflexivity.
Qed.

Lemma ensureInviteLink_cases body link :
  (Js.includes body link = true -> ensureInviteLink body link = body)
  /\ (Js.includes body link = false -> Js.includes body PLACEHOLDER = true ->
      ensureInviteLink body link = replace body PLACEHOLDER link)
  /\ (Js.includes body link = false -> Js.includes body PLACEHOLDER = false ->
      ensureInviteLink body link = body ++ LF ++ LF ++ link).
Proof.
  unfold ensureInviteLink.
  destruct (Js.includes body link); destruct (Js.includes body PLACEHOLDER);
    repeat split; intros; try reflexivity; discriminate.
Qed.

Lemma ensureInviteLink_includes body link :
  no_dollar link -> Js.includes (ensureInviteLink body link) link = true.
Proof.
  intros Hd. destruct (ensureInviteLink_cases body link) as (C1 & C2 & C3).
  destruct (Js.includes body link) eqn:E1.
  - rewrite (C1 eq_refl). exact E1.
  - destruct (Js.includes body PLACEHOLDER) eqn:E2.
    + rewrite (C2 eq_refl eq_refl).
      destruct (replace_plain body PLACEHOLDER link E2 Hd) as (b & a & _ & ->).
      apply includes_mid.
    + rewrite (C3 eq_refl eq_refl).
      rewrite <- (string_app_nil_r link) at 1.
      rewrite <- (string_app_assoc LF LF), <- (string_app_assoc body).
      apply includes_mid.
Qed.

(** C8, as the code has it.  [ensureInviteLink] returns the body unchanged
    when it already holds the literal link; otherwise, when the body holds
    the placeholder, it replaces the first placeholder by the link (for a
    link without [$], which [replace] would expand: the link itself), so
    the body is not returned unchanged; and when the body holds neither it
    appends an empty line and the link, which then occurs exactly once in
    the result if the link holds no line feed.  For a link without [$] the
    appended form arises only in that last case, and the helper is
    idempotent.  [ensureInviteLinkPlaceholder], used by the sender, looks
    for the placeholder only and appends a default line holding the
    placeholder; it is idempotent. *)
Theorem C8_ensureInviteLink (body link : string) :
  (Js.includes body link = true -> ensureInviteLink body link = body)
  /\ (Js.includes body link = false -> Js.includes body PLACEHOLDER = true ->
      ensureInviteLink body link = replace body PLACEHOLDER link
      /\ (no_dollar link ->
          ensureInviteLink body link <> body
          /\ exists b a,
               body = b ++ PLACEHOLDER ++ a
               /\ ensureInviteLink body link = b ++ link ++ a))
  /\ (Js.includes body link = false -> Js.includes body PLACEHOLDER = false ->
      ensureInviteLink body link = body ++ LF ++ LF ++ link
      /\ (single_line link ->
          occurrences link (ensureInviteLink body link) = 1%nat))
  /\ (no_dollar link ->
      (ensureInviteLink body link = body ++ LF ++ LF ++ link ->
       Js.includes body link = false /\ Js.includes body PLACEHOLDER = false)
      /\ ensureInviteLink (ensureInviteLink body link) link
         = ensureInviteLink body link)
  /\ ensureInviteLinkPlaceholder body
     = (if Js.includes body PLACEHOLDER then body
        else body ++ LF ++ LF ++ "Einladungslink: " ++ PLACEHOLDER)
  /\ ensureInviteLinkPlaceholder (ensureInviteLinkPlaceholder body)
     = ensureInviteLinkPlaceholder body.
Proof.
  destruct (ensureInviteLink_cases body link) as (C1 & C2 & C3).
  split; [exact C1|].
  split.
  { intros E1 E2. split; [exact (C2 E1 E2)|].
    intros Hd. split.
    - intros Heq. pose proof (ensureInviteLink_includes body link Hd) as Hi.
      rewrite Heq, E1 in Hi. discriminate.
    - destruct (replace_plain body PLACEHOLDER link E2 Hd) as (b & a & Hb & Hr).
      exists b, a. split; [exact Hb|]. rewrite (C2 E1 E2). exact Hr. }
  split.
  { intros E1 E2. split; [exact (C3 E1 E2)|].
    intros Hl. rewrite (C3 E1 E2). now apply occurrences_appended. }
  split.
  { intros Hd. split.
    - intros Heq. apply (f_equal String.length) in Heq.
      rewrite !string_app_length in Heq.
      destruct (Js.includes body link) eqn:E1.
      + rewrite (C1 eq_refl) in Heq. simpl in Heq. lia.
      + split; [reflexivity|].
        destruct (Js.includes body PLACEHOLDER) eqn:E2; [| reflexivity].
        destruct (replace_plain body PLACEHOLDER link E2 Hd) as (b & a & Hb & Hr).
        rewrite (C2 eq_refl eq_refl), Hr in Heq. rewrite Hb in Heq.
        rewrite !string_app_length in Heq. simpl in Heq. lia.
    - pose proof (ensureInviteLink_includes body link Hd) as Hi.
      destruct (ensureInviteLink_cases (ensureInviteLink body link) link)
        as (D1 & _). exact (D1 Hi). }
  split.
  { unfold ensureInviteLinkPlaceholder.
    destruct (Js.includes body PLACEHOLDER); reflexivity. }
  unfold ensureInviteLinkPlaceholder.
  destruct (Js.includes body PLACEHOLDER) eqn:E; [now rewrite E|].
  assert (Hi : Js.includes (body ++ LF ++ LF ++ "Einladungslink: {{inviteLink}}")
                           PLACEHOLDER = true).
  { change (body ++ LF ++ LF ++ "Einladungslink: {{inviteLink}}")
      with (body ++ (LF ++ LF ++ "Einladungslink: ") ++ PLACEHOLDER ++ "").
    rewrite <- (string_app_assoc body). apply includes_mid. }
  rewrite Hi. reflexivity.
Qed.

(** The claim fails as stated.  The body holds the placeholder, so it is
    not the case that neither placeholder nor link is present; yet the
    body is not returned unchanged: its placeholder gives way to the
    link. *)
Lemma C8_placeholder_replaced_not_unchanged :
  Js.includes "Join here: {{inviteLink}}" PLACEHOLDER = true
  /\ ensureInviteLink "Join here: {{inviteLink}}" "http://localhost:5173/join/a1b2c30"
     = "Join here: http://localhost:5173/join/a1b2c30".
Proof. split; reflexivity. Qed.

(** Two more inputs on which the stated property fails: a link that holds
    [$$] is not reproduced by [replace], so a second application appends
    it; and a link that holds line feeds can occur twice after being
    appended once. *)
Example ensureInviteLink_dollar_not_idempotent :
  ensureInviteLink "{{inviteLink}}" "$$" = "$"
  /\ ensureInviteLink (ensureInviteLink "{{inviteLink}}" "$$") "$$"
     = "$" ++ LF ++ LF ++ "$$".
Proof. split; reflexivity. Qed.

Example ensureInviteLink_line_feed_twice :
  Js.includes "a" ("a" ++ LF ++ LF ++ "a") = false
  /\ occurrences ("a" ++ LF ++ LF ++ "a")
       (ensureInviteLink "a" ("a" ++ LF ++ LF ++ "a")) = 2%nat.
Proof. split; reflexivity. Qed.

(** In the sender, a template without placeholder gets the default line,
    and the rendered text then holds the link once. *)
Example sender_body_holds_link_once :
  occurrences "http://localhost:5173/join/a1b2c30"
    (renderTemplate (ensureInviteLinkPlaceholder "Come along!")
       (dispatch_context
          (route_options "ev1" Sample.request (Some "alice") Sample.hunt
             Sample.quiet_world))) = 1%nat.
Proof. reflexivity. Qed.

(** ** What the routes leave alone *)

Lemma same_surroundings_refl w : same_surroundings w w.
Proof. unfold same_surroundings. repeat split; reflexivity. Qed.

Lemma same_surroundings_trans w1 w2 w3 :
  same_surroundings w1 w2 -> same_surroundings w2 w3 -> same_surroundings w1 w3.
Proof.
  unfold same_surroundings.
  intros (A1 & A2 & A3 & A4 & A5 & A6 & A7 & A8 & A9 & A10 & A11)
         (B1 & B2 & B3 & B4 & B5 & B6 & B7 & B8 & B9 & B10 & B11).
  repeat split; congruence.
Qed.

Lemma keeps_ret {A} (a : A) : keeps_surroundings (ret a).
Proof. intros w. apply same_surroundings_refl. Qed.

Lemma keeps_bind {A B} (m : Async A) (k : A -> Async B) :
  keeps_surroundings m -> (forall a, keeps_surroundings (k a)) ->
  keeps_surroundings (bind m k).
Proof.
  intros Hm Hk w. unfold bind. specialize (Hm w).
  destruct (m w) as [[a|e] w1]; cbn [snd] in *; [| exact Hm].
  eapply same_surroundings_trans; [exact Hm | apply Hk].
Qed.

Lemma keeps_try_catch {A} (m : Async A) (h : Js.Thrown -> Async A) :
  keeps_surroundings m -> (forall e, keeps_surroundings (h e)) ->
  keeps_surroundings (try_catch m h).
Proof.
  intros Hm Hh w. unfold try_catch. specialize (Hm w).
  destruct (m w) as [[a|e] w1]; cbn [snd] in *; [exact Hm|].
  eapply same_surroundings_trans; [exact Hm | apply Hh].
Qed.

Lemma keeps_gets {A} (f : World -> A) : keeps_surroundings (gets f).
Proof. intros w. apply same_surroundings_refl. Qed.

Lemma keeps_print line : keeps_surroundings (modify (print line)).
Proof. intros w. unfold same_surroundings. cbn. repeat split; reflexivity. Qed.

Lemma keeps_settings_find : keeps_surroundings Prisma.systemSetting_findUnique.
Proof. intros w. unfold same_surroundings. cbn. repeat split; reflexivity. Qed.

Lemma keeps_event_find id : keeps_surroundings (Prisma.event_findUnique id).
Proof. intros w. unfold same_surroundings. cbn. repeat split; reflexivity. Qed.

Lemma keeps_count a t : keeps_surroundings (Prisma.emailLog_count a t).
Proof. intros w. unfold same_surroundings. cbn. repeat split; reflexivity. Qed.

Lemma keeps_emailLog_create d : keeps_surroundings (Prisma.emailLog_create d).
Proof.
  intros w. unfold same_surroundings, Prisma.emailLog_create.
  destruct (emailLogFault w) eqn:E; cbn; rewrite ?E; repeat split; reflexivity.
Qed.

Lemma keeps_invitation_create id tok m mail :
  keeps_surroundings (Prisma.invitation_create id tok m mail).
Proof. intros w. unfold same_surroundings. cbn. repeat split; reflexivity. Qed.

Lemma keeps_invitation_delete id : keeps_surroundings (Prisma.invitation_delete id).
Proof.
  intros w. unfold same_surroundings, Prisma.invitation_delete.
  cbn [db log_op invitations].
  destruct (Prisma.remove_invitation id (invitations (db w))); cbn;
    repeat split; reflexivity.
Qed.

Lemma keeps_invitation_findFirst id e :
  keeps_surroundings (Prisma.invitation_findFirst id e).
Proof. intros w. unfold same_surroundings. cbn. repeat split; reflexivity. Qed.

Lemma keeps_invitation_update id b t :
  keeps_surroundings (Prisma.invitation_update id b t).
Proof.
  intros w. unfold same_surroundings, Prisma.invitation_update.
  cbn [db log_op invitations].
  destruct (Prisma.update_invitation id _ (invitations (db w))) as [[u l]|]; cbn;
    repeat split; reflexivity.
Qed.

Lemma keeps_sendMail m : keeps_surroundings (sendMail m).
Proof.
  intros w. unfold same_surroundings, sendMail.
  destruct (smtpFault w) eqn:E; cbn; rewrite ?E; repeat split; reflexivity.
Qed.

(** Breaks a computation into its steps down to the primitives. *)
Ltac keeps :=
  repeat first
    [ apply keeps_ret
    | apply keeps_gets
    | apply keeps_print
    | apply keeps_settings_find
    | apply keeps_event_find
    | apply keeps_count
    | apply keeps_emailLog_create
    | apply keeps_invitation_create
    | apply keeps_invitation_delete
    | apply keeps_invitation_findFirst
    | apply keeps_invitation_update
    | apply keeps_sendMail
    | apply keeps_bind
    | apply keeps_try_catch
    | progress cbv beta zeta
    | match goal with
      | |- forall _, _ => intro
      | |- keeps_surroundings (if ?c then _ else _) => destruct c
      | |- keeps_surroundings (match ?x with _ => _ end) => destruct x
      end ].

Lemma keeps_checkRateLimit admin settings :
  keeps_surroundings (checkRateLimit admin settings).
Proof. unfold checkRateLimit, countEmails. keeps. Qed.

Lemma keeps_logEmail p : keeps_surroundings (logEmail p).
Proof. unfold logEmail. keeps. Qed.

Lemma keeps_sendInvitationEmail o : keeps_surroundings (sendInvitationEmail o).
Proof.
  unfold sendInvitationEmail, getEmailConfig.
  apply keeps_bind; [apply keeps_settings_find|]. intros settings. cbv zeta.
  destruct (_ || _).
  - apply keeps_bind; [apply keeps_logEmail | keeps].
  - destruct (negb _).
    + apply keeps_bind; [apply keeps_checkRateLimit|]. intros rate.
      destruct (negb _).
      * apply keeps_bind; [apply keeps_logEmail | keeps].
      * apply keeps_try_catch.
        -- apply keeps_bind; [apply keeps_sendMail|]. intros _.
           apply keeps_bind; [apply keeps_logEmail | keeps].
        -- intros e. apply keeps_bind; [apply keeps_logEmail | keeps].
    + apply keeps_try_catch.
      * apply keeps_bind; [apply keeps_sendMail|]. intros _.
        apply keeps_bind; [apply keeps_logEmail | keeps].
      * intros e. apply keeps_bind; [apply keeps_logEmail | keeps].
Qed.

Lemma keeps_issueAndSend id body adminId ev :
  keeps_surroundings (issueAndSend id body adminId ev).
Proof.
  unfold issueAndSend.
  apply keeps_bind; [apply keeps_gets|]. intros tok.
  apply keeps_bind; [apply keeps_invitation_create|]. intros inv.
  apply keeps_bind; [apply keeps_gets|]. intros e.
  destruct (_ && _); [| unfold respond; keeps].
  apply keeps_bind; [apply keeps_sendInvitationEmail|].
  intros [| | |]; unfold respond; keeps.
Qed.

Lemma keeps_postInvitation id body adminId :
  keeps_surroundings (postInvitation id body adminId).
Proof.
  unfold postInvitation, precheckRateLimit, getEmailConfig.
  apply keeps_bind; [apply keeps_event_find|]. intros [ev|];
    [| unfold respond; keeps].
  destruct (_ && _); [unfold respond; keeps|].
  apply keeps_bind; [apply keeps_settings_find|]. intros settings. cbv zeta.
  destruct (_ && _); [unfold respond; keeps|].
  destruct (_ && _); [| apply keeps_issueAndSend].
  apply keeps_bind.
  { apply keeps_bind; [apply keeps_settings_find|]. intros s.
    apply keeps_checkRateLimit. }
  intros rate. destruct (negb _); [unfold respond; keeps | apply keeps_issueAndSend].
Qed.

Lemma keeps_putInvitation e id flag : keeps_surroundings (putInvitation e id flag).
Proof. unfold putInvitation, respond. keeps. Qed.

(** ** Link invitations *)

Lemma postInvitation_link id body adminId ev w :
  Prisma.event_lookup id (db w) = Some ev ->
  pl_deliveryMethod body = LINK ->
  fst (postInvitation id body adminId w)
  = Ok {| code := 201; payload := JInvitation (issued id body w) (join_link w) |}
  /\ snd (postInvitation id body adminId w)
     = after_issuing id body (log_ops [OpEventFind id; OpSettingsFind] w).
Proof.
  intros H Hm.
  assert (E : postInvitation id body adminId w
              = issueAndSend id body adminId ev
                  (log_ops [OpEventFind id; OpSettingsFind] w)).
  { unfold postInvitation, bind at 1 2, Prisma.event_findUnique,
      Prisma.systemSetting_findUnique.
    rewrite H, Hm. cbn [is_EMAIL andb db log_op].
    f_equal. unfold log_ops, log_op. cbn. rewrite <- !app_assoc. reflexivity. }
  rewrite E, issueAndSend_link by (rewrite Hm; reflexivity).
  split; reflexivity.
Qed.

(** X1. A link invitation for an existing event is always issued: whatever the
    operator, the settings, the quota and the state of transport and audit
    table, the route answers 201 with the new active invitation and its
    join link, after reading the event and the settings and creating the
    row, and nothing else: no quota query, no mail, no audit write. *)
Theorem link_invitation_always_issued
    (id : string) (body : InvitationPayload) (adminId : option string)
    (ev : Event) (w : World) :
  Prisma.event_lookup id (db w) = Some ev ->
  pl_deliveryMethod body = LINK ->
  let r := postInvitation id body adminId w in
  fst r = Ok {| code := 201;
                payload := JInvitation (issued id body w) (join_link w) |}
  /\ journal (snd r)
     = (journal w ++ [OpEventFind id; OpSettingsFind;
                      OpInvitationCreate (inv_id (issued id body w))])%list
  /\ invitations (db (snd r)) = (invitations (db w) ++ [issued id body w])%list
  /\ emailLogs (db (snd r)) = emailLogs (db w)
  /\ isActive (issued id body w) = true
  /\ inv_eventId (issued id body w) = id.
Proof.
  intros H Hm. cbv zeta.
  destruct (postInvitation_link id body adminId ev w H Hm)
    as (H1 & H2).
  rewrite H1, H2. split; [reflexivity|].
  split; [cbn; rewrite <- !app_assoc; reflexivity|].
  repeat split; reflexivity.
Qed.

Lemma link_invitation_always_issued_witness :
  Prisma.event_lookup "ev1" (db Sample.unconfigured_world) = Some Sample.hunt
  /\ pl_deliveryMethod Sample.link_request = LINK
  /\ fst (postInvitation "ev1" Sample.link_request None Sample.unconfigured_world)
     = Ok {| code := 201;
             payload := JInvitation Sample.the_invitation
                          "http://localhost:5173/join/a1b2c30" |}.
Proof.
  assert (H1 : Prisma.event_lookup "ev1" (db Sample.unconfigured_world)
               = Some Sample.hunt) by reflexivity.
  assert (H2 : pl_deliveryMethod Sample.link_request = LINK) by reflexivity.
  split; [exact H1|]. split; [exact H2|].
  exact (proj1 (link_invitation_always_issued "ev1" Sample.link_request None
                  Sample.hunt Sample.unconfigured_world H1 H2)).
Defined.

(** ** From issue to join *)

(** The join route on a token whose invitation and event are found. *)
Lemma getJoin_found tok w i e :
  invitation_by_token tok w = Some i ->
  Prisma.event_lookup (inv_eventId i) (db w) = Some e ->
  fst (getJoin tok w)
  = Ok (if negb (isActive i) then {| code := 400; payload := JMessage NEUTRAL |}
        else if endsAt e <? now w
             then {| code := 400; payload := JMessage "Event expired" |}
             else {| code := 200;
                     payload := JJoin (mapEventResponse e) (token i)
                                      (deliveryMethod i) |}).
Proof.
  unfold invitation_by_token. intros Hi He.
  unfold getJoin, bind, Prisma.invitation_findUnique_token.
  rewrite Hi, He. cbn.
  destruct (isActive i); cbn; [| reflexivity].
  destruct (endsAt e <? now w); reflexivity.
Qed.

Lemma getJoin_unknown tok w :
  invitation_by_token tok w = None ->
  fst (getJoin tok w) = Ok {| code := 404; payload := JMessage "Invitation not found" |}.
Proof.
  unfold invitation_by_token. intros Hi.
  unfold getJoin, bind, Prisma.invitation_findUnique_token.
  rewrite Hi. reflexivity.
Qed.

(** When the route answers with an invitation, it is the one it has just
    stored, for an event that exists. *)
Lemma postInvitation_created id body adminId w c inv link :
  fst (postInvitation id body adminId w)
  = Ok {| code := c; payload := JInvitation inv link |} ->
  exists ev,
    Prisma.event_lookup id (db w) = Some ev
    /\ c = 201 /\ inv = issued id body w /\ link = join_link w
    /\ invitations (db (snd (postInvitation id body adminId w)))
       = (invitations (db w) ++ [issued id body w])%list.
Proof.
  intros Hr.
  destruct (Prisma.event_lookup id (db w)) as [ev|] eqn:H.
  2:{ rewrite (postInvitation_unknown_event id body adminId w H) in Hr.
      discriminate. }
  exists ev. split; [reflexivity|].
  destruct (pl_deliveryMethod body) eqn:Hm.
  { destruct (postInvitation_link id body adminId ev w H Hm) as (H1 & H3).
    rewrite H3. rewrite H1 in Hr. injection Hr as <- <- <-.
    repeat split; reflexivity. }
  destruct (Js.truthy (pl_email body)) eqn:He.
  2:{ rewrite (postInvitation_invalid id body adminId ev w H Hm He) in Hr.
      discriminate. }
  destruct (isEmailSendingEnabled (systemSetting (db w))) eqn:Hen.
  2:{ rewrite (postInvitation_disabled id body adminId ev w H Hm He Hen) in Hr.
      discriminate. }
  destruct (gate_open adminId w) eqn:Hg.
  - destruct (postInvitation_sends id body adminId ev w H Hm He Hen Hg)
      as (_ & _ & _ & H1 & _ & H3 & _).
    rewrite H1 in Hr. destruct (smtpFault w); [discriminate|].
    injection Hr as <- <- <-. auto.
  - destruct (gate_closed_operator adminId w Hg) as (a & -> & Ha & Hq).
    destruct (postInvitation_gate_denied id body a ev w H Hm He Hen Ha Hq)
      as (msg & _ & _ & _ & H4).
    destruct (emailLogFault w); destruct H4 as [H4 _]; rewrite H4 in Hr;
      discriminate.
Qed.

Lemma find_skip {A} (f : A -> bool) (l l' : list A) :
  (forall x, In x l -> f x = false) -> find f (l ++ l') = find f l'.
Proof.
  induction l as [|a l IH]; intros H; [reflexivity|].
  simpl. rewrite (H a (or_introl eq_refl)). apply IH.
  intros x Hx. apply H. now right.
Qed.

(** X2. A token that the route has handed out resolves: when the route answers
    with an invitation and its random token was not in use before, the
    link it returns ends in that token, and from then on the join route
    answers that token with the event view until the event's end, and
    with "expired" afterwards. *)
Theorem issued_token_resolves
    (id : string) (body : InvitationPayload) (adminId : option string) (w : World)
    (c : Z) (inv : Invitation) (link : string) (t : Z) :
  fst (postInvitation id body adminId w)
  = Ok {| code := c; payload := JInvitation inv link |} ->
  (forall i, In i (invitations (db w)) -> token i <> randomHex w (created w)) ->
  exists ev,
    Prisma.event_lookup id (db w) = Some ev
    /\ link = Js.or_default (BASE_URL (env w)) "http://localhost:5173"
              ++ "/join/" ++ token inv
    /\ fst (getJoin (token inv) (set_now t (snd (postInvitation id body adminId w))))
       = Ok (if endsAt ev <? t
             then {| code := 400; payload := JMessage "Event expired" |}
             else {| code := 200;
                     payload := JJoin (mapEventResponse ev) (token inv)
                                      (deliveryMethod inv) |}).
Proof.
  intros Hr Hnew.
  destruct (postInvitation_created id body adminId w c inv link Hr)
    as (ev & H & _ & -> & -> & Hinv).
  exists ev. split; [exact H|]. split; [reflexivity|].
  pose proof (keeps_postInvitation id body adminId w)
    as (_ & _ & _ & _ & _ & _ & _ & Hev & _).
  set (w' := snd (postInvitation id body adminId w)) in *.
  assert (Hi : invitation_by_token (token (issued id body w)) (set_now t w')
               = Some (issued id body w)).
  { unfold invitation_by_token. cbn [db set_now]. rewrite Hinv.
    rewrite find_skip.
    - cbn. rewrite String.eqb_refl. reflexivity.
    - intros x Hx. apply String.eqb_neq. cbn. apply Hnew. exact Hx. }
  assert (He : Prisma.event_lookup (inv_eventId (issued id body w))
                 (db (set_now t w')) = Some ev).
  { unfold Prisma.event_lookup in *. cbn [db set_now inv_eventId issued].
    rewrite Hev. exact H. }
  rewrite (getJoin_found _ _ _ _ Hi He). reflexivity.
Qed.

Lemma issued_token_resolves_witness :
  fst (postInvitation "ev1" Sample.request (Some "alice") Sample.quiet_world)
  = Ok {| code := 201;
          payload := JInvitation Sample.the_email_invitation
                       "http://localhost:5173/join/a1b2c30" |}
  /\ (forall i, In i (invitations (db Sample.quiet_world)) ->
      token i <> randomHex Sample.quiet_world (created Sample.quiet_world))
  /\ exists ev,
       Prisma.event_lookup "ev1" (db Sample.quiet_world) = Some ev
       /\ "http://localhost:5173/join/a1b2c30"
          = Js.or_default (BASE_URL (env Sample.quiet_world)) "http://localhost:5173"
            ++ "/join/" ++ token Sample.the_email_invitation
       /\ fst (getJoin (token Sample.the_email_invitation)
                 (set_now (Sample.noon + 1000)
                    (snd (postInvitation "ev1" Sample.request (Some "alice")
                            Sample.quiet_world))))
          = Ok (if endsAt ev <? Sample.noon + 1000
                then {| code := 400; payload := JMessage "Event expired" |}
                else {| code := 200;
                        payload := JJoin (mapEventResponse ev)
                                     (token Sample.the_email_invitation)
                                     (deliveryMethod Sample.the_email_invitation) |}).
Proof.
  assert (H1 : fst (postInvitation "ev1" Sample.request (Some "alice")
                      Sample.quiet_world)
               = Ok {| code := 201;
                       payload := JInvitation Sample.the_email_invitation
                                    "http://localhost:5173/join/a1b2c30" |})
    by (vm_compute; reflexivity).
  assert (H2 : forall i, In i (invitations (db Sample.quiet_world)) ->
               token i <> randomHex Sample.quiet_world (created Sample.quiet_world))
    by (intros i []).
  split; [exact H1|]. split; [exact H2|].
  exact (issued_token_resolves "ev1" Sample.request (Some "alice")
           Sample.quiet_world 201 Sample.the_email_invitation
           "http://localhost:5173/join/a1b2c30" (Sample.noon + 1000) H1 H2).
Defined.

(** ** Operator sessions *)

Lemma split_first_absent pat s :
  Js.includes s pat = false -> split_first pat s = None.
Proof.
  induction s as [|c s IH]; intros H.
  - cbn [Js.includes] in H. rewrite orb_false_r in H.
    cbn [split_first]. rewrite H. reflexivity.
  - cbn [Js.includes] in H. apply orb_false_iff in H as [Hp Hi].
    cbn [split_first]. rewrite Hp, (IH Hi). reflexivity.
Qed.

Lemma replace_absent s pat repl : Js.includes s pat = false -> replace s pat repl = s.
Proof. intros H. unfold replace. rewrite (split_first_absent pat s H). reflexivity. Qed.

Lemma strip_bearer tok : replace ("Bearer " ++ tok) "Bearer " "" = tok.
Proof.
  unfold replace.
  assert (E : split_first "Bearer " ("Bearer " ++ tok) = Some ("", tok)).
  { cbn [append]. destruct tok; reflexivity. }
  rewrite E. reflexivity.
Qed.

(** X3. The session check.  A request gets through only with an operator id
    that is not empty and that the session map holds for the header with
    its first ["Bearer "] removed; so a header made of the prefix and a
    token, and the bare token alone, are looked up alike, and a token set
    by a login gets through.  A request that does not get through is
    answered 401 and its handler is not run: the world stays as it is. *)
Theorem authMiddleware_sessions
    (tokens : AdminTokens) (header : option string) (tok : string)
    (handler : string -> Async Response) (w : World) :
  (forall a, authMiddleware tokens header = Authenticated a ->
     a <> ""
     /\ exists h, header = Some h /\ h <> ""
                  /\ tokens_get tokens (replace h "Bearer " "") = Some a
                  /\ behindAuth tokens header handler w = handler a w)
  /\ (forall r, authMiddleware tokens header = Rejected r ->
      code r = 401 /\ behindAuth tokens header handler w = (Ok r, w))
  /\ (forall a, tokens_get tokens tok = Some a -> a <> "" ->
      authMiddleware tokens (Some ("Bearer " ++ tok)) = Authenticated a)
  /\ (tokens_get tokens tok = None ->
      authMiddleware tokens (Some ("Bearer " ++ tok))
      = Rejected {| code := 401; payload := JMessage "Invalid token" |})
  /\ (tok <> "" -> Js.includes tok "Bearer " = false ->
      authMiddleware tokens (Some tok) = authMiddleware tokens (Some ("Bearer " ++ tok)))
  /\ (forall a, a <> "" ->
      authMiddleware (tokens_set tokens tok a) (Some ("Bearer " ++ tok))
      = Authenticated a).
Proof.
  split.
  { intros a Ha. unfold behindAuth. rewrite Ha. unfold authMiddleware in Ha.
    destruct header as [h|]; [| discriminate].
    cbn [Js.truthy Js.nullish] in Ha.
    destruct (String.eqb_spec h "") as [|Hh]; [discriminate|].
    cbn [negb] in Ha.
    destruct (tokens_get tokens (replace h "Bearer " "")) as [a'|] eqn:E;
      [| discriminate].
    cbn [Js.truthy Js.nullish] in Ha.
    destruct (String.eqb_spec a' "") as [|Ha']; [discriminate|].
    injection Ha as <-. split; [exact Ha'|]. exists h. auto. }
  split.
  { intros r Hr. unfold behindAuth. rewrite Hr. unfold authMiddleware in Hr.
    destruct (negb (Js.truthy header)).
    - injection Hr as <-. split; reflexivity.
    - destruct (negb (Js.truthy _)); [| discriminate].
      injection Hr as <-. split; reflexivity. }
  assert (B : forall tk, authMiddleware tk (Some ("Bearer " ++ tok))
                         = if negb (Js.truthy (tokens_get tk tok))
                           then Rejected {| code := 401;
                                            payload := JMessage "Invalid token" |}
                           else Authenticated (Js.nullish (tokens_get tk tok) "")).
  { intros tk. unfold authMiddleware. cbn [Js.truthy Js.nullish append].
    change (String "B" (String "e" (String "a" (String "r" (String "e"
              (String "r" (String " " tok)))))))
      with ("Bearer " ++ tok).
    rewrite strip_bearer. reflexivity. }
  split.
  { intros a Ha Hne. rewrite B, Ha. cbn.
    destruct (String.eqb_spec a ""); [contradiction | reflexivity]. }
  split.
  { intros Hn. rewrite B, Hn. reflexivity. }
  split.
  { intros Hne Hi. rewrite B. unfold authMiddleware.
    cbn [Js.truthy Js.nullish].
    destruct (String.eqb_spec tok ""); [contradiction|]. cbn [negb].
    rewrite (replace_absent tok "Bearer " "" Hi). reflexivity. }
  intros a Hne. rewrite B. cbn. rewrite String.eqb_refl. cbn.
  destruct (String.eqb_spec a ""); [contradiction | reflexivity].
Qed.

Lemma authenticated_nonempty tokens header a :
  authMiddleware tokens header = Authenticated a -> a <> "".
Proof.
  unfold authMiddleware.
  destruct (negb (Js.truthy header)); [discriminate|].
  destruct (tokens_get tokens _) as [a'|]; [| discriminate].
  cbn [Js.truthy Js.nullish].
  destruct (String.eqb_spec a' ""); [discriminate|].
  intros [= <-]. assumption.
Qed.

(** X4. Behind the session check the pre-quota gate is never skipped.  An
    e-mail request with a recipient, for an existing event, with a usable
    transport and a working audit table, is answered 429 exactly when the
    authenticated operator is over quota; the message then names the
    ceiling that was reached and no invitation is created.  Otherwise the
    invitation is issued and the answer is 201, or 500 when the transport
    fails. *)
Theorem authenticated_dispatch_is_gated
    (tokens : AdminTokens) (header : option string) (a : string)
    (id : string) (body : InvitationPayload) (ev : Event) (w : World) :
  authMiddleware tokens header = Authenticated a ->
  Prisma.event_lookup id (db w) = Some ev ->
  pl_deliveryMethod body = EMAIL ->
  Js.truthy (pl_email body) = true ->
  isEmailSendingEnabled (systemSetting (db w)) = true ->
  emailLogFault w = None ->
  let r := adminPostInvitation tokens header id body w in
  let limits := getRateLimitConfig (env w) (systemSetting (db w)) in
  (quota_denies a (systemSetting (db w)) w = true ->
   exists msg,
     (msg = hourMessage (perHour limits) \/ msg = dayMessage (perDay limits))
     /\ fst r = Ok {| code := 429; payload := JMessage msg |}
     /\ invitations (db (snd r)) = invitations (db w))
  /\ (quota_denies a (systemSetting (db w)) w = false ->
      fst r = Ok (match smtpFault w with
                  | None =>
                    {| code := 201;
                       payload := JInvitation (issued id body w) (join_link w) |}
                  | Some e =>
                    {| code := 500; payload := JMessage (failure_message e) |}
                  end)
      /\ invitations (db (snd r)) = (invitations (db w) ++ [issued id body w])%list)
  /\ ((exists resp, fst r = Ok resp /\ code resp = 429)
      <-> quota_denies a (systemSetting (db w)) w = true).
Proof.
  intros Hauth H Hm He Hen Hf. cbv zeta.
  pose proof (authenticated_nonempty tokens header a Hauth) as Ha.
  unfold adminPostInvitation, behindAuth. rewrite Hauth.
  assert (D : quota_denies a (systemSetting (db w)) w = true ->
              exists msg,
                (msg = hourMessage (perHour (getRateLimitConfig (env w)
                                               (systemSetting (db w))))
                 \/ msg = dayMessage (perDay (getRateLimitConfig (env w)
                                                (systemSetting (db w)))))
                /\ fst (postInvitation id body (Some a) w)
                   = Ok {| code := 429; payload := JMessage msg |}
                /\ invitations (db (snd (postInvitation id body (Some a) w)))
                   = invitations (db w)).
  { intros Hq.
    destruct (postInvitation_gate_denied id body a ev w H Hm He Hen Ha Hq)
      as (msg & Hmsg & _ & Hinv & H4).
    rewrite Hf in H4. exists msg. cbv zeta in Hmsg. tauto. }
  assert (P : quota_denies a (systemSetting (db w)) w = false ->
              fst (postInvitation id body (Some a) w)
              = Ok (match smtpFault w with
                    | None =>
                      {| code := 201;
                         payload := JInvitation (issued id body w) (join_link w) |}
                    | Some e =>
                      {| code := 500; payload := JMessage (failure_message e) |}
                    end)
              /\ invitations (db (snd (postInvitation id body (Some a) w)))
                 = (invitations (db w) ++ [issued id body w])%list).
  { intros Hq.
    assert (Hg : gate_open (Some a) w = true).
    { unfold gate_open. destruct (String.eqb_spec a ""); [contradiction|].
      rewrite Hq. reflexivity. }
    destruct (postInvitation_sends id body (Some a) ev w H Hm He Hen Hg)
      as (_ & _ & _ & H1 & _ & H3 & _). auto. }
  split; [exact D|]. split; [exact P|].
  split.
  - intros (resp & Hr & Hc).
    destruct (quota_denies a (systemSetting (db w)) w) eqn:Hq; [reflexivity|].
    destruct (P eq_refl) as [P1 _]. rewrite P1 in Hr. injection Hr as <-.
    destruct (smtpFault w); discriminate.
  - intros Hq. destruct (D Hq) as (msg & _ & D1 & _).
    eexists. split; [exact D1 | reflexivity].
Qed.

Lemma authenticated_dispatch_is_gated_witness :
  authMiddleware Sample.sessions Sample.bearer_alice = Authenticated "alice"
  /\ emailLogFault Sample.busy_world = None
  /\ (exists resp,
        fst (adminPostInvitation Sample.sessions Sample.bearer_alice "ev1"
               Sample.request Sample.busy_world) = Ok resp
        /\ code resp = 429).
Proof.
  assert (H1 : authMiddleware Sample.sessions Sample.bearer_alice
               = Authenticated "alice") by reflexivity.
  assert (H2 : emailLogFault Sample.busy_world = None) by reflexivity.
  split; [exact H1|]. split; [exact H2|].
  pose proof (authenticated_dispatch_is_gated Sample.sessions Sample.bearer_alice
                "alice" "ev1" Sample.request Sample.hunt Sample.busy_world
                H1 eq_refl eq_refl eq_refl eq_refl H2) as C.
  cbv zeta in C. destruct C as (_ & _ & C).
  exact (proj2 C eq_refl).
Defined.

(** ** Quota accounting *)

Lemma filter_out_of_scope a t since (ls : list EmailLog) :
  t - DAY <= since ->
  Forall (out_of_scope a t) ls ->
  filter (Prisma.countsTowardsQuota a since) ls = [].
Proof.
  intros Hs. induction 1 as [|l ls Hl _ IH]; [reflexivity|].
  simpl. rewrite IH.
  replace (Prisma.countsTowardsQuota a since l) with false; [reflexivity|].
  unfold Prisma.countsTowardsQuota. destruct Hl as [Ha|Ht].
  - destruct (log_adminId l) as [b|]; [| reflexivity].
    destruct (String.eqb_spec b a); [congruence | reflexivity].
  - destruct (Z.leb_spec since (createdAt l)); [lia|].
    rewrite andb_false_r. reflexivity.
Qed.

(** X5. A quota check for an operator looks at that operator's own records of
    the last 24 hours and at nothing else: two stores that differ only by
    records of other operators or by records older than that give the same
    answer at the same time under the same configuration. *)
Theorem quota_check_scope
    (w1 w2 : World) (pre ls post : list EmailLog) (a : string)
    (settings : option SystemSetting) :
  a <> "" ->
  now w2 = now w1 ->
  env w2 = env w1 ->
  emailLogs (db w1) = (pre ++ post)%list ->
  emailLogs (db w2) = (pre ++ ls ++ post)%list ->
  Forall (out_of_scope a (now w1)) ls ->
  fst (checkRateLimit (Some a) settings w2) = fst (checkRateLimit (Some a) settings w1).
Proof.
  intros Hne Hnow Henv H1 H2 Hls.
  assert (Hc : forall since, now w1 - DAY <= since ->
             countNonRateLimited a since w2 = countNonRateLimited a since w1).
  { intros since Hs. unfold countNonRateLimited, Prisma.emailLog_count_in.
    rewrite H1, H2, !filter_app, (filter_out_of_scope a (now w1) since ls Hs Hls).
    reflexivity. }
  rewrite (checkRateLimit_eq a settings w1 Hne), (checkRateLimit_eq a settings w2 Hne).
  cbv zeta. rewrite Hnow, Henv.
  rewrite (Hc (now w1 - HOUR)) by (unfold HOUR, DAY; lia).
  rewrite (Hc (now w1 - DAY)) by lia.
  destruct (_ && _); [reflexivity|].
  destruct (_ && _); reflexivity.
Qed.

Lemma quota_check_scope_witness :
  "alice" <> ""
  /\ Forall (out_of_scope "alice" (now Sample.busy_world))
       [Sample.log_at Sample.noon SENT "carol";
        Sample.log_at (Sample.noon - DAY - 1) SENT "alice"]
  /\ fst (checkRateLimit (Some "alice") (Some Sample.settings_2_10)
            (Sample.world_of
               (with_logs Sample.store0
                  (Sample.log_at Sample.noon SENT "carol"
                   :: Sample.log_at (Sample.noon - DAY - 1) SENT "alice"
                   :: Sample.two_sent))
               Sample.noon))
     = fst (checkRateLimit (Some "alice") (Some Sample.settings_2_10)
              Sample.busy_world).
Proof.
  assert (H1 : "alice" <> "") by discriminate.
  assert (H2 : Forall (out_of_scope "alice" (now Sample.busy_world))
                 [Sample.log_at Sample.noon SENT "carol";
                  Sample.log_at (Sample.noon - DAY - 1) SENT "alice"]).
  { constructor; [left; discriminate|].
    constructor; [right; reflexivity | constructor]. }
  split; [exact H1|]. split; [exact H2|].
  exact (quota_check_scope Sample.busy_world
           (Sample.world_of
              (with_logs Sample.store0
                 (Sample.log_at Sample.noon SENT "carol"
                  :: Sample.log_at (Sample.noon - DAY - 1) SENT "alice"
                  :: Sample.two_sent))
              Sample.noon) []
           [Sample.log_at Sample.noon SENT "carol";
            Sample.log_at (Sample.noon - DAY - 1) SENT "alice"]
           Sample.two_sent "alice" (Some Sample.settings_2_10)
           H1 eq_refl eq_refl eq_refl eq_refl H2).
Defined.

Lemma count_after_row a since row logs :
  Prisma.emailLog_count_in a since (logs ++ [row])
  = Prisma.emailLog_count_in a since logs
    + (if Prisma.countsTowardsQuota a since row then 1 else 0).
Proof.
  unfold Prisma.emailLog_count_in. rewrite filter_app, length_app. cbn [filter].
  destruct (Prisma.countsTowardsQuota a since row); cbn [List.length]; lia.
Qed.

(** One accepted e-mail dispatch, with transport and audit table as they
    are: what it answers and what it leaves. *)
Lemma postInvitation_accepted id body a ev w :
  Prisma.event_lookup id (db w) = Some ev ->
  pl_deliveryMethod body = EMAIL ->
  Js.truthy (pl_email body) = true ->
  isEmailSendingEnabled (systemSetting (db w)) = true ->
  a <> "" ->
  quota_denies a (systemSetting (db w)) w = false ->
  emailLogFault w = None ->
  let r := postInvitation id body (Some a) w in
  fst r = Ok (match smtpFault w with
              | None =>
                {| code := 201;
                   payload := JInvitation (issued id body w) (join_link w) |}
              | Some e => {| code := 500; payload := JMessage (failure_message e) |}
              end)
  /\ same_surroundings w (snd r)
  /\ (forall since, since <= now w ->
      countNonRateLimited a since (snd r) = countNonRateLimited a since w + 1)
  /\ (forall b since, b <> a ->
      countNonRateLimited b since (snd r) = countNonRateLimited b since w)
  /\ invitations (db (snd r)) = (invitations (db w) ++ [issued id body w])%list.
Proof.
  intros H Hm He Hen Ha Hq Hf. cbv zeta.
  assert (Hg : gate_open (Some a) w = true).
  { unfold gate_open. destruct (String.eqb_spec a ""); [contradiction|].
    rewrite Hq. reflexivity. }
  destruct (postInvitation_sends id body (Some a) ev w H Hm He Hen Hg)
    as (_ & _ & _ & H1 & _ & H3 & H4).
  rewrite Hf in H4.
  split; [exact H1|]. split; [apply keeps_postInvitation|].
  rewrite <- and_assoc. split; [| exact H3].
  unfold countNonRateLimited. rewrite H4. split.
  - intros since Hs. rewrite count_after_row.
    replace (Prisma.countsTowardsQuota a since _) with true; [reflexivity|].
    unfold Prisma.countsTowardsQuota. cbn. rewrite String.eqb_refl.
    destruct (Z.leb_spec since (now w)); [| lia].
    destruct (smtpFault w); reflexivity.
  - intros b since Hb. rewrite count_after_row.
    replace (Prisma.countsTowardsQuota b since _) with false; [lia|].
    unfold Prisma.countsTowardsQuota. cbn.
    destruct (String.eqb_spec a b); [congruence | reflexivity].
Qed.

(** X6. Each e-mail dispatch that passes the gate is charged once, at once:
    with a working audit table the operator's count for every window that
    is open now grows by exactly one, whether the send succeeded or
    failed, and the counts of every other operator stay as they are.  A
    dispatch that the gate turns away is charged to nobody. *)
Theorem dispatch_is_charged_once
    (id : string) (body : InvitationPayload) (a : string) (ev : Event) (w : World) :
  Prisma.event_lookup id (db w) = Some ev ->
  pl_deliveryMethod body = EMAIL ->
  Js.truthy (pl_email body) = true ->
  isEmailSendingEnabled (systemSetting (db w)) = true ->
  a <> "" ->
  emailLogFault w = None ->
  let w' := snd (postInvitation id body (Some a) w) in
  (quota_denies a (systemSetting (db w)) w = false ->
   (forall since, since <= now w ->
      countNonRateLimited a since w' = countNonRateLimited a since w + 1)
   /\ (forall b since, b <> a ->
       countNonRateLimited b since w' = countNonRateLimited b since w))
  /\ (quota_denies a (systemSetting (db w)) w = true ->
      forall b since,
        countNonRateLimited b since w' = countNonRateLimited b since w).
Proof.
  intros H Hm He Hen Ha Hf. cbv zeta. split.
  - intros Hq.
    destruct (postInvitation_accepted id body a ev w H Hm He Hen Ha Hq Hf)
      as (_ & _ & H3 & H4 & _). auto.
  - intros Hq b since.
    destruct (postInvitation_gate_denied id body a ev w H Hm He Hen Ha Hq)
      as (msg & _ & _ & _ & H4).
    rewrite Hf in H4. destruct H4 as [_ H4].
    unfold countNonRateLimited. rewrite H4, count_after_row.
    replace (Prisma.countsTowardsQuota b since _) with false; [lia|].
    unfold Prisma.countsTowardsQuota. cbn. rewrite andb_false_r. reflexivity.
Qed.

Lemma dispatch_is_charged_once_witness :
  Prisma.event_lookup "ev1" (db Sample.quiet_world) = Some Sample.hunt
  /\ "alice" <> ""
  /\ countNonRateLimited "alice" (Sample.noon - HOUR)
       (snd (postInvitation "ev1" Sample.request (Some "alice") Sample.quiet_world))
     = countNonRateLimited "alice" (Sample.noon - HOUR) Sample.quiet_world + 1.
Proof.
  assert (H1 : Prisma.event_lookup "ev1" (db Sample.quiet_world) = Some Sample.hunt)
    by reflexivity.
  assert (H2 : "alice" <> "") by discriminate.
  split; [exact H1|]. split; [exact H2|].
  pose proof (dispatch_is_charged_once "ev1" Sample.request "alice" Sample.hunt
                Sample.quiet_world H1 eq_refl eq_refl eq_refl H2 eq_refl) as C.
  cbv zeta in C. destruct C as [C _].
  destruct (C eq_refl) as [C1 _].
  apply C1. apply Z.leb_le. reflexivity.
Defined.

Lemma quota_denies_iff a settings w :
  let limits := getRateLimitConfig (env w) settings in
  quota_denies a settings w = true <->
  (0 < perHour limits /\ perHour limits <= countNonRateLimited a (now w - HOUR) w)
  \/ (0 < perDay limits /\ perDay limits <= countNonRateLimited a (now w - DAY) w).
Proof.
  cbv zeta. unfold quota_denies. cbv zeta.
  rewrite orb_true_iff, !andb_true_iff, !Z.ltb_lt, !Z.leb_le. reflexivity.
Qed.

Lemma set_now_same w : set_now (now w) w = w.
Proof. destruct w; reflexivity. Qed.

Lemma keeps_gate id body adminId : keeps_surroundings (gate id body adminId).
Proof.
  unfold gate, precheckRateLimit, getEmailConfig.
  apply keeps_bind; [apply keeps_event_find|]. intros [ev|]; [| keeps].
  destruct (_ && _); [keeps|].
  apply keeps_bind; [apply keeps_settings_find|]. intros settings. cbv zeta.
  destruct (_ && _); [keeps|].
  destruct (_ && _); [| keeps].
  apply keeps_bind.
  { apply keeps_bind; [apply keeps_settings_find|]. intros s.
    apply keeps_checkRateLimit. }
  intros rate. destruct (negb _); keeps.
Qed.

(** A request that arrives and goes on before anything else happens is
    served by the handler as a whole. *)
Lemma serve_alone id body adminId t rest w :
  serve id body adminId (Arrive t :: Resume t :: rest) [] w
  = (fst (postInvitation id body adminId (set_now t w))
     :: fst (serve id body adminId rest []
               (snd (postInvitation id body adminId (set_now t w)))),
     snd (serve id body adminId rest []
            (snd (postInvitation id body adminId (set_now t w))))).
Proof.
  rewrite postInvitation_splits. unfold bind. cbn [serve].
  pose proof (keeps_gate id body adminId (set_now t w)) as K.
  destruct (gate id body adminId (set_now t w)) as [[[answer|ev]|e] w1];
    cbn [snd fst app resume ret] in *; try reflexivity.
  destruct K as [Hn _]. cbn [now set_now] in Hn. subst t.
  rewrite set_now_same. reflexivity.
Qed.

(** The gate lets a request through with the store untouched and no audit
    write made. *)
Lemma gate_passes id body adminId ev w :
  Prisma.event_lookup id (db w) = Some ev ->
  is_EMAIL (pl_deliveryMethod body) && negb (Js.truthy (pl_email body)) = false ->
  is_EMAIL (pl_deliveryMethod body)
  && negb (isEmailSendingEnabled (systemSetting (db w))) = false ->
  (is_EMAIL (pl_deliveryMethod body) = true -> gate_open adminId w = true) ->
  exists ops,
    audit_writes ops = []
    /\ gate id body adminId w = (Ok (inr ev), log_ops ops w).
Proof.
  intros H Hv Hc Hg.
  unfold gate, bind at 1 2, Prisma.event_findUnique,
    Prisma.systemSetting_findUnique.
  rewrite H, Hv. cbn [db log_op]. rewrite Hc.
  destruct (is_EMAIL (pl_deliveryMethod body) && Js.truthy adminId) eqn:Eg.
  - apply andb_true_iff in Eg as [Em Ea].
    specialize (Hg Em).
    destruct adminId as [a|]; [| discriminate].
    simpl in Ea. apply negb_true_iff in Ea.
    unfold gate_open in Hg. rewrite Ea in Hg.
    apply String.eqb_neq in Ea.
    unfold precheckRateLimit, getEmailConfig, Prisma.systemSetting_findUnique.
    unfold bind at 1 2. cbn [db log_op].
    destruct (checkRateLimit_frame (Some a) (systemSetting (db w))
                (log_op OpSettingsFind
                   (log_op OpSettingsFind (log_op (OpEventFind id) w))))
      as (rate & ops & E & Hcnt & Hal).
    destruct (only_counts_after_issue ops Hcnt) as [Hops _].
    rewrite E. rewrite (Hal a eq_refl Ea).
    change (quota_denies a (systemSetting (db w))
              (log_op OpSettingsFind
                 (log_op OpSettingsFind (log_op (OpEventFind id) w))))
      with (quota_denies a (systemSetting (db w)) w).
    rewrite Hg. cbn [negb].
    exists ([OpEventFind id; OpSettingsFind; OpSettingsFind] ++ ops)%list.
    split; [rewrite audit_writes_app; rewrite Hops; reflexivity|].
    unfold ret. f_equal. unfold log_ops, log_op. cbn. rewrite <- !app_assoc.
    reflexivity.
  - exists [OpEventFind id; OpSettingsFind]. split; [reflexivity|].
    unfold ret. f_equal. unfold log_ops, log_op. cbn. rewrite <- !app_assoc.
    reflexivity.
Qed.

(** The second half of the handler for an e-mail invitation, in a world
    with a transport configured and a working audit table. *)
Lemma issueAndSend_accepted id body a ev w :
  pl_deliveryMethod body = EMAIL ->
  Js.truthy (pl_email body) = true ->
  isEmailSendingEnabled (systemSetting (db w)) = true ->
  emailLogFault w = None ->
  let r := issueAndSend id body (Some a) ev w in
  answered (accepted_code w) (fst r)
  /\ same_surroundings w (snd r)
  /\ (forall since, since <= now w ->
      countNonRateLimited a since (snd r) = countNonRateLimited a since w + 1)
  /\ invitations (db (snd r)) = (invitations (db w) ++ [issued id body w])%list.
Proof.
  intros Hm He Hen Hf. cbv zeta.
  split.
  { rewrite (issueAndSend_email id body (Some a) ev w Hm He Hen). cbv zeta.
    unfold answered, accepted_code.
    destruct (smtpFault w); eexists; (split; [reflexivity|]); reflexivity. }
  split; [apply keeps_issueAndSend|].
  rewrite (issueAndSend_email id body (Some a) ev w Hm He Hen). cbv zeta.
  set (ws := log_op OpSettingsFind (after_issuing id body w)).
  set (o := route_options id body (Some a) ev w).
  assert (S : snd match smtpFault w with
              | Some e =>
                (Ok {| code := 500; payload := JMessage (failure_message e) |},
                 snd (delivered o (systemSetting (db w)) ws))
              | None =>
                (Ok {| code := 201;
                       payload := JInvitation (issued id body w) (join_link w) |},
                 snd (delivered o (systemSetting (db w)) ws))
              end
              = snd (delivered o (systemSetting (db w)) ws))
    by (destruct (smtpFault w); reflexivity).
  rewrite S. clear S.
  destruct (delivered_effect o (systemSetting (db w)) ws) as (_ & _ & Ha).
  cbv zeta in Ha. destruct Ha as (_ & Hinv & _ & _ & Hlogs).
  change (emailLogFault ws) with (emailLogFault w) in Hlogs. rewrite Hf in Hlogs.
  split; [| exact Hinv].
  intros since Hs. unfold countNonRateLimited. rewrite Hlogs.
  change (emailLogs (db ws)) with (emailLogs (db w)).
  rewrite count_after_row.
  replace (Prisma.countsTowardsQuota a since _) with true; [reflexivity|].
  unfold Prisma.countsTowardsQuota. cbn. rewrite String.eqb_refl.
  destruct (Z.leb_spec since (now w)); [| lia].
  destruct (smtpFault w); reflexivity.
Qed.

(** A window that opens later holds no more records. *)
Lemma count_antitone a s1 s2 w :
  s1 <= s2 -> countNonRateLimited a s2 w <= countNonRateLimited a s1 w.
Proof.
  intros Hs. unfold countNonRateLimited, Prisma.emailLog_count_in.
  generalize (emailLogs (db w)). intros logs.
  apply Nat2Z.inj_le.
  induction logs as [|l logs IH]; cbn [filter]; [apply Nat.le_refl|].
  destruct (Prisma.countsTowardsQuota a s2 l) eqn:E2.
  - replace (Prisma.countsTowardsQuota a s1 l) with true; [cbn; lia|].
    unfold Prisma.countsTowardsQuota in *.
    apply andb_true_iff in E2 as [E2 E3]. apply andb_true_iff in E2 as [E1 E2].
    rewrite E1, E3. apply Z.leb_le in E2.
    destruct (Z.leb_spec s1 (createdAt l)); [reflexivity | lia].
  - destruct (Prisma.countsTowardsQuota a s1 l); cbn [List.length]; lia.
Qed.

(** With room for one more under every ceiling set, measured at [t0], the
    quota check of a request that arrives at [t0] or later passes. *)
Lemma quota_open_later a t0 t w :
  t0 <= t ->
  let limits := getRateLimitConfig (env w) (systemSetting (db w)) in
  (perHour limits <= 0 \/ countNonRateLimited a (t0 - HOUR) w < perHour limits) ->
  (perDay limits <= 0 \/ countNonRateLimited a (t0 - DAY) w < perDay limits) ->
  quota_denies a (systemSetting (db w)) (set_now t w) = false.
Proof.
  intros Ht. cbv zeta. intros Hh Hd.
  destruct (quota_denies a (systemSetting (db w)) (set_now t w)) eqn:E;
    [| reflexivity].
  apply quota_denies_iff in E. cbv zeta in E. cbn [env now set_now] in E.
  change (countNonRateLimited a (t - HOUR) (set_now t w))
    with (countNonRateLimited a (t - HOUR) w) in E.
  change (countNonRateLimited a (t - DAY) (set_now t w))
    with (countNonRateLimited a (t - DAY) w) in E.
  pose proof (count_antitone a (t0 - HOUR) (t - HOUR) w ltac:(lia)).
  pose proof (count_antitone a (t0 - DAY) (t - DAY) w ltac:(lia)).
  lia.
Qed.

Lemma same_setting_trans t w w0 w1 :
  same_surroundings (set_now t w) w0 ->
  same_surroundings (set_now (now w1) w0) w1 ->
  same_surroundings (set_now (now w1) w) w1.
Proof.
  unfold same_surroundings. cbn [set_now now env smtpFault emailLogFault
                                  randomHex cuid db].
  intros (A1 & A2 & A3 & A4 & A5 & A6 & A7 & A8 & A9 & A10 & A11)
         (B1 & B2 & B3 & B4 & B5 & B6 & B7 & B8 & B9 & B10 & B11).
  repeat split; congruence.
Qed.

Section Dispatches.

Variables (id : string) (body : InvitationPayload) (a : string) (ev : Event).
Variable t0 : Z.
Hypothesis Hm : pl_deliveryMethod body = EMAIL.
Hypothesis He : Js.truthy (pl_email body) = true.
Hypothesis Ha : a <> "".

(** Requests served in turn, with room for all of them. *)
Lemma in_turn_dispatched ts : forall w,
  dispatch_ready id ev w ->
  Forall (fun t => t0 <= t) ts ->
  let limits := getRateLimitConfig (env w) (systemSetting (db w)) in
  (perHour limits <= 0
   \/ countNonRateLimited a (t0 - HOUR) w + Z.of_nat (List.length ts)
      <= perHour limits) ->
  (perDay limits <= 0
   \/ countNonRateLimited a (t0 - DAY) w + Z.of_nat (List.length ts)
      <= perDay limits) ->
  let r := serve id body (Some a) (in_turn ts) [] w in
  all_dispatched a t0 (List.length ts) w r
  /\ same_surroundings (set_now (now (snd r)) w) (snd r).
Proof.
  induction ts as [|t ts IH]; intros w (H & Hen & Hf) Hts; cbv zeta; intros Hh Hd.
  - cbn [in_turn flat_map serve fst snd]. split.
    + split; [constructor|]. split; [reflexivity|].
      cbn [fst snd List.length]. split; [intros; lia | lia].
    + rewrite set_now_same. apply same_surroundings_refl.
  - inversion Hts as [|? ? Ht Hts']; subst.
    change (in_turn (t :: ts)) with (Arrive t :: Resume t :: in_turn ts).
    rewrite serve_alone.
    set (w0 := set_now t w).
    assert (Hq : quota_denies a (systemSetting (db w0)) w0 = false).
    { apply (quota_open_later a t0 t w Ht); cbn [List.length] in Hh, Hd; lia. }
    destruct (postInvitation_accepted id body a ev w0 H Hm He Hen Ha Hq Hf)
      as (R1 & R2 & R3 & _ & R5).
    set (w1 := snd (postInvitation id body (Some a) w0)) in *.
    pose proof R2 as (Hn & Hv & Hsm & Hlf & _ & _ & Hs & Hevs & _).
    assert (Hr1 : dispatch_ready id ev w1).
    { split; [| split].
      - unfold Prisma.event_lookup in *. rewrite Hevs. exact H.
      - rewrite Hs. exact Hen.
      - rewrite Hlf. exact Hf. }
    specialize (IH w1 Hr1 Hts'). cbv zeta in IH.
    rewrite Hv, Hs in IH.
    rewrite !R3 in IH by (subst w0; cbn [now set_now]; unfold HOUR, DAY; lia).
    cbn [List.length] in Hh, Hd.
    destruct IH as ((I1 & I2 & I4 & I5) & I3);
      [subst w0; cbn [env db set_now] in *;
       change (countNonRateLimited a (t0 - HOUR) (set_now t w))
         with (countNonRateLimited a (t0 - HOUR) w); lia
      |subst w0; cbn [env db set_now] in *;
       change (countNonRateLimited a (t0 - DAY) (set_now t w))
         with (countNonRateLimited a (t0 - DAY) w); lia |].
    unfold all_dispatched in *. cbn [fst snd]. split.
    + split.
      { constructor.
        - rewrite R1. unfold answered, accepted_code.
          change (smtpFault w0) with (smtpFault w).
          destruct (smtpFault w); eexists; (split; [reflexivity|]); reflexivity.
        - unfold accepted_code in *. rewrite Hsm in I1. exact I1. }
      split; [cbn [List.length]; rewrite I2; reflexivity|].
      split.
      { intros since Hle. rewrite I4 by exact Hle.
        rewrite R3 by (subst w0; cbn [now set_now]; lia).
        change (countNonRateLimited a since w0) with (countNonRateLimited a since w).
        cbn [List.length]. lia. }
      rewrite I5, R5, length_app. cbn [List.length].
      change (invitations (db w0)) with (invitations (db w)). lia.
    + apply (same_setting_trans t w w1 _ R2 I3).
Qed.

(** Requests that arrive while none has gone on: with room for one, the
    gate lets every one of them through, and the store stays as it was. *)
Lemma arrivals_pass ts : forall waiting rest w,
  dispatch_ready id ev w ->
  Forall (fun t => t0 <= t) ts ->
  let limits := getRateLimitConfig (env w) (systemSetting (db w)) in
  (perHour limits <= 0 \/ countNonRateLimited a (t0 - HOUR) w < perHour limits) ->
  (perDay limits <= 0 \/ countNonRateLimited a (t0 - DAY) w < perDay limits) ->
  exists w',
    serve id body (Some a) (map Arrive ts ++ rest) waiting w
    = serve id body (Some a) rest (waiting ++ repeat ev (List.length ts)) w'
    /\ db w' = db w /\ env w' = env w
    /\ smtpFault w' = smtpFault w /\ emailLogFault w' = emailLogFault w.
Proof.
  induction ts as [|t ts IH]; intros waiting rest w Hr Hts; cbv zeta; intros Hh Hd.
  - exists w. cbn. rewrite app_nil_r. repeat split; reflexivity.
  - inversion Hts as [|? ? Ht Hts']; subst.
    pose proof Hr as (H & Hen & Hf).
    assert (Hq : quota_denies a (systemSetting (db w)) (set_now t w) = false)
      by (apply (quota_open_later a t0 t w Ht); assumption).
    destruct (gate_passes id body (Some a) ev (set_now t w) H) as (ops & _ & G).
    { rewrite He. apply andb_false_r. }
    { cbn [db set_now]. rewrite Hen. apply andb_false_r. }
    { intros _. unfold gate_open. destruct (String.eqb_spec a ""); [contradiction|].
      cbn [db set_now]. rewrite Hq. reflexivity. }
    cbn [map app serve]. rewrite G.
    destruct (IH (waiting ++ [ev])%list rest (log_ops ops (set_now t w)) Hr Hts' Hh Hd)
      as (w' & E & I1 & I2 & I3 & I4).
    exists w'. rewrite E, <- app_assoc. cbn [app repeat List.length].
    repeat split; assumption.
Qed.

(** Requests past the gate that go on one after the other. *)
Lemma resumes_dispatched ts : forall w,
  dispatch_ready id ev w ->
  Forall (fun t => t0 <= t) ts ->
  all_dispatched a t0 (List.length ts) w
    (serve id body (Some a) (map Resume ts) (repeat ev (List.length ts)) w).
Proof.
  induction ts as [|t ts IH]; intros w (H & Hen & Hf) Hts.
  - cbn [map List.length repeat serve]. split; [constructor|].
    split; [reflexivity|]. cbn [fst snd]. split; [intros; lia | lia].
  - inversion Hts as [|? ? Ht Hts']; subst.
    cbn [map List.length repeat serve].
    set (w0 := set_now t w).
    destruct (issueAndSend_accepted id body a ev w0 Hm He Hen Hf)
      as (R1 & R2 & R3 & R5).
    set (w1 := snd (issueAndSend id body (Some a) ev w0)) in *.
    pose proof R2 as (Hn & Hv & Hsm & Hlf & _ & _ & Hs & Hevs & _).
    assert (Hr1 : dispatch_ready id ev w1).
    { split; [| split].
      - unfold Prisma.event_lookup in *. rewrite Hevs. exact H.
      - rewrite Hs. exact Hen.
      - rewrite Hlf. exact Hf. }
    destruct (IH w1 Hr1 Hts') as (I1 & I2 & I4 & I5).
    unfold all_dispatched. cbn [fst snd]. split.
    { constructor.
      - exact R1.
      - unfold accepted_code in *. rewrite Hsm in I1. exact I1. }
    split; [cbn [List.length]; rewrite I2; reflexivity|].
    split.
    { intros since Hle. rewrite I4 by exact Hle.
      rewrite R3 by (subst w0; cbn [now set_now]; lia).
      change (countNonRateLimited a since w0) with (countNonRateLimited a since w).
      lia. }
    rewrite I5, R5, length_app. cbn [List.length].
    change (invitations (db w0)) with (invitations (db w)). lia.
Qed.

End Dispatches.

(** X7. The ceilings bound the records written, not the requests on their
    way.  The handler waits for the store between the gate's count and
    the audit write of the dispatch; the server is modelled with the
    handler cut there, and a request that is served alone gets the
    handler as a whole.  This is for e-mail requests of one operator to
    one event, with a transport configured and a working audit table,
    that arrive and go on at [t0] or later.  Served in turn, each
    answered before the next arrives, they are all dispatched when the
    operator has room for all of them under every ceiling that is set (a
    ceiling of zero or less is not one): each is answered 201, or 500
    when the transport fails, each leaves an invitation, and the
    operator's count for every window open at [t0] grows by their number.
    A request after them, at a time whose window still holds them and
    with them holds as many records as a ceiling allows, is answered 429
    and leaves no invitation.  When the requests overlap, all arriving
    before the first goes on, room for one is enough for all of them to
    be dispatched in the same way, so that the count can end above the
    ceiling. *)
Theorem quota_ceiling_in_turn_and_overlapping
    (id : string) (body : InvitationPayload) (a : string) (ev : Event)
    (t0 : Z) (ts ts' : list Z) (w : World) :
  dispatch_ready id ev w ->
  pl_deliveryMethod body = EMAIL ->
  Js.truthy (pl_email body) = true ->
  a <> "" ->
  Forall (fun t => t0 <= t) ts ->
  Forall (fun t => t0 <= t) ts' ->
  List.length ts' = List.length ts ->
  let k := Z.of_nat (List.length ts) in
  let limits := getRateLimitConfig (env w) (systemSetting (db w)) in
  let h := countNonRateLimited a (t0 - HOUR) w in
  let d := countNonRateLimited a (t0 - DAY) w in
  (forall t adminId w0,
     serve id body adminId [Arrive t; Resume t] [] w0
     = ([fst (postInvitation id body adminId (set_now t w0))],
        snd (postInvitation id body adminId (set_now t w0))))
  /\ ((perHour limits <= 0 \/ h + k <= perHour limits) ->
      (perDay limits <= 0 \/ d + k <= perDay limits) ->
      let r := serve id body (Some a) (in_turn ts) [] w in
      all_dispatched a t0 (List.length ts) w r
      /\ forall t,
           (0 < perHour limits /\ t - HOUR <= t0
            /\ perHour limits <= countNonRateLimited a (t - HOUR) w + k)
           \/ (0 < perDay limits /\ t - DAY <= t0
               /\ perDay limits <= countNonRateLimited a (t - DAY) w + k) ->
           let next := postInvitation id body (Some a) (set_now t (snd r)) in
           answered 429 (fst next)
           /\ invitations (db (snd next)) = invitations (db (snd r)))
  /\ ((perHour limits <= 0 \/ h < perHour limits) ->
      (perDay limits <= 0 \/ d < perDay limits) ->
      all_dispatched a t0 (List.length ts) w
        (serve id body (Some a) (overlapping ts ts') [] w)).
Proof.
  intros Hr Hm He Ha Hts Hts' Hlen. cbv zeta.
  split; [intros t adminId w0; apply serve_alone|].
  split.
  - intros Hh Hd.
    destruct (in_turn_dispatched id body a ev t0 Hm He Ha ts w Hr Hts Hh Hd)
      as (I & I3).
    split; [exact I|].
    destruct I as (_ & _ & I4 & _).
    set (w' := snd (serve id body (Some a) (in_turn ts) [] w)) in *.
    pose proof Hr as (H & Hen & Hf).
    pose proof I3 as (_ & Hv & _ & Hlf & _ & _ & Hs & Hevs & _).
    cbn [env emailLogFault db set_now] in Hv, Hlf, Hs, Hevs.
    intros t Hfull.
    assert (Hq : quota_denies a (systemSetting (db (set_now t w'))) (set_now t w')
                 = true).
    { apply quota_denies_iff. cbv zeta. cbn [env now db set_now].
      change (countNonRateLimited a (t - HOUR) (set_now t w'))
        with (countNonRateLimited a (t - HOUR) w').
      change (countNonRateLimited a (t - DAY) (set_now t w'))
        with (countNonRateLimited a (t - DAY) w').
      rewrite Hv, Hs.
      destruct Hfull as [(P & Q & R)|(P & Q & R)].
      - left. rewrite (I4 _ Q). lia.
      - right. rewrite (I4 _ Q). lia. }
    assert (H' : Prisma.event_lookup id (db (set_now t w')) = Some ev).
    { unfold Prisma.event_lookup in *. cbn [db set_now]. rewrite Hevs. exact H. }
    assert (Hen' : isEmailSendingEnabled (systemSetting (db (set_now t w'))) = true)
      by (cbn [db set_now]; rewrite Hs; exact Hen).
    destruct (postInvitation_gate_denied id body a ev (set_now t w') H' Hm He Hen' Ha Hq)
      as (msg & _ & _ & G3 & G4).
    cbn [emailLogFault set_now] in G4. rewrite Hlf, Hf in G4.
    destruct G4 as [G4 _].
    split; [| exact G3].
    eexists; split; [exact G4 | reflexivity].
  - intros Hh Hd. unfold overlapping.
    destruct (arrivals_pass id body a ev t0 He Ha ts [] (map Resume ts') w Hr Hts Hh Hd)
      as (w1 & E & D1 & D2 & D3 & D4).
    rewrite E. cbn [app]. rewrite <- Hlen.
    pose proof Hr as (H & Hen & Hf).
    assert (Hr1 : dispatch_ready id ev w1).
    { unfold dispatch_ready. rewrite D1, D4. exact Hr. }
    destruct (resumes_dispatched id body a ev t0 Hm He ts' w1 Hr1 Hts')
      as (I1 & I2 & I4 & I5).
    unfold all_dispatched, accepted_code, countNonRateLimited in *.
    rewrite D3, D1 in *. repeat split; assumption.
Qed.
Lemma quota_ceiling_in_turn_and_overlapping_witness :
  dispatch_ready "ev1" Sample.hunt Sample.quiet_world
  /\ perHour (getRateLimitConfig (env Sample.quiet_world)
                (systemSetting (db Sample.quiet_world))) = 2
  /\ all_dispatched "alice" Sample.noon 2 Sample.quiet_world
       (serve "ev1" Sample.request (Some "alice")
          (in_turn [Sample.noon; Sample.noon + 1000]) [] Sample.quiet_world)
  /\ answered 429
       (fst (postInvitation "ev1" Sample.request (Some "alice")
               (set_now (Sample.noon + 2000)
                  (snd (serve "ev1" Sample.request (Some "alice")
                          (in_turn [Sample.noon; Sample.noon + 1000]) []
                          Sample.quiet_world)))))
  /\ all_dispatched "alice" Sample.noon 3 Sample.quiet_world
       (serve "ev1" Sample.request (Some "alice")
          (overlapping [Sample.noon; Sample.noon + 1; Sample.noon + 2]
                       [Sample.noon + 1000; Sample.noon + 2000; Sample.noon + 3000])
          [] Sample.quiet_world)
  /\ countNonRateLimited "alice" (Sample.noon - HOUR)
       (snd (serve "ev1" Sample.request (Some "alice")
               (overlapping [Sample.noon; Sample.noon + 1; Sample.noon + 2]
                            [Sample.noon + 1000; Sample.noon + 2000;
                             Sample.noon + 3000])
               [] Sample.quiet_world)) = 3.
Proof.
  assert (Hr : dispatch_ready "ev1" Sample.hunt Sample.quiet_world)
    by (repeat split; reflexivity).
  assert (Ha : "alice" <> "") by discriminate.
  assert (F2 : Forall (fun t => Sample.noon <= t) [Sample.noon; Sample.noon + 1000])
    by (repeat constructor; apply Z.leb_le; reflexivity).
  assert (F3 : Forall (fun t => Sample.noon <= t)
                 [Sample.noon; Sample.noon + 1; Sample.noon + 2])
    by (repeat constructor; apply Z.leb_le; reflexivity).
  assert (F3' : Forall (fun t => Sample.noon <= t)
                  [Sample.noon + 1000; Sample.noon + 2000; Sample.noon + 3000])
    by (repeat constructor; apply Z.leb_le; reflexivity).
  split; [exact Hr|]. split; [reflexivity|].
  pose proof (quota_ceiling_in_turn_and_overlapping "ev1" Sample.request "alice"
                Sample.hunt Sample.noon [Sample.noon; Sample.noon + 1000]
                [Sample.noon; Sample.noon + 1000] Sample.quiet_world
                Hr eq_refl eq_refl Ha F2 F2 eq_refl) as C.
  cbv zeta in C. destruct C as (_ & C & _).
  destruct C as [C1 C2].
  { right. apply Z.leb_le. reflexivity. }
  { right. apply Z.leb_le. reflexivity. }
  split; [exact C1|].
  split.
  { apply (C2 (Sample.noon + 2000)). left.
    split; [reflexivity|]. split; apply Z.leb_le; reflexivity. }
  pose proof (quota_ceiling_in_turn_and_overlapping "ev1" Sample.request "alice"
                Sample.hunt Sample.noon
                [Sample.noon; Sample.noon + 1; Sample.noon + 2]
                [Sample.noon + 1000; Sample.noon + 2000; Sample.noon + 3000]
                Sample.quiet_world
                Hr eq_refl eq_refl Ha F3 F3' eq_refl) as D.
  cbv zeta in D. destruct D as (_ & _ & D).
  pose proof (D ltac:(right; apply Z.ltb_lt; reflexivity)
                ltac:(right; apply Z.ltb_lt; reflexivity)) as D'.
  split; [exact D'|].
  destruct D' as (_ & _ & D4 & _).
  rewrite (D4 (Sample.noon - HOUR)) by (apply Z.leb_le; reflexivity).
  reflexivity.
Defined.

(** ** What reaches the transport *)

Lemma mails_app j1 j2 : mails (j1 ++ j2) = (mails j1 ++ mails j2)%list.
Proof.
  induction j1 as [|o j1 IH]; [reflexivity|].
  destruct o; cbn; rewrite IH; reflexivity.
Qed.

Lemma only_counts_no_mail ops :
  Forall (fun o => exists a t, o = OpEmailLogCount a t) ops -> mails ops = [].
Proof. induction 1 as [|o ops [a [t ->]] _ IH]; simpl; auto. Qed.

Lemma logEmail_mails p w :
  mails (journal (snd (logEmail p w))) = mails (journal w).
Proof. rewrite logEmail_journal, mails_app. cbn. apply app_nil_r. Qed.

Lemma delivered_mails o s w :
  mails (journal (snd (delivered o s w)))
  = (mails (journal w) ++ [dispatch_mail o s])%list
  /\ exists st, fst (delivered o s w) = Ok st
                /\ (st = St_sent \/ exists m, st = St_error m).
Proof.
  destruct (delivered_effect o s w) as (H1 & H2 & _). cbv zeta in *.
  split.
  - rewrite H2, mails_app. reflexivity.
  - eexists; split; [exact H1|]. destruct (smtpFault w); eauto.
Qed.

(** X8. The sender hands the transport a message exactly when it ends with
    status sent or error, and then exactly one: the message it rendered
    for its options and the stored settings.  When it ends disabled or
    rate limited, or fails, nothing has reached the transport. *)
Theorem sender_mail_matches_status (o : InvitationEmailOptions) (w : World) :
  mails (journal (snd (sendInvitationEmail o w)))
  = (mails (journal w)
     ++ match fst (sendInvitationEmail o w) with
        | Ok St_sent | Ok (St_error _) => [dispatch_mail o (systemSetting (db w))]
        | _ => []
        end)%list.
Proof.
  assert (D : forall ops, mails ops = [] ->
    mails (journal (snd (delivered o (systemSetting (db w)) (log_ops ops w))))
    = (mails (journal w)
       ++ match fst (delivered o (systemSetting (db w)) (log_ops ops w)) with
          | Ok St_sent | Ok (St_error _) => [dispatch_mail o (systemSetting (db w))]
          | _ => []
          end)%list).
  { intros ops Hops.
    destruct (delivered_mails o (systemSetting (db w)) (log_ops ops w))
      as (H1 & st & H2 & H3).
    rewrite H1, H2. cbn [log_ops journal]. rewrite mails_app, Hops, app_nil_r.
    destruct H3 as [-> | [m ->]]; reflexivity. }
  rewrite sendInvitationEmail_run. cbv zeta.
  destruct (transport_unusable _ _).
  { cbn [fst snd]. rewrite logEmail_mails. cbn [log_op journal].
    rewrite mails_app. cbn. rewrite !app_nil_r. reflexivity. }
  destruct (negb (Js.nullish (o_skipRateCheck o) false)).
  - destruct (checkRateLimit_frame (o_adminId o) (systemSetting (db w))
                (log_op OpSettingsFind w)) as (rate & ops & E & Hcnt & _).
    apply only_counts_no_mail in Hcnt.
    rewrite E.
    assert (Hw : log_ops ops (log_op OpSettingsFind w)
                 = log_ops (OpSettingsFind :: ops) w).
    { unfold log_ops, log_op. cbn. rewrite <- app_assoc. reflexivity. }
    rewrite Hw.
    destruct (negb (allowed rate)).
    + cbn [fst snd]. rewrite logEmail_mails. cbn [log_ops journal].
      rewrite mails_app. cbn. rewrite Hcnt, !app_nil_r. reflexivity.
    + apply D. cbn. exact Hcnt.
  - apply (D [OpSettingsFind]). reflexivity.
Qed.

(** ** Toggling invitations *)

Lemma Forall2_compose {A} (R1 R2 R3 : A -> A -> Prop) :
  (forall a b c, R1 a b -> R2 b c -> R3 a c) ->
  forall l1 l2 l3, Forall2 R1 l1 l2 -> Forall2 R2 l2 l3 -> Forall2 R3 l1 l3.
Proof.
  intros H l1 l2 l3 H1. revert l3.
  induction H1 as [|a b l1 l2 Hab _ IH]; intros l3 H2; inversion H2; subst;
    constructor; eauto.
Qed.

Lemma Forall2_same {A} (R : A -> A -> Prop) (l : list A) :
  (forall a, R a a) -> Forall2 R l l.
Proof. intros H. induction l; constructor; auto. Qed.

Lemma toggled_at_most_refl ids i : toggled_at_most ids i i.
Proof. split; auto. Qed.

Lemma update_invitation_toggled id f l u l' :
  Prisma.update_invitation id f l = Some (u, l') ->
  (forall x, frozen (f x) = frozen x) ->
  Forall2 (toggled_at_most [id]) l l'.
Proof.
  intros H Hf. revert u l' H.
  induction l as [|i l IH]; intros u l' H; simpl in H; [discriminate|].
  destruct (String.eqb_spec (inv_id i) id) as [E|E].
  - injection H as <- <-. constructor.
    + split; [apply Hf|]. intros Hn. exfalso. apply Hn. left. symmetry. exact E.
    + apply Forall2_same. intros a. apply toggled_at_most_refl.
  - destruct (Prisma.update_invitation id f l) as [[u0 l0]|] eqn:E0; [| discriminate].
    injection H as <- <-. constructor.
    + apply toggled_at_most_refl.
    + eapply IH. reflexivity.
Qed.

Lemma putInvitation_toggled eventId id flag w :
  let w' := snd (putInvitation eventId id flag w) in
  Forall2 (toggled_at_most [id]) (invitations (db w)) (invitations (db w'))
  /\ emailLogs (db w') = emailLogs (db w)
  /\ events (db w') = events (db w)
  /\ systemSetting (db w') = systemSetting (db w).
Proof.
  cbv zeta.
  assert (R : Forall2 (toggled_at_most [id]) (invitations (db w)) (invitations (db w)))
    by (apply Forall2_same; intros a; apply toggled_at_most_refl).
  unfold putInvitation.
  destruct flag as [active|]; [| cbn; auto].
  unfold bind, Prisma.invitation_findFirst, gets, Prisma.invitation_update, respond, ret.
  cbn [db now log_op].
  destruct (find _ _) as [i|]; [| cbn; auto].
  cbn [db now log_op].
  destruct (Prisma.update_invitation id _ (invitations (db w))) as [[u l]|] eqn:E;
    cbn [snd db set_db Prisma.set_invitations invitations log_op]; [| cbn; auto].
  split; [| destruct (db w); cbn; auto].
  eapply update_invitation_toggled; [exact E|]. intros x. reflexivity.
Qed.

(** X10. Toggle requests touch nothing but the flag and its stamp.  Across any
    sequence of SetInvitationActive requests, whatever they name and
    whatever their bodies, the invitation table keeps its rows in their
    places, each with the id, event, token, delivery method, address,
    creation time and use time it had; a row that no request names is
    exactly as it was; and the audit table, the events and the settings
    are as they were. *)
Theorem toggles_touch_only_the_flag (reqs : list ToggleRequest) (w : World) :
  let w' := serve_toggles reqs w in
  Forall2 (toggled_at_most (map r_invitationId reqs))
          (invitations (db w)) (invitations (db w'))
  /\ emailLogs (db w') = emailLogs (db w)
  /\ events (db w') = events (db w)
  /\ systemSetting (db w') = systemSetting (db w).
Proof.
  cbv zeta. revert w.
  induction reqs as [|r reqs IH]; intros w.
  - cbn. split; [| auto]. apply Forall2_same. intros a. apply toggled_at_most_refl.
  - cbn [serve_toggles map].
    destruct (putInvitation_toggled (r_eventId r) (r_invitationId r) (r_isActive r)
                (set_now (r_at r) w)) as (P1 & P2 & P3 & P4).
    cbv zeta in *. cbn [set_now db] in P1, P2, P3, P4.
    destruct (IH (snd (putInvitation (r_eventId r) (r_invitationId r) (r_isActive r)
                         (set_now (r_at r) w)))) as (I1 & I2 & I3 & I4).
    split; [| rewrite I2, I3, I4; auto].
    eapply Forall2_compose; [| exact P1 | exact I1].
    intros a b c [F1 U1] [F2 U2]. split; [congruence|].
    intros Hn.
    assert (Eb : b = a).
    { apply U1. intros [E|[]]. apply Hn. left. exact E. }
    subst b. apply U2. intros Hin. apply Hn. right. exact Hin.
Qed.

Lemma update_invitation_row id tok f l i :
  find (fun x => (inv_id x =? id)%string) l = Some i ->
  (forall x, inv_id (f x) = inv_id x) ->
  (forall x, token (f x) = token x) ->
  exists l', Prisma.update_invitation id f l = Some (f i, l')
             /\ find (fun x => (inv_id x =? id)%string) l' = Some (f i)
             /\ (find (fun x => (token x =? tok)%string) l = Some i ->
                 find (fun x => (token x =? tok)%string) l' = Some (f i)).
Proof.
  intros H Hid Htok. induction l as [|x l IH]; simpl in *; [discriminate|].
  destruct (inv_id x =? id)%string eqn:E.
  - injection H as ->. eexists; split; [reflexivity|]. split.
    + simpl. rewrite Hid, E. reflexivity.
    + simpl. rewrite Htok. destruct (token i =? tok)%string eqn:Et; [reflexivity|].
      intros Ht. apply find_some in Ht. destruct Ht as [_ Ht].
      cbn in Ht. congruence.
  - destruct (IH H) as (l' & E1 & E2 & E3). rewrite E1.
    eexists; split; [reflexivity|]. split; [simpl; rewrite E; exact E2|].
    simpl. destruct (token x =? tok)%string eqn:Et.
    + intros [= ->]. apply find_some in H. destruct H as [_ H].
      cbn in H. congruence.
    + exact E3.
Qed.

(** One request on an invitation of the event: the row it leaves, seen by
    id and seen by token. *)
Lemma putInvitation_row eventId id tok active t w i :
  invitation_by_id id w = Some i ->
  inv_eventId i = eventId ->
  let w' := snd (putInvitation eventId id (Some active) (set_now t w)) in
  invitation_by_id id w' = Some (with_flag active t i)
  /\ (invitation_by_token tok w = Some i ->
      invitation_by_token tok w' = Some (with_flag active t i))
  /\ events (db w') = events (db w).
Proof.
  intros Hf He. cbv zeta. unfold invitation_by_id, invitation_by_token in *.
  unfold putInvitation, bind, Prisma.invitation_findFirst, gets,
    Prisma.invitation_update, respond, ret.
  cbn [db now log_op set_now].
  rewrite (findFirst_of_by_id id eventId _ i Hf He).
  cbn [db now log_op set_now].
  match goal with
  | |- context [Prisma.update_invitation id ?f _] =>
    destruct (update_invitation_row id tok f _ i Hf (fun _ => eq_refl)
                (fun _ => eq_refl)) as (l' & E1 & E2 & E3)
  end.
  rewrite E1.
  cbn [fst snd db set_db Prisma.set_invitations invitations log_op].
  split; [exact E2|]. split; [exact E3|]. destruct (db w); reflexivity.
Qed.

(** X11. Revocation reaches the join route at once and can be undone.  For an
    invitation of an existing event, found under its id and under its
    token: once it has been switched off, its token is answered with the
    neutral sentence at any later time, also after the event has ended;
    once it has been switched on again, the token opens the event as
    before, until the event ends. *)
Theorem revocation_reaches_join_route
    (eventId id tok : string) (i : Invitation) (e : Event) (w : World)
    (t t' tj : Z) :
  invitation_by_id id w = Some i ->
  invitation_by_token tok w = Some i ->
  inv_eventId i = eventId ->
  Prisma.event_lookup eventId (db w) = Some e ->
  let off := snd (putInvitation eventId id (Some false) (set_now t w)) in
  let on := snd (putInvitation eventId id (Some true) (set_now t' off)) in
  fst (getJoin tok (set_now tj off))
  = Ok {| code := 400; payload := JMessage NEUTRAL |}
  /\ fst (getJoin tok (set_now tj on))
     = Ok (if endsAt e <? tj
           then {| code := 400; payload := JMessage "Event expired" |}
           else {| code := 200;
                   payload := JJoin (mapEventResponse e) tok (deliveryMethod i) |}).
Proof.
  intros Hid Htok He Hev. cbv zeta.
  assert (Ht : token i = tok).
  { unfold invitation_by_token in Htok. apply find_some in Htok.
    destruct Htok as [_ Htok]. apply String.eqb_eq. exact Htok. }
  destruct (putInvitation_row eventId id tok false t w i Hid He) as (A1 & A2 & A3).
  cbv zeta in *. specialize (A2 Htok).
  set (off := snd (putInvitation eventId id (Some false) (set_now t w))) in *.
  destruct (putInvitation_row eventId id tok true t' off (with_flag false t i) A1 He)
    as (B1 & B2 & B3).
  cbv zeta in *. specialize (B2 A2).
  set (on := snd (putInvitation eventId id (Some true) (set_now t' off))) in *.
  assert (Eoff : Prisma.event_lookup eventId (db off) = Some e).
  { unfold Prisma.event_lookup in *. rewrite A3. exact Hev. }
  assert (Eon : Prisma.event_lookup eventId (db on) = Some e).
  { unfold Prisma.event_lookup in *. rewrite B3. exact Eoff. }
  split.
  - rewrite (getJoin_found tok (set_now tj off) (with_flag false t i) e);
      [reflexivity | exact A2 | cbn; rewrite He; exact Eoff].
  - rewrite (getJoin_found tok (set_now tj on)
               (with_flag true t' (with_flag false t i)) e);
      [| exact B2 | cbn; rewrite He; exact Eon].
    cbn. rewrite Ht. reflexivity.
Qed.

Lemma revocation_reaches_join_route_witness :
  invitation_by_id "c0" Sample.invited = Some Sample.the_invitation
  /\ invitation_by_token "a1b2c30" Sample.invited = Some Sample.the_invitation
  /\ Prisma.event_lookup "ev1" (db Sample.invited) = Some Sample.hunt
  /\ fst (getJoin "a1b2c30"
            (set_now (Sample.noon + 2)
               (snd (putInvitation "ev1" "c0" (Some false)
                       (set_now (Sample.noon + 1) Sample.invited)))))
     = Ok {| code := 400; payload := JMessage NEUTRAL |}.
Proof.
  assert (H1 : invitation_by_id "c0" Sample.invited = Some Sample.the_invitation)
    by reflexivity.
  assert (H2 : invitation_by_token "a1b2c30" Sample.invited
               = Some Sample.the_invitation) by reflexivity.
  assert (H3 : Prisma.event_lookup "ev1" (db Sample.invited) = Some Sample.hunt)
    by reflexivity.
  split; [exact H1|]. split; [exact H2|]. split; [exact H3|].
  exact (proj1 (revocation_reaches_join_route "ev1" "c0" "a1b2c30"
                  Sample.the_invitation Sample.hunt Sample.invited
                  (Sample.noon + 1) (Sample.noon + 3) (Sample.noon + 2)
                  H1 H2 eq_refl H3)).
Defined.

(** ** Deleting an event, and what the join route then says *)

Lemma filter_strb_neq_iff {A} (key : A -> string) id (l : list A) x :
  In x (filter (fun a => Prisma.strb_neq (key a) id) l) <-> In x l /\ key x <> id.
Proof.
  rewrite filter_In. unfold Prisma.strb_neq.
  rewrite negb_true_iff, String.eqb_neq. reflexivity.
Qed.

(** X13. Deleting an event that exists removes exactly what belongs to it.  A
    row of another event (an invitation, an audit record, a cache, a
    player, an event) is in the store afterwards if and only if it was
    there before; a recorded find stays unless its cache was one of the
    event's; the settings stay; and a token that only invitations of the
    deleted event carried is unknown to the join route from then on. *)
Theorem deleteEvent_removes_exactly (id : string) (w : World) :
  existsb (fun e => (event_id e =? id)%string) (events (db w)) = true ->
  let s := db w in
  let s' := db (snd (deleteEvent id w)) in
  (forall i, In i (invitations s') <-> In i (invitations s) /\ inv_eventId i <> id)
  /\ (forall l, In l (emailLogs s') <-> In l (emailLogs s) /\ log_eventId l <> Some id)
  /\ (forall c, In c (caches s') <-> In c (caches s) /\ cache_eventId c <> id)
  /\ (forall p, In p (players s') <-> In p (players s) /\ player_eventId p <> id)
  /\ (forall e, In e (events s') <-> In e (events s) /\ event_id e <> id)
  /\ (forall f, In f (cacheFinds s') <->
                In f (cacheFinds s)
                /\ ~ exists c, In c (caches s)
                               /\ cache_id c = find_cacheId f /\ cache_eventId c = id)
  /\ systemSetting s' = systemSetting s
  /\ forall tok t,
       (forall i, In i (invitations s) -> token i = tok -> inv_eventId i = id) ->
       fst (getJoin tok (set_now t (snd (deleteEvent id w))))
       = Ok {| code := 404; payload := JMessage "Invitation not found" |}.
Proof.
  intros E. cbv zeta.
  unfold deleteEvent, bind, Prisma.transaction, respond, ret.
  unfold Prisma.run_ops, Prisma.emailLog_deleteMany, Prisma.cacheFind_deleteMany,
    Prisma.invitation_deleteMany, Prisma.cache_deleteMany,
    Prisma.player_deleteMany, Prisma.event_delete, Prisma.set_invitations.
  cbn [events invitations emailLogs caches cacheFinds players systemSetting].
  rewrite E.
  cbn [snd fst db set_db events invitations emailLogs caches cacheFinds players
       systemSetting].
  split; [intros i; apply filter_strb_neq_iff|].
  split.
  { intros l. rewrite filter_In. unfold Prisma.strb_neq.
    destruct (log_eventId l) as [e|].
    - rewrite negb_true_iff, String.eqb_neq. split; intros [H1 H2]; split; congruence.
    - split; intros [H1 H2]; split; congruence. }
  split; [intros c; apply filter_strb_neq_iff|].
  split; [intros p; apply filter_strb_neq_iff|].
  split; [intros e; apply filter_strb_neq_iff|].
  split.
  { intros f. rewrite filter_In, negb_true_iff.
    rewrite <- not_true_iff_false, existsb_exists.
    split; intros [H1 H2]; split; auto; intros (c & Hc & Hx); apply H2; exists c.
    - destruct Hx as [-> ->]. rewrite !String.eqb_refl. auto.
    - apply andb_true_iff in Hx. rewrite !String.eqb_eq in Hx. tauto. }
  split; [reflexivity|].
  intros tok t Hown.
  apply getJoin_unknown. unfold invitation_by_token.
  cbn [set_now db set_db invitations].
  apply find_none_iff. intros x Hx.
  apply filter_strb_neq_iff in Hx. destruct Hx as [Hx Hne].
  apply String.eqb_neq. intros Ht. apply Hne. apply Hown; assumption.
Qed.

Lemma deleteEvent_removes_exactly_witness :
  existsb (fun e => (event_id e =? "old")%string) (events (db Sample.stale_world)) = true
  /\ fst (getJoin "feedbeef"
            (set_now Sample.noon (snd (deleteEvent "old" Sample.stale_world))))
     = Ok {| code := 404; payload := JMessage "Invitation not found" |}.
Proof.
  assert (H : existsb (fun e => (event_id e =? "old")%string)
                (events (db Sample.stale_world)) = true) by reflexivity.
  split; [exact H|].
  pose proof (deleteEvent_removes_exactly "old" Sample.stale_world H) as C.
  cbv zeta in C.
  destruct C as (_ & _ & _ & _ & _ & _ & _ & C).
  apply C. intros i [<-|[]] _. reflexivity.
Defined.

(** ** What the retention cleanup removes *)

Lemma filter_filter {A} (f g : A -> bool) (l : list A) :
  filter f (filter g l) = filter (fun x => g x && f x) l.
Proof.
  induction l as [|a l IH]; [reflexivity|]. simpl.
  destruct (g a); simpl; [destruct (f a)|]; rewrite IH; reflexivity.
Qed.

Lemma mem_cons id x ids :
  mem id (x :: ids) = negb (Prisma.strb_neq id x) || mem id ids.
Proof.
  unfold mem, Prisma.strb_neq. cbn. rewrite negb_involutive, String.eqb_sym.
  reflexivity.
Qed.

Lemma mem_In id ids : mem id ids = true <-> In id ids.
Proof.
  unfold mem. rewrite existsb_exists. split.
  - intros (x & Hx & E). apply String.eqb_eq in E. subst. exact Hx.
  - intros H. exists id. split; [exact H | apply String.eqb_refl].
Qed.

Lemma filter_not_mem_cons {A} (key : A -> string) evt rest (l : list A) :
  filter (fun a => negb (mem (key a) rest))
         (filter (fun a => Prisma.strb_neq (key a) evt) l)
  = filter (fun a => negb (mem (key a) (evt :: rest))) l.
Proof.
  rewrite filter_filter. apply filter_ext. intros a.
  rewrite mem_cons. destruct (Prisma.strb_neq (key a) evt); reflexivity.
Qed.

Lemma filter_all {A} (l : list A) : filter (fun _ => true) l = l.
Proof. induction l as [|a l IH]; [reflexivity|]. cbn. rewrite IH. reflexivity. Qed.

(** What the calls for a list of events leave of the events table, in a
    database that deletes events on request only: the events of those ids
    for which the calls were all fulfilled are gone, and no other. *)
Lemma commit_each_events E :
  deletes_events_on_request E ->
  forall ids s r s',
    commit_each E (flat_map cleanup_calls ids) s = (r, s') ->
    exists done,
      events s' = filter (fun e => negb (mem (event_id e) done)) (events s)
      /\ incl done ids
      /\ (r = Ok tt -> done = ids).
Proof.
  intros (L1 & L2 & L3). induction ids as [|evt rest IH]; intros s r s' H.
  - cbn in H. injection H as <- <-. exists []. unfold mem. cbn.
    rewrite filter_all. split; [reflexivity|]. split; [apply incl_refl | reflexivity].
  - cbn [flat_map cleanup_calls app commit_each] in H.
    assert (Stop : forall s0, events s0 = events s -> (exists e, r = Throw e) ->
                   s' = s0 ->
                   exists done,
                     events s' = filter (fun e => negb (mem (event_id e) done)) (events s)
                     /\ incl done (evt :: rest) /\ (r = Ok tt -> done = evt :: rest)).
    { intros s0 E0 [e ->] ->. exists []. unfold mem. cbn. rewrite filter_all.
      split; [exact E0|]. split; [intros x []| discriminate]. }
    destruct (E (CacheFind_deleteMany evt) s) as [[[]|e1] s1] eqn:E1.
    2:{ injection H as <- <-. apply (Stop s1); eauto.
        eapply L1; [exact E1 | discriminate]. }
    assert (V1 : events s1 = events s) by (eapply L1; [exact E1 | discriminate]).
    destruct (E (Invitation_deleteMany evt) s1) as [[[]|e2] s2] eqn:E2.
    2:{ injection H as <- <-. apply (Stop s2); eauto.
        rewrite <- V1. eapply L1; [exact E2 | discriminate]. }
    assert (V2 : events s2 = events s)
      by (rewrite <- V1; eapply L1; [exact E2 | discriminate]).
    destruct (E (Cache_deleteMany evt) s2) as [[[]|e3] s3] eqn:E3.
    2:{ injection H as <- <-. apply (Stop s3); eauto.
        rewrite <- V2. eapply L1; [exact E3 | discriminate]. }
    assert (V3 : events s3 = events s)
      by (rewrite <- V2; eapply L1; [exact E3 | discriminate]).
    destruct (E (Event_delete evt) s3) as [[[]|e4] s4] eqn:E4.
    2:{ injection H as <- <-. apply (Stop s4); eauto.
        rewrite <- V3. eapply L3. exact E4. }
    destruct (IH _ _ _ H) as (done & D1 & D2 & D3).
    exists (evt :: done). split.
    + rewrite D1, (L2 _ _ _ E4), V3. apply (filter_not_mem_cons event_id).
    + split.
      * intros x [<-|Hx]; [left; reflexivity | right; apply D2; exact Hx].
      * intros ->. rewrite D3; reflexivity.
Qed.

Lemma event_ids_agree (l : list Event) a b :
  NoDup (map event_id l) -> In a l -> In b l -> event_id a = event_id b -> a = b.
Proof.
  induction l as [|x l IH]; simpl; intros H Ha Hb E; [contradiction|].
  inversion H as [|? ? Hnin Hnd]; subst.
  destruct Ha as [<-|Ha], Hb as [<-|Hb]; auto.
  - exfalso. apply Hnin. rewrite E. apply in_map. exact Hb.
  - exfalso. apply Hnin. rewrite <- E. apply in_map. exact Ha.
Qed.

Lemma expired_ids_spec daysBefore w e :
  NoDup (map event_id (events (db w))) ->
  In e (events (db w)) ->
  mem (event_id e) (expired_ids daysBefore w) = (endsAt e <? cutoff daysBefore w).
Proof.
  intros Hnd He. apply eq_true_iff_eq. rewrite mem_In. unfold expired_ids.
  rewrite in_map_iff. split.
  - intros (e' & Hid & Hin). apply filter_In in Hin as [Hin Hx].
    rewrite <- (event_ids_agree _ e' e Hnd Hin He Hid). exact Hx.
  - intros Hx. exists e. split; [reflexivity|]. apply filter_In. auto.
Qed.

Lemma prisma_defaults_deletes_events_on_request :
  deletes_events_on_request prisma_defaults.
Proof.
  split; [| split].
  - intros c s r s' H Hc. destruct c; cbn in H.
    + injection H as _ <-. reflexivity.
    + injection H as _ <-. reflexivity.
    + injection H as _ <-. reflexivity.
    + destruct (existsb _ (cacheFinds s)); injection H as _ <-; reflexivity.
    + destruct (existsb _ (cacheFinds s)); injection H as _ <-; reflexivity.
    + exfalso. eapply Hc. reflexivity.
  - intros id s s' H. cbn in H.
    destruct (negb _); [discriminate|].
    destruct (_ || _); [discriminate|].
    injection H as <-. reflexivity.
  - intros id s e s' H. cbn in H.
    destruct (negb _); [injection H as _ <-; reflexivity|].
    destruct (_ || _); [injection H as _ <-; reflexivity | discriminate].
Qed.

(** X14. Which events the retention cleanup removes, in any database
    that deletes events on request only, on a store whose event ids are
    distinct.  An event that ended at the cutoff or later is never
    removed, also when the run fails half way.  When the run finishes
    normally, exactly the events that ended before the cutoff are gone,
    and the script prints their number; when it fails, it has not
    printed that line.  The cutoff is the retention period (30 days unless the
    environment says otherwise) before now in the host's calendar. *)
Theorem cleanup_removes_expired_events_only
    (E : Engine) (daysBefore : Calendar) (w : World) :
  deletes_events_on_request E ->
  NoDup (map event_id (events (db w))) ->
  let r := run E daysBefore w in
  (forall e, In e (events (db w)) -> cutoff daysBefore w <= endsAt e ->
             In e (events (db (snd r))))
  /\ (fst r = Ok tt ->
      events (db (snd r))
      = filter (fun e => cutoff daysBefore w <=? endsAt e) (events (db w))
      /\ console (snd r)
         = (console w
            ++ [("Cleaned "
                 ++ Js.decimal (Z.of_nat (List.length (events (db w))
                                          - List.length (events (db (snd r)))))
                 ++ " expired events")%string])%list)
  /\ (forall e, fst r = Throw e -> console (snd r) = console w).
Proof.
  intros HE Hnd. cbv zeta.
  rewrite run_commits. cbv zeta.
  destruct (commit_each E (flat_map cleanup_calls (expired_ids daysBefore w)) (db w))
    as [r s'] eqn:C.
  destruct (commit_each_events E HE _ _ _ _ C) as (done & D1 & D2 & D3).
  assert (Keep : forall e, In e (events (db w)) -> cutoff daysBefore w <= endsAt e ->
                           In e (events s')).
  { intros e He Hle. rewrite D1. apply filter_In. split; [exact He|].
    apply negb_true_iff. apply not_true_iff_false. intros Hm.
    apply mem_In, D2, mem_In in Hm.
    rewrite (expired_ids_spec daysBefore w e Hnd He) in Hm.
    apply Z.ltb_lt in Hm. lia. }
  destruct r as [[]|e].
  - cbn [fst snd db set_db print console].
    assert (Hev : events s'
                  = filter (fun e => cutoff daysBefore w <=? endsAt e) (events (db w))).
    { rewrite D1, (D3 eq_refl). apply filter_ext_in. intros e He.
      rewrite (expired_ids_spec daysBefore w e Hnd He), Z.leb_antisym.
      reflexivity. }
    split; [exact Keep|]. split; [| discriminate].
    intros _. split; [exact Hev|].
    rewrite Hev. unfold expired_ids. rewrite length_map.
    assert (L : forall l : list Event,
              List.length (filter (fun e => endsAt e <? cutoff daysBefore w) l)
              = Nat.sub (List.length l)
                  (List.length (filter (fun e => cutoff daysBefore w <=? endsAt e) l))).
    { intros l. induction l as [|e l IHl]; [reflexivity|].
      assert (B : Nat.le (List.length
                            (filter (fun e => cutoff daysBefore w <=? endsAt e) l))
                         (List.length l)) by apply filter_length_le.
      cbn [filter]. rewrite Z.leb_antisym.
      destruct (endsAt e <? cutoff daysBefore w); cbn [negb List.length]; lia. }
    rewrite L. reflexivity.
  - cbn [fst snd db set_db console].
    split; [exact Keep|]. split; [discriminate | reflexivity].
Qed.

Lemma cleanup_removes_expired_events_only_witness :
  deletes_events_on_request prisma_defaults
  /\ NoDup (map event_id (events (db Sample.stale_world)))
  /\ fst (run prisma_defaults utc Sample.stale_world) = Ok tt
  /\ events (db (snd (run prisma_defaults utc Sample.stale_world)))
     = filter (fun e => cutoff utc Sample.stale_world <=? endsAt e)
              (events (db Sample.stale_world)).
Proof.
  assert (H1 : deletes_events_on_request prisma_defaults)
    by exact prisma_defaults_deletes_events_on_request.
  assert (H2 : NoDup (map event_id (events (db Sample.stale_world)))).
  { repeat constructor. intros []. }
  assert (H3 : fst (run prisma_defaults utc Sample.stale_world) = Ok tt)
    by reflexivity.
  split; [exact H1|]. split; [exact H2|]. split; [exact H3|].
  pose proof (cleanup_removes_expired_events_only prisma_defaults utc
                Sample.stale_world H1 H2) as C.
  cbv zeta in C. destruct C as (_ & C & _).
  exact (proj1 (C H3)).
Defined.

(** ** Rendering templates *)

Lemma scan_key_reads k post :
  key_chars k = true ->
  scan_key (k ++ "}}" ++ post) = Some (k, (String.length k + 2)%nat).
Proof.
  induction k as [|c k IH]; intros H.
  - change ("" ++ "}}" ++ post) with (String "}" (String "}" post)).
    cbn [scan_key]. change (String "}" (String "}" post)) with ("}}" ++ post).
    rewrite prefix_app. reflexivity.
  - cbn [key_chars] in H. apply andb_true_iff in H as [H Hk].
    apply andb_true_iff in H as [Hc Hl].
    apply negb_true_iff in Hc. apply negb_true_iff in Hl.
    change (String c k ++ "}}" ++ post) with (String c (k ++ "}}" ++ post)).
    cbn [scan_key].
    assert (P : String.prefix "}}" (String c (k ++ "}}" ++ post)) = false).
    { rewrite prefix_cons. rewrite Ascii.eqb_sym, Hc. reflexivity. }
    rewrite P, Hl, (IH Hk). reflexivity.
Qed.

Lemma render_from_skip a s c :
  render_from (String.length a) (a ++ s) c = render_from 0 s c.
Proof.
  induction a as [|x a IH]; [destruct s; reflexivity|].
  cbn [String.length append render_from]. exact IH.
Qed.

Lemma match_placeholder_other ch s :
  Ascii.eqb ch "{" = false -> match_placeholder (String ch s) = None.
Proof.
  intros H. destruct ch as [[] [] [] [] [] [] [] []]; try reflexivity; discriminate.
Qed.

Lemma render_from_plain pre s c :
  brace_free pre -> render_from 0 (pre ++ s) c = pre ++ render_from 0 s c.
Proof.
  unfold brace_free. induction pre as [|ch pre IH]; intros H; [reflexivity|].
  cbn [has_char] in H. apply orb_false_iff in H as [Hc Hp].
  cbn [append render_from]. rewrite (match_placeholder_other ch _ Hc), (IH Hp).
  reflexivity.
Qed.

Lemma render_from_placeholder k post c :
  key_chars k = true ->
  render_from 0 ("{{" ++ k ++ "}}" ++ post) c
  = Js.nullish (context_get c (trim k)) "" ++ render_from 0 post c.
Proof.
  intros Hk.
  change ("{{" ++ k ++ "}}" ++ post)
    with (String "{" (String "{" (k ++ "}}" ++ post))).
  cbn [render_from match_placeholder]. rewrite (scan_key_reads k post Hk).
  cbn [Nat.pred Nat.add]. f_equal.
  rewrite <- string_app_assoc.
  replace (String.length k + 2)%nat with (String.length (k ++ "}}"))
    by (rewrite string_app_length; reflexivity).
  apply render_from_skip.
Qed.

(** X15. The renderer copies text without an opening brace as it is, and at
    the first placeholder after such text it puts the context's value for
    the trimmed key and goes on with the rest of the template; the value
    itself is not rendered again.  This is for a key of ASCII characters
    without closing brace or line terminator that, trimmed, is one of the
    context's five keys or a name that objects do not inherit; for such a
    name that the context does not have, nothing is put. *)
Theorem renderTemplate_substitutes (pre : string) (c : TemplateContext) :
  brace_free pre ->
  renderTemplate pre c = pre
  /\ forall k post,
       plain_key k = true ->
       renderTemplate (pre ++ "{{" ++ k ++ "}}" ++ post) c
       = pre ++ Js.nullish (context_get c (trim k)) "" ++ renderTemplate post c.
Proof.
  intros Hp. unfold renderTemplate. split.
  - rewrite <- (string_app_nil_r pre) at 1. rewrite (render_from_plain pre "" c Hp).
    apply string_app_nil_r.
  - intros k post Hk. unfold plain_key in Hk.
    apply andb_true_iff in Hk as [Hk _]. apply andb_true_iff in Hk as [Hk _].
    rewrite (render_from_plain pre _ c Hp), (render_from_placeholder k post c Hk).
    reflexivity.
Qed.

Lemma renderTemplate_substitutes_witness :
  brace_free "Hello "
  /\ renderTemplate ("Hello " ++ "{{" ++ " eventName " ++ "}}" ++ "{{nobody}}!")
       {| eventName := Some "{{inviteLink}}"; eventDescription := None;
          eventStart := None; eventEnd := None; inviteLink := Some "link" |}
     = "Hello {{inviteLink}}!".
Proof.
  assert (H : brace_free "Hello ") by reflexivity.
  split; [exact H|].
  exact (proj2 (renderTemplate_substitutes "Hello "
                  {| eventName := Some "{{inviteLink}}"; eventDescription := None;
                     eventStart := None; eventEnd := None;
                     inviteLink := Some "link" |} H)
               " eventName " "{{nobody}}!" eq_refl).
Defined.

(** ** The texts of a dispatch *)

Lemma or_default_falsy a d : Js.truthy a = false -> Js.or_default a d = d.
Proof.
  destruct a as [s|]; [| reflexivity]. cbn.
  destruct (s =? "")%string; [reflexivity | discriminate].
Qed.

Lemma brace_free_no_placeholder s p :
  brace_free s -> Js.includes s (String "{" p) = false.
Proof.
  unfold brace_free. induction s as [|a s IH]; intros H; [reflexivity|].
  cbn [has_char] in H. apply orb_false_iff in H as [Ha Hs].
  cbn [Js.includes]. rewrite prefix_cons, Ascii.eqb_sym, Ha. exact (IH Hs).
Qed.

Lemma render_default_body c :
  renderTemplate DEFAULT_BODY c
  = "Du wurdest zu " ++ Js.nullish (eventName c) "" ++ " eingeladen." ++ LF ++ LF
    ++ "Eventstart: " ++ Js.nullish (eventStart c) "" ++ LF
    ++ "Eventende: " ++ Js.nullish (eventEnd c) "" ++ LF ++ LF
    ++ "Einladungslink: " ++ Js.nullish (inviteLink c) "".
Proof.
  unfold renderTemplate.
  change DEFAULT_BODY
    with ("Du wurdest zu " ++ "{{" ++ "eventName" ++ "}}"
          ++ (" eingeladen." ++ LF ++ LF ++ "Eventstart: ") ++ "{{" ++ "eventStart" ++ "}}"
          ++ (LF ++ "Eventende: ") ++ "{{" ++ "eventEnd" ++ "}}"
          ++ (LF ++ LF ++ "Einladungslink: ") ++ "{{" ++ "inviteLink" ++ "}}" ++ "").
  rewrite (render_from_plain "Du wurdest zu ") by reflexivity.
  rewrite (render_from_placeholder "eventName") by reflexivity.
  rewrite (render_from_plain (" eingeladen." ++ LF ++ LF ++ "Eventstart: "))
    by reflexivity.
  rewrite (render_from_placeholder "eventStart") by reflexivity.
  rewrite (render_from_plain (LF ++ "Eventende: ")) by reflexivity.
  rewrite (render_from_placeholder "eventEnd") by reflexivity.
  rewrite (render_from_plain (LF ++ LF ++ "Einladungslink: ")) by reflexivity.
  rewrite (render_from_placeholder "inviteLink") by reflexivity.
  change (context_get c (trim "eventName")) with (eventName c).
  change (context_get c (trim "eventStart")) with (eventStart c).
  change (context_get c (trim "eventEnd")) with (eventEnd c).
  change (context_get c (trim "inviteLink")) with (inviteLink c).
  cbn [render_from].
  rewrite !string_app_assoc, string_app_nil_r. reflexivity.
Qed.

(** X16. The text of the message carries the join link.  Without a body
    template of the event's own, the text is the default one, filled with
    the event's name and dates and ending in the link.  A template of the
    event's own without any opening brace is sent as written, followed by
    an empty line and the link line.  A template with the link
    placeholder after text without opening brace has the link in the
    placeholder's place, and no link line is added. *)
Theorem mail_text_carries_link (o : InvitationEmailOptions) :
  (Js.truthy (invitationEmailBody (o_event o)) = false ->
   dispatch_body o = default_text o)
  /\ (brace_free (body_template o) ->
      dispatch_body o
      = body_template o ++ LF ++ LF ++ "Einladungslink: " ++ o_link o)
  /\ (forall pre post,
        body_template o = pre ++ PLACEHOLDER ++ post ->
        brace_free pre ->
        dispatch_body o
        = pre ++ o_link o ++ renderTemplate post (dispatch_context o)).
Proof.
  unfold dispatch_body. fold (body_template o).
  split; [| split].
  - intros H. unfold body_template. rewrite (or_default_falsy _ _ H).
    change (ensureInviteLinkPlaceholder DEFAULT_BODY) with DEFAULT_BODY.
    rewrite render_default_body. reflexivity.
  - intros H. unfold ensureInviteLinkPlaceholder, PLACEHOLDER.
    rewrite (brace_free_no_placeholder _ _ H).
    change (body_template o ++ LF ++ LF ++ "Einladungslink: {{inviteLink}}")
      with (body_template o
            ++ (LF ++ LF ++ "Einladungslink: ") ++ "{{" ++ "inviteLink" ++ "}}" ++ "").
    unfold renderTemplate.
    rewrite (render_from_plain (body_template o)) by exact H.
    rewrite (render_from_plain (LF ++ LF ++ "Einladungslink: ")) by reflexivity.
    rewrite (render_from_placeholder "inviteLink") by reflexivity.
    cbn [render_from]. cbn [dispatch_context inviteLink Js.nullish].
    change (context_get (dispatch_context o) (trim "inviteLink"))
      with (Some (o_link o)).
    cbn [Js.nullish]. rewrite string_app_nil_r, !string_app_assoc. reflexivity.
  - intros pre post E Hp. unfold ensureInviteLinkPlaceholder.
    rewrite E, includes_mid.
    change PLACEHOLDER with ("{{" ++ "inviteLink" ++ "}}").
    rewrite !string_app_assoc.
    unfold renderTemplate.
    rewrite (render_from_plain pre _ _ Hp).
    rewrite (render_from_placeholder "inviteLink") by reflexivity.
    reflexivity.
Qed.

(** X17. The subject that the gate records for a request it turns away is the
    subject the message would have had, for an event without subject
    template of its own and for one whose template has no opening brace:
    in the first case "Einladung: " followed by the event's name, in the
    second the template as written. *)
Theorem gate_subject_matches_sender
    (id : string) (body : InvitationPayload) (adminId : option string)
    (ev : Event) (msg : string) (w : World) :
  Js.truthy (invitationEmailSubject ev) = false
  \/ brace_free (Js.or_default (invitationEmailSubject ev) DEFAULT_SUBJECT) ->
  subject (gate_row body adminId ev msg w)
  = dispatch_subject (route_options id body adminId ev w)
  /\ (Js.truthy (invitationEmailSubject ev) = false ->
      subject (gate_row body adminId ev msg w) = "Einladung: " ++ name ev).
Proof.
  intros H. unfold dispatch_subject, gate_row.
  cbn [subject route_options o_event].
  assert (D : renderTemplate DEFAULT_SUBJECT
                (dispatch_context (route_options id body adminId ev w))
              = "Einladung: " ++ name ev).
  { unfold renderTemplate.
    change DEFAULT_SUBJECT with ("Einladung: " ++ "{{" ++ "eventName" ++ "}}" ++ "").
    rewrite (render_from_plain "Einladung: ") by reflexivity.
    rewrite (render_from_placeholder "eventName") by reflexivity.
    change (context_get (dispatch_context (route_options id body adminId ev w))
              (trim "eventName")) with (Some (name ev)).
    cbn [Js.nullish render_from]. rewrite string_app_nil_r. reflexivity. }
  split.
  - destruct H as [H|H].
    + rewrite !(or_default_falsy _ _ H). symmetry. exact D.
    + destruct (invitationEmailSubject ev) as [s|] eqn:E; [| discriminate H].
      cbn [Js.or_default] in *.
      destruct (s =? "")%string; [discriminate H|].
      unfold renderTemplate.
      rewrite <- (string_app_nil_r s) at 2.
      rewrite (render_from_plain s "" _ H). cbn [render_from].
      symmetry. apply string_app_nil_r.
  - intros F. apply or_default_falsy. exact F.
Qed.

Lemma gate_subject_matches_sender_witness :
  subject (gate_row Sample.request (Some "alice") Sample.hunt "limit" Sample.busy_world)
  = dispatch_subject
      (route_options "ev1" Sample.request (Some "alice") Sample.hunt Sample.busy_world).
Proof.
  exact (proj1 (gate_subject_matches_sender "ev1" Sample.request (Some "alice")
                  Sample.hunt "limit" Sample.busy_world (or_introl eq_refl))).
Defined.

(** ** The answers of the invitation route *)

(** The second half of the handler for an e-mail invitation: the sender
    is called with the quota check switched off. *)
Lemma issueAndSend_mail id body adminId ev w :
  pl_deliveryMethod body = EMAIL ->
  Js.truthy (pl_email body) = true ->
  let o := route_options id body adminId ev w in
  let ws := log_op OpSettingsFind (after_issuing id body w) in
  issueAndSend id body adminId ev w =
  if transport_unusable ev (systemSetting (db w)) then
    (Ok {| code := 201; payload := JInvitation (issued id body w) (join_link w) |},
     snd (logEmail (audit_params o DISABLED (Some "SMTP nicht konfiguriert")) ws))
  else
    match smtpFault w with
    | None =>
      (Ok {| code := 201; payload := JInvitation (issued id body w) (join_link w) |},
       snd (delivered o (systemSetting (db w)) ws))
    | Some e =>
      (Ok {| code := 500; payload := JMessage (failure_message e) |},
       snd (delivered o (systemSetting (db w)) ws))
    end.
Proof.
  intros Hm He. cbv zeta.
  assert (E : issueAndSend id body adminId ev w =
              match sendInvitationEmail (route_options id body adminId ev w)
                      (after_issuing id body w) with
              | (Ok (St_rate_limited m), w') =>
                bind (Prisma.invitation_delete (inv_id (issued id body w)))
                     (fun _ => respond 429 (JMessage m)) w'
              | (Ok (St_error m), w') => respond 500 (JMessage m) w'
              | (Ok _, w') =>
                respond 201 (JInvitation (issued id body w) (join_link w)) w'
              | (Throw e, w') => (Throw e, w')
              end).
  { unfold issueAndSend, bind at 1 2 3 4, gets, Prisma.invitation_create.
    cbn [log_op db created cuid randomHex now env bump set_db].
    rewrite Hm, He. cbn [is_EMAIL andb].
    unfold route_options, after_issuing, issued, join_link. rewrite Hm.
    cbn [inv_id].
    destruct (sendInvitationEmail _ _) as [[[]|] ?]; reflexivity. }
  rewrite E. clear E.
  rewrite (sendInvitationEmail_skipping (route_options id body adminId ev w)
             (after_issuing id body w) eq_refl).
  change (systemSetting (db (after_issuing id body w))) with (systemSetting (db w)).
  change (o_event (route_options id body adminId ev w)) with ev.
  destruct (transport_unusable ev (systemSetting (db w))); [reflexivity|].
  unfold delivered.
  change (smtpFault (log_op OpSettingsFind (after_issuing id body w)))
    with (smtpFault w).
  destruct (smtpFault w); reflexivity.
Qed.

(** The second half of the handler, in whatever world it runs: it stores
    the invitation and answers. *)
Lemma issueAndSend_ends id body adminId ev w :
  let r := issueAndSend id body adminId ev w in
  exists answer sts,
    fst r = Ok answer
    /\ audit_writes (journal (snd r)) = (audit_writes (journal w) ++ sts)%list
    /\ invitations (db (snd r)) = (invitations (db w) ++ [issued id body w])%list
    /\ RouteEnd (code answer) sts true
    /\ (sts = [DISABLED] <->
        is_EMAIL (pl_deliveryMethod body) && Js.truthy (pl_email body)
        && transport_unusable ev (systemSetting (db w)) = true).
Proof.
  cbv zeta.
  destruct (is_EMAIL (pl_deliveryMethod body) && Js.truthy (pl_email body)) eqn:Em.
  2:{ rewrite (issueAndSend_link id body adminId ev w Em).
      eexists _, []. cbn [fst snd code]. split; [reflexivity|].
      split.
      { unfold after_issuing. cbn [journal bump set_db log_op].
        rewrite audit_writes_app. reflexivity. }
      split; [reflexivity|]. split; [constructor|].
      split; discriminate. }
  apply andb_true_iff in Em as [Hm He].
  assert (Hm' : pl_deliveryMethod body = EMAIL)
    by (destruct (pl_deliveryMethod body); [discriminate | reflexivity]).
  rewrite (issueAndSend_mail id body adminId ev w Hm' He). cbv zeta.
  set (ws := log_op OpSettingsFind (after_issuing id body w)).
  set (o := route_options id body adminId ev w).
  assert (J : audit_writes (journal ws) = audit_writes (journal w)).
  { subst ws. unfold after_issuing. cbn [journal bump set_db log_op].
    rewrite !audit_writes_app. cbn. rewrite !app_nil_r. reflexivity. }
  cbn [andb].
  destruct (transport_unusable ev (systemSetting (db w))).
  - destruct (logEmail_one_audit_write
                (audit_params o DISABLED (Some "SMTP nicht konfiguriert")) ws)
      as (A1 & A2 & _).
    eexists _, [DISABLED]. cbn [fst snd code]. split; [reflexivity|].
    split; [rewrite A1, J; reflexivity|].
    split; [exact A2|]. split; [constructor|]. split; reflexivity.
  - destruct (delivered_effect o (systemSetting (db w)) ws) as (_ & _ & A).
    cbv zeta in A. destruct A as (A1 & A2 & _).
    change (smtpFault ws) with (smtpFault w) in A1.
    destruct (smtpFault w).
    + eexists _, [FAILED]. cbn [fst snd code]. split; [reflexivity|].
      split; [rewrite A1, J; reflexivity|].
      split; [exact A2|]. split; [constructor|]. split; discriminate.
    + eexists _, [SENT]. cbn [fst snd code]. split; [reflexivity|].
      split; [rewrite A1, J; reflexivity|].
      split; [exact A2|]. split; [constructor|]. split; discriminate.
Qed.

(** The first half of the handler ends with an answer 404, 400 or 429,
    fails on the gate's audit write, or hands the event on with the store
    as it was. *)
Lemma gate_ends id body adminId w :
  let g := gate id body adminId w in
  exists sts,
    audit_writes (journal (snd g)) = (audit_writes (journal w) ++ sts)%list
    /\ invitations (db (snd g)) = invitations (db w)
    /\ match fst g with
       | Ok (inl answer) => RouteEnd (code answer) sts false
       | Ok (inr ev) =>
         sts = [] /\ Prisma.event_lookup id (db w) = Some ev /\ db (snd g) = db w
       | Throw e => emailLogFault w = Some e /\ sts = [RATE_LIMITED]
       end.
Proof.
  cbv zeta.
  assert (P : forall ev,
             Prisma.event_lookup id (db w) = Some ev ->
             is_EMAIL (pl_deliveryMethod body) && negb (Js.truthy (pl_email body))
             = false ->
             is_EMAIL (pl_deliveryMethod body)
             && negb (isEmailSendingEnabled (systemSetting (db w))) = false ->
             (is_EMAIL (pl_deliveryMethod body) = true ->
              gate_open adminId w = true) ->
             exists sts,
               audit_writes (journal (snd (gate id body adminId w)))
               = (audit_writes (journal w) ++ sts)%list
               /\ invitations (db (snd (gate id body adminId w)))
                  = invitations (db w)
               /\ match fst (gate id body adminId w) with
                  | Ok (inl answer) => RouteEnd (code answer) sts false
                  | Ok (inr ev) =>
                    sts = [] /\ Prisma.event_lookup id (db w) = Some ev
                    /\ db (snd (gate id body adminId w)) = db w
                  | Throw e => emailLogFault w = Some e /\ sts = [RATE_LIMITED]
                  end).
  { intros ev H Hv Hc Hg.
    destruct (gate_passes id body adminId ev w H Hv Hc Hg) as (ops & Hops & G).
    exists []. rewrite G. cbn [fst snd journal db log_ops].
    rewrite audit_writes_app, Hops. repeat split; try reflexivity. exact H. }
  destruct (Prisma.event_lookup id (db w)) as [ev|] eqn:H.
  2:{ exists []. unfold gate, bind, Prisma.event_findUnique, ret. rewrite H.
      cbn [fst snd log_op journal db code]. rewrite !audit_writes_app.
      cbn [audit_writes]. rewrite ?app_nil_r.
      split; [reflexivity|]. split; [reflexivity | constructor]. }
  destruct (pl_deliveryMethod body) eqn:Hm.
  { apply (P ev eq_refl); [reflexivity | reflexivity | discriminate]. }
  destruct (Js.truthy (pl_email body)) eqn:He.
  2:{ exists []. unfold gate, bind, Prisma.event_findUnique, ret.
      rewrite H, Hm, He.
      cbn [is_EMAIL andb negb fst snd log_op journal db code].
      rewrite !audit_writes_app. cbn [audit_writes]. rewrite ?app_nil_r.
      split; [reflexivity|]. split; [reflexivity | constructor]. }
  destruct (isEmailSendingEnabled (systemSetting (db w))) eqn:Hen.
  2:{ exists []. unfold gate, bind, Prisma.event_findUnique,
        Prisma.systemSetting_findUnique, ret.
      rewrite H, Hm, He. cbn [is_EMAIL andb negb db log_op]. rewrite Hen.
      cbn [negb fst snd log_op journal db code]. rewrite !audit_writes_app.
      cbn [audit_writes]. rewrite ?app_nil_r.
      split; [reflexivity|]. split; [reflexivity | constructor]. }
  destruct (gate_open adminId w) eqn:Hg.
  { apply (P ev eq_refl); [reflexivity | reflexivity | intros _; reflexivity]. }
  destruct (gate_closed_operator adminId w Hg) as (a & -> & Ha & Hq).
  destruct (postInvitation_gate_denied id body a ev w H Hm He Hen Ha Hq)
    as (msg & _ & G2 & G3 & G4).
  rewrite postInvitation_splits in G2, G3, G4. unfold bind in G2, G3, G4.
  exists [RATE_LIMITED].
  destruct (gate id body (Some a) w) as [[[answer|ev']|e] w1];
    cbn [fst snd resume ret] in *.
  - split; [exact G2|]. split; [exact G3|].
    destruct (emailLogFault w); destruct G4 as [G4 _]; [discriminate|].
    injection G4 as ->. constructor.
  - exfalso.
    destruct (issueAndSend_ends id body (Some a) ev' w1)
      as (answer & sts & F & _ & _ & R & _).
    rewrite F in G4.
    destruct (emailLogFault w); destruct G4 as [G4 _]; [discriminate|].
    injection G4 as ->. inversion R.
  - split; [exact G2|]. split; [exact G3|].
    destruct (emailLogFault w); destruct G4 as [G4 _]; [| discriminate].
    injection G4 as ->. split; reflexivity.
Qed.

(** X9. The ways in which a request for an invitation ends, with a
    transport that delivers or throws and an audit table that can be
    written or not as the only faults (the other store calls are taken
    to succeed), and the status code telling what was left behind.  The
    handler waits for the store between its gate and the creation of the
    invitation, and the world can change while it waits.  Up to there, a
    request is answered 404 or 400, leaving nothing, or 429, leaving one
    audit write RATE_LIMITED; or it fails, on that audit write, when the
    audit table cannot be written; or it goes on with the event it
    found, having left the store as it was.  From there, in whatever
    world it goes on that still holds an event under the identifier, it
    stores the invitation and is answered: 201 with no audit write for a
    link; 201 with one audit write SENT; 500 with one audit write
    FAILED; or 201 with one audit write DISABLED, exactly when the
    sender now finds no usable transport for an e-mail.  That makes
    seven ends.  A request during which nothing else changes the world
    ends in one of the other six: for it the route never makes an audit
    write DISABLED. *)
Theorem postInvitation_ends
    (id : string) (body : InvitationPayload) (adminId : option string) (w : World) :
  (let g := gate id body adminId w in
   exists sts,
     audit_writes (journal (snd g)) = (audit_writes (journal w) ++ sts)%list
     /\ invitations (db (snd g)) = invitations (db w)
     /\ match fst g with
        | Ok (inl answer) => RouteEnd (code answer) sts false
        | Ok (inr ev) =>
          sts = [] /\ Prisma.event_lookup id (db w) = Some ev /\ db (snd g) = db w
        | Throw e => emailLogFault w = Some e /\ sts = [RATE_LIMITED]
        end)
  /\ (forall ev w',
        Prisma.event_lookup id (db w') <> None ->
        let r := issueAndSend id body adminId ev w' in
        exists answer sts,
          fst r = Ok answer
          /\ audit_writes (journal (snd r)) = (audit_writes (journal w') ++ sts)%list
          /\ invitations (db (snd r))
             = (invitations (db w') ++ [issued id body w'])%list
          /\ RouteEnd (code answer) sts true
          /\ (sts = [DISABLED] <->
              is_EMAIL (pl_deliveryMethod body) && Js.truthy (pl_email body)
              && transport_unusable ev (systemSetting (db w')) = true))
  /\ (let r := postInvitation id body adminId w in
      exists (sts : list PrismaEmailStatus) (stored : bool),
        audit_writes (journal (snd r)) = (audit_writes (journal w) ++ sts)%list
        /\ invitations (db (snd r))
           = (invitations (db w) ++ (if stored then [issued id body w] else []))%list
        /\ sts <> [DISABLED]
        /\ match fst r with
           | Ok resp => RouteEnd (code resp) sts stored
           | Throw e =>
             emailLogFault w = Some e /\ sts = [RATE_LIMITED] /\ stored = false
           end).
Proof.
  split; [apply gate_ends|].
  split; [intros ev w' _; apply issueAndSend_ends|].
  cbv zeta.
  destruct (Prisma.event_lookup id (db w)) as [ev|] eqn:H.
  2:{ rewrite (postInvitation_unknown_event id body adminId w H).
      exists [], false. cbn [fst snd log_op journal db code].
        rewrite ?audit_writes_app. cbn [audit_writes]. rewrite ?app_nil_r.
        split; [reflexivity|]. split; [reflexivity|].
        split; [discriminate | constructor]. }
  destruct (pl_deliveryMethod body) eqn:Hm.
  - destruct (postInvitation_link id body adminId ev w H Hm) as [L1 L2].
    exists [], true. rewrite L1, L2.
    split.
    { unfold after_issuing. cbn [journal bump set_db log_op log_ops].
      rewrite !audit_writes_app. cbn. rewrite !app_nil_r. reflexivity. }
    split; [reflexivity|]. split; [discriminate | constructor].
  - destruct (Js.truthy (pl_email body)) eqn:He.
    2:{ rewrite (postInvitation_invalid id body adminId ev w H Hm He).
        exists [], false. cbn [fst snd log_op journal db code].
        rewrite ?audit_writes_app. cbn [audit_writes]. rewrite ?app_nil_r.
        split; [reflexivity|]. split; [reflexivity|].
        split; [discriminate | constructor]. }
    destruct (isEmailSendingEnabled (systemSetting (db w))) eqn:Hen.
    2:{ rewrite (postInvitation_disabled id body adminId ev w H Hm He Hen).
        exists [], false. cbn [fst snd log_op journal db code].
        rewrite ?audit_writes_app. cbn [audit_writes]. rewrite ?app_nil_r.
        split; [reflexivity|]. split; [reflexivity|].
        split; [discriminate | constructor]. }
    destruct (gate_open adminId w) eqn:Hg.
    + destruct (postInvitation_sends id body adminId ev w H Hm He Hen Hg)
        as (pre & P1 & _ & P3 & P4 & P5 & _).
      exists [match smtpFault w with None => SENT | Some _ => FAILED end], true.
      split.
      { rewrite P4, !audit_writes_app, P1. reflexivity. }
      split; [exact P5|].
      split; [destruct (smtpFault w); discriminate|].
      rewrite P3. destruct (smtpFault w); constructor.
    + destruct (gate_closed_operator adminId w Hg) as (a & -> & Ha & Hq).
      destruct (postInvitation_gate_denied id body a ev w H Hm He Hen Ha Hq)
        as (msg & _ & G2 & G3 & G4).
      exists [RATE_LIMITED], false.
      split; [exact G2|]. split; [rewrite G3, app_nil_r; reflexivity|].
      split; [discriminate|].
      destruct (emailLogFault w) as [e|].
      * destruct G4 as [G4 _]. rewrite G4. auto.
      * destruct G4 as [G4 _]. rewrite G4. constructor.
Qed.

Lemma postInvitation_ends_witness :
  fst (gate "ev1" Sample.request (Some "alice") Sample.quiet_world)
  = Ok (inr Sample.hunt)
  /\ Prisma.event_lookup "ev1" (db Sample.settings_lost) <> None
  /\ exists answer,
       fst (issueAndSend "ev1" Sample.request (Some "alice") Sample.hunt
              Sample.settings_lost) = Ok answer
       /\ code answer = 201
       /\ audit_writes
            (journal (snd (issueAndSend "ev1" Sample.request (Some "alice")
                             Sample.hunt Sample.settings_lost)))
          = [DISABLED].
Proof.
  split; [reflexivity|].
  assert (H : Prisma.event_lookup "ev1" (db Sample.settings_lost) <> None)
    by discriminate.
  split; [exact H|].
  destruct (proj1 (proj2 (postInvitation_ends "ev1" Sample.request (Some "alice")
                            Sample.quiet_world))
              Sample.hunt Sample.settings_lost H)
    as (answer & sts & F & A & _ & R & D).
  exists answer. split; [exact F|].
  assert (S : sts = [DISABLED]) by (apply D; reflexivity).
  rewrite S in R, A. split; [| exact A].
  inversion R. reflexivity.
Defined.

(** ** The public event list *)

Lemma insert_asc_perm x l : Permutation (insert_asc x l) (x :: l).
Proof.
  induction l as [|y l IH]; simpl; [reflexivity|].
  destruct (startsAt x <=? startsAt y); [reflexivity|].
  rewrite IH. apply perm_swap.
Qed.

Lemma order_asc_perm l : Permutation (order_asc l) l.
Proof.
  induction l as [|x l IH]; simpl; [reflexivity|].
  rewrite insert_asc_perm. now constructor.
Qed.

Lemma insert_asc_sorted x l : earliest_first l -> earliest_first (insert_asc x l).
Proof.
  unfold earliest_first. induction 1 as [|y l Hs IH Hall]; simpl.
  - repeat constructor.
  - destruct (Z.leb_spec (startsAt x) (startsAt y)) as [Hle|Hgt].
    + constructor; [constructor; assumption|].
      constructor; [exact Hle|].
      eapply Forall_impl; [| exact Hall]. simpl; intros; lia.
    + constructor; [exact IH|].
      apply (Permutation_Forall (Permutation_sym (insert_asc_perm x l))).
      constructor; [lia | exact Hall].
Qed.

Lemma order_asc_sorted l : earliest_first (order_asc l).
Proof.
  induction l as [|x l IH]; simpl; [constructor | now apply insert_asc_sorted].
Qed.

(** X18. The public list shows the events that run now, and only those: an
    event of the store is listed if and only if it is not archived, has
    started and has not ended, as often as the store holds it; the list
    runs from the earliest start to the latest; the request changes
    nothing.  An event on the list is not expired for the join route: the
    token of an active invitation to it opens that same event view. *)
Theorem public_list_shows_running_events (w : World) :
  exists listed,
    fst (getPublicEvents w)
    = Ok {| pe_code := 200; pe_events := map mapEventResponse listed |}
    /\ snd (getPublicEvents w) = w
    /\ Permutation listed (filter (runsAt (now w)) (events (db w)))
    /\ earliest_first listed
    /\ (forall e, In e listed <->
                  In e (events (db w)) /\ archived e = false
                  /\ startsAt e <= now w <= endsAt e)
    /\ (forall e i tok,
          In e listed ->
          invitation_by_token tok w = Some i ->
          Prisma.event_lookup (inv_eventId i) (db w) = Some e ->
          isActive i = true ->
          fst (getJoin tok w)
          = Ok {| code := 200;
                  payload := JJoin (mapEventResponse e) (token i)
                                   (deliveryMethod i) |}).
Proof.
  exists (order_asc (filter (runsAt (now w)) (events (db w)))).
  assert (M : forall e,
            In e (order_asc (filter (runsAt (now w)) (events (db w)))) <->
            In e (events (db w)) /\ archived e = false
            /\ startsAt e <= now w <= endsAt e).
  { intros e. split.
    - intros H. apply (Permutation_in _ (order_asc_perm _)) in H.
      apply filter_In in H as [H1 H2]. unfold runsAt in H2.
      apply andb_true_iff in H2 as [H2 H4]. apply andb_true_iff in H2 as [H2 H3].
      apply negb_true_iff in H2. apply Z.leb_le in H3, H4. auto.
    - intros (H1 & H2 & H3 & H4).
      apply (Permutation_in _ (Permutation_sym (order_asc_perm _))).
      apply filter_In. split; [exact H1|]. unfold runsAt.
      rewrite H2. apply Z.leb_le in H3, H4. rewrite H3, H4. reflexivity. }
  split; [reflexivity|]. split; [reflexivity|].
  split; [apply order_asc_perm|]. split; [apply order_asc_sorted|].
  split; [exact M|].
  intros e i tok He Hi Hev Ha.
  apply M in He. destruct He as (_ & _ & _ & Hend).
  rewrite (getJoin_found tok w i e Hi Hev), Ha. cbn [negb].
  destruct (Z.ltb_spec (endsAt e) (now w)); [lia | reflexivity].
Qed.

(** ** System settings *)

Lemma ensureSystemSettings_run m w :
  ensureSystemSettings m w
  = (Ok tt,
     set_db (log_op OpSettingsFind w)
            (set_systemSetting (Some (ensured m w)) (db w))).
Proof.
  unfold ensureSystemSettings, bind, gets, Prisma.systemSetting_findUnique,
    systemSetting_create, ret, ensured.
  cbn [db env log_op].
  destruct (systemSetting (db w)) as [s|] eqn:E; cbn [negb Js.nullish].
  - f_equal. unfold set_db, log_op, set_systemSetting. cbn.
    destruct w as [d ? ? ? ? ? ? ? ? ?]. cbn in *. destruct d. cbn in *.
    subst. reflexivity.
  - cbn [db log_op]. rewrite E. reflexivity.
Qed.

Lemma ensured_limits m w :
  getRateLimitConfig (env w) (Some (ensured m w)) = limits_of w.
Proof.
  unfold ensured, limits_of, getRateLimitConfig.
  destruct (systemSetting (db w)) as [s|]; reflexivity.
Qed.

Lemma given_or_null x :
  given (match x with Some v => Some (or_null v) | None => None end) = given x.
Proof.
  destruct x as [v|]; [| reflexivity]. unfold given, or_null.
  destruct (Js.truthy v) eqn:E; [exact E | reflexivity].
Qed.

(** What the update route does, in one equation: it answers 400 when the
    body names a transport field without naming all five, and otherwise
    stores the body's columns over the ensured row. *)
Lemma putSettings_run m p w :
  let w1 := snd (ensureSystemSettings m w) in
  putSettings m (Some p) w =
  if touches_smtp p && negb (complete_smtp p) then
    (Ok {| s_code := 400;
           s_payload := SMessage
             (if negb (given (in_smtpHost p)) then "SMTP-Host erforderlich"
              else if negb (givenNum (in_smtpPort p)) then "SMTP-Port erforderlich"
              else if negb (given (in_smtpFromAddress p))
                   then "SMTP Absenderadresse erforderlich"
              else if negb (given (in_smtpUser p)) then "SMTP-Benutzer erforderlich"
              else "SMTP-Passwort erforderlich") |},
     w1)
  else
    let u := apply_settings (settings_data p) (ensured m w) in
    (Ok {| s_code := 200;
           s_payload := SSettings (Some u) (isEmailSendingEnabled (Some u)) |},
     set_db w1 (set_systemSetting (Some u) (db w1))).
Proof.
  cbv zeta. unfold putSettings. unfold bind at 1.
  rewrite ensureSystemSettings_run. cbn [snd].
  unfold settings_data. cbn [in_smtpHost in_smtpPort in_smtpUser in_smtpPassword
                             in_smtpFromAddress].
  rewrite !given_or_null.
  fold (touches_smtp p). unfold complete_smtp.
  destruct (touches_smtp p) eqn:T; cbn [andb].
  - destruct (given (in_smtpHost p)); cbn [negb andb]; [| reflexivity].
    destruct (givenNum (in_smtpPort p)); cbn [negb andb]; [| reflexivity].
    destruct (given (in_smtpFromAddress p)); cbn [negb andb]; [| reflexivity].
    destruct (given (in_smtpUser p)); cbn [negb andb]; [| reflexivity].
    destruct (given (in_smtpPassword p)); cbn [negb andb]; reflexivity.
  - reflexivity.
Qed.

Lemma requested_ceiling x s fallback :
  Js.nullish
    (match match x with
           | Some n => if 0 <? n then Some n else None
           | None => None
           end with
     | Some n => Some n
     | None => s
     end) fallback
  = requested x (Js.nullish s fallback).
Proof.
  unfold requested. destruct x as [n|]; [| reflexivity].
  destruct (0 <? n); reflexivity.
Qed.

Lemma requested_positive x old : 0 < old -> 0 < requested x old.
Proof.
  unfold requested. destruct x as [n|]; [| auto].
  destruct (Z.ltb_spec 0 n); auto.
Qed.

(** X19. The update route changes a ceiling only to a positive number.  The
    route always answers; after a rejected body the ceilings in force are
    those in force before; after an accepted one each ceiling is the
    positive number the body names for it, and the ceiling in force
    before when the body names none or names zero or less.  So a ceiling
    that is on stays on: the route gives no way to lift a quota. *)
Theorem settings_update_keeps_quota_on
    (m : MailEnv) (p : SystemSettingsInput) (w : World) :
  let r := putSettings m (Some p) w in
  let w' := snd r in
  (exists resp, fst r = Ok resp)
  /\ env w' = env w
  /\ (if touches_smtp p && negb (complete_smtp p)
      then limits_of w' = limits_of w
      else perHour (limits_of w')
           = requested (in_maxEmailsPerHourPerAdmin p) (perHour (limits_of w))
           /\ perDay (limits_of w')
              = requested (in_maxEmailsPerDayPerAdmin p) (perDay (limits_of w)))
  /\ (0 < perHour (limits_of w) -> 0 < perHour (limits_of w'))
  /\ (0 < perDay (limits_of w) -> 0 < perDay (limits_of w')).
Proof.
  cbv zeta. rewrite putSettings_run. cbv zeta.
  rewrite ensureSystemSettings_run. cbn [snd].
  destruct (touches_smtp p && negb (complete_smtp p)).
  - cbn [fst snd]. split; [eauto|]. split; [reflexivity|].
    assert (E : limits_of (set_db (log_op OpSettingsFind w)
                             (set_systemSetting (Some (ensured m w)) (db w)))
                = limits_of w) by exact (ensured_limits m w).
    rewrite E. auto.
  - cbn [fst snd]. split; [eauto|]. split; [reflexivity|].
    pose proof (ensured_limits m w) as L.
    unfold limits_of in *. cbn [db env set_db set_systemSetting systemSetting log_op].
    rewrite <- L.
    unfold getRateLimitConfig, apply_settings, settings_data.
    cbn [perHour perDay maxEmailsPerHourPerAdmin maxEmailsPerDayPerAdmin
         in_maxEmailsPerHourPerAdmin in_maxEmailsPerDayPerAdmin].
    rewrite !requested_ceiling.
    split; [split; reflexivity|].
    split; apply requested_positive.
Qed.

Lemma truthy_or_null v : Js.truthy (or_null v) = Js.truthy v.
Proof. unfold or_null. destruct (Js.truthy v) eqn:E; [exact E | reflexivity]. Qed.

Lemma given_true_stored (x : option (option string)) old :
  given x = true ->
  Js.truthy (match match x with
                   | Some v => Some (or_null v)
                   | None => None
                   end with
             | Some v => v
             | None => old
             end) = true.
Proof.
  destruct x as [v|]; [| discriminate]. intros H. cbn in *.
  unfold or_null. rewrite H. exact H.
Qed.

(** X20. The transport part of a settings update is all or nothing.  A body
    that names one of the five transport fields with a value that counts
    must name all five so, whatever the stored row already holds:
    otherwise it is answered 400 and the row stays as it was ensured.  An
    accepted body that names them all leaves e-mail sending enabled; one
    that names any of the five without a value that counts leaves it
    disabled; one that names none leaves it as it was.  The flag in the
    answer is that of the row now stored, and no other table changes. *)
Theorem settings_update_smtp_all_or_nothing
    (m : MailEnv) (p : SystemSettingsInput) (w : World) :
  let r := putSettings m (Some p) w in
  let w' := snd r in
  same_tables w w'
  /\ (touches_smtp p && negb (complete_smtp p) = true ->
      (exists msg, fst r = Ok {| s_code := 400; s_payload := SMessage msg |})
      /\ systemSetting (db w') = Some (ensured m w))
  /\ (touches_smtp p && negb (complete_smtp p) = false ->
      exists u,
        fst r = Ok {| s_code := 200;
                      s_payload := SSettings (Some u) (isEmailSendingEnabled (Some u)) |}
        /\ systemSetting (db w') = Some u
        /\ (touches_smtp p = true -> isEmailSendingEnabled (Some u) = true)
        /\ (touches_smtp p = false -> names_smtp p = true ->
            isEmailSendingEnabled (Some u) = false)
        /\ (names_smtp p = false ->
            isEmailSendingEnabled (Some u)
            = isEmailSendingEnabled (Some (ensured m w)))).
Proof.
  cbv zeta. rewrite putSettings_run. cbv zeta.
  rewrite ensureSystemSettings_run. cbn [snd].
  split.
  { destruct (touches_smtp p && negb (complete_smtp p)); cbn [snd];
      unfold same_tables; cbn; auto 10. }
  split.
  - intros C. rewrite C. cbn [fst snd]. split; [eauto | reflexivity].
  - intros C. rewrite C. cbn [fst snd].
    eexists. split; [reflexivity|]. split; [reflexivity|].
    unfold isEmailSendingEnabled, apply_settings, settings_data.
    cbn [smtpHost smtpPort smtpUser smtpPassword smtpFromAddress
         in_smtpHost in_smtpPort in_smtpUser in_smtpPassword in_smtpFromAddress].
    split; [| split].
    + intros T. rewrite T in C. cbn [andb] in C. apply negb_false_iff in C.
      unfold complete_smtp in C.
      apply andb_true_iff in C as [C C5]. apply andb_true_iff in C as [C C4].
      apply andb_true_iff in C as [C C3]. apply andb_true_iff in C as [C1 C2].
      rewrite !given_true_stored by assumption.
      destruct (in_smtpPort p) as [v|]; [| discriminate]. cbn in C2.
      rewrite C2. reflexivity.
    + intros T N. unfold touches_smtp in T.
      apply orb_false_iff in T as [T T5]. apply orb_false_iff in T as [T T4].
      apply orb_false_iff in T as [T T3]. apply orb_false_iff in T as [T1 T2].
      unfold names_smtp in N.
      destruct (in_smtpHost p) as [h|].
      { cbn in T1. rewrite truthy_or_null, T1. reflexivity. }
      destruct (in_smtpPort p) as [v|].
      { cbn in T2. rewrite T2, andb_false_r. reflexivity. }
      destruct (in_smtpUser p) as [u|].
      { cbn in T3. rewrite (truthy_or_null u), T3, andb_false_r. reflexivity. }
      destruct (in_smtpPassword p) as [pw|].
      { cbn in T4. rewrite (truthy_or_null pw), T4, andb_false_r. reflexivity. }
      destruct (in_smtpFromAddress p) as [f|]; [| discriminate N].
      cbn in T5. rewrite (truthy_or_null f), T5, andb_false_r. reflexivity.
    + intros N. unfold names_smtp in N.
      apply orb_false_iff in N as [N N5]. apply orb_false_iff in N as [N N4].
      apply orb_false_iff in N as [N N3]. apply orb_false_iff in N as [N1 N2].
      destruct (in_smtpHost p); [discriminate|].
      destruct (in_smtpPort p); [discriminate|].
      destruct (in_smtpUser p); [discriminate|].
      destruct (in_smtpPassword p); [discriminate|].
      destruct (in_smtpFromAddress p); [discriminate|].
      reflexivity.
Qed.

(** X21. Reading the settings creates the row when there is none, from the
    defaults, and then answers with the stored row and its flag.  The
    defaults carry the ceilings that the quota check falls back to without
    a row, so the ceilings in force are the same before and after; a
    second read answers the same and changes nothing; with a row in place
    the store is not changed at all. *)
Theorem getSettings_ensures_row (m : MailEnv) (w : World) :
  let r := getSettings m w in
  fst r = Ok {| s_code := 200;
                s_payload := SSettings (Some (ensured m w))
                               (isEmailSendingEnabled (Some (ensured m w))) |}
  /\ systemSetting (db (snd r)) = Some (ensured m w)
  /\ same_tables w (snd r)
  /\ limits_of (snd r) = limits_of w
  /\ fst (getSettings m (snd r)) = fst r
  /\ db (snd (getSettings m (snd r))) = db (snd r)
  /\ (systemSetting (db w) <> None -> db (snd r) = db w).
Proof.
  assert (R : forall w0,
    getSettings m w0
    = (Ok {| s_code := 200;
             s_payload := SSettings (Some (ensured m w0))
                            (isEmailSendingEnabled (Some (ensured m w0))) |},
       log_op OpSettingsFind
         (set_db (log_op OpSettingsFind w0)
                 (set_systemSetting (Some (ensured m w0)) (db w0))))).
  { intros w0. unfold getSettings. unfold bind at 1.
    rewrite ensureSystemSettings_run. reflexivity. }
  cbv zeta. rewrite !R. cbn [fst snd].
  split; [reflexivity|]. split; [reflexivity|].
  split; [unfold same_tables; cbn; auto 10|].
  split; [exact (ensured_limits m w)|].
  split; [reflexivity|]. split; [reflexivity|].
  intros H. unfold ensured. cbn.
  destruct (db w) as [s ? ? ? ? ? ?]. cbn in *.
  destruct s; [reflexivity | congruence].
Qed.

(** ** Players and finds *)

Lemma playerIdentifier_run pid w :
  playerIdentifier pid w = (Ok (fst (identified pid w)), snd (identified pid w)).
Proof.
  unfold playerIdentifier, identified.
  destruct (Js.truthy pid); reflexivity.
Qed.

Lemma identified_db pid w : db (snd (identified pid w)) = db w.
Proof. unfold identified. destruct (Js.truthy pid); reflexivity. Qed.

Lemma player_eta p x ev :
  player_id p = x -> player_eventId p = ev ->
  p = {| player_id := x; player_eventId := ev |}.
Proof. destruct p. cbn. intros -> ->. reflexivity. Qed.

Lemma runsAt_not id_archived t e :
  id_archived = archived e ->
  id_archived || (t <? startsAt e) || (endsAt e <? t) = negb (runsAt t e).
Proof.
  intros ->. unfold runsAt. rewrite !negb_andb, negb_involutive.
  rewrite (Z.ltb_antisym (startsAt e) t), (Z.ltb_antisym t (endsAt e)).
  reflexivity.
Qed.

Lemma postPlayer_run id req w :
  let w0 := log_op (OpEventFind id) w in
  let x := fst (identified (rq_playerId req) w0) in
  let w1 := snd (identified (rq_playerId req) w0) in
  postPlayer id req w =
  if negb (registration_open id w) then
    (Ok {| p_code := 400; p_body := PMessage "Event nicht aktiv" |}, w0)
  else if foreign_player x id w then
    (Ok {| p_code := 400; p_body := PMessage "Spielerkennung ungültig" |}, w1)
  else
    (Ok {| p_code := 200; p_body := PPlayer x |},
     set_db w1 (set_players (players (db w) ++ enrolled x id w) (db w))).
Proof.
  cbv zeta. unfold postPlayer, registration_open.
  unfold bind at 1 2, Prisma.event_findUnique, gets. cbn [now log_op db].
  destruct (Prisma.event_lookup id (db w)) as [e|]; [| reflexivity].
  rewrite (runsAt_not (archived e) (now w) e eq_refl).
  destruct (runsAt (now w) e); cbn [negb]; [| reflexivity].
  unfold bind at 1. rewrite playerIdentifier_run.
  set (x := fst (identified (rq_playerId req) (log_op (OpEventFind id) w))).
  set (w1 := snd (identified (rq_playerId req) (log_op (OpEventFind id) w))).
  assert (D : db w1 = db w) by (subst w1; rewrite identified_db; reflexivity).
  unfold bind at 1, player_findUnique, gets, foreign_player, player_by_id.
  rewrite D.
  destruct (find (fun p => (player_id p =? x)%string) (players (db w))) as [q|] eqn:E.
  - destruct (negb (player_eventId q =? id)%string); [reflexivity|].
    unfold bind, player_upsert, reply, ret, enrolled, player_by_id.
    rewrite D, E. cbn [fst snd].
    destruct (find_some _ _ E) as [_ Hid]. apply String.eqb_eq in Hid.
    rewrite Hid, app_nil_r. f_equal.
    unfold set_db, set_players. destruct w1 as [d ? ? ? ? ? ? ? ? ?].
    cbn in *. subst d. destruct (db w). reflexivity.
  - unfold bind, player_upsert, reply, ret, enrolled, player_by_id.
    rewrite D, E. reflexivity.
Qed.

(** X22. Registration is open exactly while the event runs.  A player is
    registered if and only if the event exists, is not archived, has
    started and has not ended, and the player id is not that of a player
    of another event; the answer then carries the id the request named,
    or a new one, and the player table holds that id under this event,
    with a row added only when the id was new.  A request that is turned
    away leaves the store as it was. *)
Theorem registration_follows_event_window
    (id : string) (req : PlayerRequest) (w : World) :
  let r := postPlayer id req w in
  let x := fst (identified (rq_playerId req) w) in
  (registration_open id w && negb (foreign_player x id w) = false ->
   (exists msg, fst r = Ok {| p_code := 400; p_body := PMessage msg |})
   /\ db (snd r) = db w)
  /\ (registration_open id w && negb (foreign_player x id w) = true ->
      fst r = Ok {| p_code := 200; p_body := PPlayer x |}
      /\ players (db (snd r)) = (players (db w) ++ enrolled x id w)%list
      /\ In {| player_id := x; player_eventId := id |} (players (db (snd r)))
      /\ only_players_differ w (snd r)).
Proof.
  cbv zeta. rewrite postPlayer_run. cbv zeta.
  assert (X : fst (identified (rq_playerId req) (log_op (OpEventFind id) w))
              = fst (identified (rq_playerId req) w)).
  { unfold identified. destruct (Js.truthy (rq_playerId req)); reflexivity. }
  rewrite X.
  set (x := fst (identified (rq_playerId req) w)).
  split.
  - intros C. destruct (registration_open id w); cbn [negb andb] in *.
    + apply negb_false_iff in C. rewrite C. cbn [fst snd].
      split; [eauto | exact (identified_db _ (log_op (OpEventFind id) w))].
    + cbn [fst snd]. split; [eauto | reflexivity].
  - intros C. apply andb_true_iff in C as [C1 C2]. apply negb_true_iff in C2.
    rewrite C1, C2. cbn [negb fst snd db set_db set_players players].
    split; [reflexivity|]. split; [reflexivity|].
    split.
    + unfold enrolled, foreign_player in *.
      destruct (player_by_id x w) as [q|] eqn:E.
      * apply in_or_app. left. unfold player_by_id in E.
        destruct (find_some _ _ E) as [Hin Hid]. apply String.eqb_eq in Hid.
        apply negb_false_iff, String.eqb_eq in C2.
        rewrite <- (player_eta q x id Hid C2). exact Hin.
      * apply in_or_app. right. left. reflexivity.
    + unfold only_players_differ. cbn. repeat split; reflexivity.
Qed.

(** ** Examples *)

Lemma authMiddleware_sessions_witness :
  authMiddleware Sample.sessions Sample.bearer_alice = Authenticated "alice".
Proof.
  destruct (authMiddleware_sessions Sample.sessions None "tok-alice"
              (fun _ => respond 204 JNone) Sample.quiet_world)
    as (_ & _ & H & _).
  apply (H "alice"); [reflexivity | discriminate].
Defined.

Lemma deleteEvent_all_or_nothing_witness :
  fst (deleteEvent "old" Sample.stale_world) = Ok {| code := 204; payload := JNone |}
  /\ (exists err, fst (deleteEvent "gone" Sample.stale_world) = Throw err)
  /\ snd (deleteEvent "gone" Sample.stale_world) = Sample.stale_world.
Proof.
  split.
  - exact (proj1 (proj1 (deleteEvent_all_or_nothing "old" Sample.stale_world)
                    eq_refl)).
  - exact (proj2 (deleteEvent_all_or_nothing "gone" Sample.stale_world) eq_refl).
Defined.

Lemma mail_text_carries_link_witness :
  dispatch_body Sample.hunt_options = default_text Sample.hunt_options.
Proof.
  exact (proj1 (mail_text_carries_link Sample.hunt_options) eq_refl).
Defined.

Lemma settings_update_keeps_quota_on_witness :
  0 < perHour (limits_of
                 (snd (putSettings Sample.mail_env0 (Some Sample.zero_ceiling_body)
                         Sample.quiet_world))).
Proof.
  destruct (settings_update_keeps_quota_on Sample.mail_env0 Sample.zero_ceiling_body
              Sample.quiet_world) as (_ & _ & _ & H & _).
  apply H. apply Z.ltb_lt. reflexivity.
Defined.

Lemma settings_update_smtp_all_or_nothing_witness :
  exists u,
    fst (putSettings Sample.mail_env0 (Some Sample.smtp_body) Sample.unconfigured_world)
    = Ok {| s_code := 200;
            s_payload := SSettings (Some u) (isEmailSendingEnabled (Some u)) |}
    /\ isEmailSendingEnabled (Some u) = true.
Proof.
  destruct (settings_update_smtp_all_or_nothing Sample.mail_env0 Sample.smtp_body
              Sample.unconfigured_world) as (_ & _ & H).
  destruct (H eq_refl) as (u & A & _ & C & _).
  exists u. split; [exact A | exact (C eq_refl)].
Defined.

Lemma registration_follows_event_window_witness :
  fst (postPlayer "ev1" Sample.player_p1 Sample.quiet_world)
  = Ok {| p_code := 200; p_body := PPlayer "p1" |}.
Proof.
  exact (proj1 (proj2 (registration_follows_event_window "ev1" Sample.player_p1
                         Sample.quiet_world) eq_refl)).
Defined.
